(** * deadhand daemon: the session telemetry hub

    A shallow embedding of the daemon's state registry (registry.ts), its
    durable log (persistence.ts) and the connection hub (websocket.ts),
    with the access token (auth.ts) and the routes (server.ts) that lead to
    them, and the properties of these components.

    Conventions of the embedding:
    - a JS [Map] whose iteration order is observable is an association list
      in insertion order ([JsMap]); a [Map] or [Set] that is only looked up
      is a [gmap] or [gset];
    - JSON serialisation is the identity on the structured values below, and
      a log file is the list of records of its parseable lines;
    - [nanoid()], [new Date()] and [Date.now()] are inputs of the operation
      that calls them;
    - a callback is an identity together with the inputs on which it throws;
      every call made to it is recorded in the trace of the operation;
    - the characters of a string are its code units. *)

From stdpp Require Import base option list gmap sets strings pretty.
From Stdlib Require Import Ascii ZArith Lia.

Open Scope string_scope.
Open Scope list_scope.

(** ** JavaScript truthiness of strings *)

(** [if (s)] on a string: the empty string is falsy. *)
Definition truthy (s : string) : bool := negb (String.eqb s "").

(** [if (o)] on [string | undefined]. *)
Definition truthy_opt (o : option string) : bool :=
  match o with
  | Some s => truthy s
  | None => false
  end.

(** ** Insertion-ordered maps (JS [Map]) *)

Module JsMap.
Section JsMap.
Context {V : Type}.

Definition t := list (string * V).

Fixpoint get (k : string) (m : t) : option V :=
  match m with
  | [] => None
  | (k', v) :: r => if String.eqb k k' then Some v else get k r
  end.

(** [m.set(k, v)]: an existing key keeps its position. *)
Fixpoint set (k : string) (v : V) (m : t) : t :=
  match m with
  | [] => [(k, v)]
  | (k', v') :: r =>
      if String.eqb k k' then (k', v) :: r else (k', v') :: set k v r
  end.

Fixpoint delete (k : string) (m : t) : t :=
  match m with
  | [] => []
  | (k', v') :: r =>
      if String.eqb k k' then r else (k', v') :: delete k r
  end.

Definition keys (m : t) : list string := map fst m.
Definition values (m : t) : list V := map snd m.
End JsMap.
Arguments t : clear implicits.
End JsMap.

(** ** Data model (types.ts) *)

Inductive SessionStatus := active | idle | error.

Inductive SessionMode :=
  | mode_agent | mode_chat | mode_plan | mode_debug | mode_background
  | mode_unknown.

Inductive TranscriptEventType :=
  | ev_message | ev_delta | ev_tool_start | ev_tool_end | ev_status.

Global Instance SessionStatus_eq_dec : EqDecision SessionStatus.
Proof. solve_decision. Defined.
Global Instance SessionMode_eq_dec : EqDecision SessionMode.
Proof. solve_decision. Defined.
Global Instance TranscriptEventType_eq_dec : EqDecision TranscriptEventType.
Proof. solve_decision. Defined.

(** A JS [number] that the daemon only stores and forwards. *)
Definition number := Z.

Record Instance := mkInstance {
  i_instanceId : string;
  i_app : string;
  i_appVersion : string;
  i_workspaceName : string;
  i_workspacePath : string;
  i_pid : number;
  i_startedAt : string;
  i_lastSeenAt : string;
}.

(** [Omit<Instance, 'startedAt' | 'lastSeenAt'>] *)
Record InstanceData := mkInstanceData {
  id_instanceId : string;
  id_app : string;
  id_appVersion : string;
  id_workspaceName : string;
  id_workspacePath : string;
  id_pid : number;
}.

Record Session := mkSession {
  sessionId : string;
  instanceId : string;
  title : string;
  createdAt : string;
  status : SessionStatus;
  mode : option SessionMode;
  lastUpdatedAt : option string;
  contextUsagePercent : option number;
  totalLinesAdded : option number;
  totalLinesRemoved : option number;
  filesChangedCount : option number;
  subtitle : option string;
  model : option string;
}.

(** [Omit<Session, 'createdAt'>] *)
Record SessionData := mkSessionData {
  sd_sessionId : string;
  sd_instanceId : string;
  sd_title : string;
  sd_status : SessionStatus;
  sd_mode : option SessionMode;
  sd_lastUpdatedAt : option string;
  sd_contextUsagePercent : option number;
  sd_totalLinesAdded : option number;
  sd_totalLinesRemoved : option number;
  sd_filesChangedCount : option number;
  sd_subtitle : option string;
  sd_model : option string;
}.

(** [Partial<Session>]: [None] is a property that the object does not have. *)
Record SessionUpdates := mkSessionUpdates {
  u_sessionId : option string;
  u_instanceId : option string;
  u_title : option string;
  u_createdAt : option string;
  u_status : option SessionStatus;
  u_mode : option SessionMode;
  u_lastUpdatedAt : option string;
  u_contextUsagePercent : option number;
  u_totalLinesAdded : option number;
  u_totalLinesRemoved : option number;
  u_filesChangedCount : option number;
  u_subtitle : option string;
  u_model : option string;
}.

Definition no_updates : SessionUpdates :=
  mkSessionUpdates None None None None None None None None None None None
    None None.

(** [Object.assign(session, updates)] *)
Definition assign (s : Session) (u : SessionUpdates) : Session :=
  {| sessionId := default (sessionId s) (u_sessionId u);
     instanceId := default (instanceId s) (u_instanceId u);
     title := default (title s) (u_title u);
     createdAt := default (createdAt s) (u_createdAt u);
     status := default (status s) (u_status u);
     mode := match u_mode u with Some v => Some v | None => mode s end;
     lastUpdatedAt :=
       match u_lastUpdatedAt u with
       | Some v => Some v
       | None => lastUpdatedAt s
       end;
     contextUsagePercent :=
       match u_contextUsagePercent u with
       | Some v => Some v
       | None => contextUsagePercent s
       end;
     totalLinesAdded :=
       match u_totalLinesAdded u with
       | Some v => Some v
       | None => totalLinesAdded s
       end;
     totalLinesRemoved :=
       match u_totalLinesRemoved u with
       | Some v => Some v
       | None => totalLinesRemoved s
       end;
     filesChangedCount :=
       match u_filesChangedCount u with
       | Some v => Some v
       | None => filesChangedCount s
       end;
     subtitle :=
       match u_subtitle u with Some v => Some v | None => subtitle s end;
     model := match u_model u with Some v => Some v | None => model s end |}.

(** [session.status = st] *)
Definition set_status (st : SessionStatus) (s : Session) : Session :=
  assign s (mkSessionUpdates None None None None (Some st) None None None
              None None None None None).

Record TranscriptEvent := mkTranscriptEvent {
  eventId : string;
  e_sessionId : string;
  ts : string;
  e_type : TranscriptEventType;
  (** [Record<string, unknown>], kept in its serialised form *)
  payload : string;
  sourceId : option string;
}.

(** [Omit<TranscriptEvent, 'eventId' | 'ts'> & { sourceId?: string }] *)
Record TranscriptEventData := mkTranscriptEventData {
  d_sessionId : string;
  d_type : TranscriptEventType;
  d_payload : string;
  d_sourceId : option string;
}.

Global Instance Session_eq_dec : EqDecision Session.
Proof. solve_decision. Defined.
Global Instance TranscriptEvent_eq_dec : EqDecision TranscriptEvent.
Proof. solve_decision. Defined.
Global Instance Instance_eq_dec : EqDecision Instance.
Proof. solve_decision. Defined.

(** ** Operations with effects

    An operation runs on a state of type [S], leaves a trace of effects of
    type [E], and either returns or lets an exception escape. *)

Inductive completion (A : Type) :=
  | Normal (a : A)
  | Throw (err : string).
Arguments Normal {A}.
Arguments Throw {A}.

Record Run (S E A : Type) := mkRun {
  state : S;
  trace : list E;
  value : completion A;
}.
Arguments mkRun {S E A}.
Arguments state {S E A}.
Arguments trace {S E A}.
Arguments value {S E A}.

Definition M (S E A : Type) := S → Run S E A.

Section Monad.
Context {S E : Type}.

Definition ret {A} (a : A) : M S E A := λ s, mkRun s [] (Normal a).

Definition bind {A B} (m : M S E A) (f : A → M S E B) : M S E B :=
  λ s,
    let o := m s in
    match value o with
    | Normal a =>
        let o' := f a (state o) in
        mkRun (state o') (trace o ++ trace o') (value o')
    | Throw err => mkRun (state o) (trace o) (Throw err)
    end.

Definition gets {A} (f : S → A) : M S E A := λ s, mkRun s [] (Normal (f s)).

Definition modify (f : S → S) : M S E unit := λ s, mkRun (f s) [] (Normal tt).

Definition throw {A} (err : string) : M S E A := λ s, mkRun s [] (Throw err).

(** [try { m } catch (err) { handler(err) }] *)
Definition try_catch {A} (m : M S E A) (handler : string → M S E A)
  : M S E A :=
  λ s,
    let o := m s in
    match value o with
    | Normal a => o
    | Throw err =>
        let o' := handler err (state o) in
        mkRun (state o') (trace o ++ trace o') (value o')
    end.

(** [for (const x of xs) { body(x) }] over a snapshot of the entries. *)
Fixpoint for_of {A} (xs : list A) (body : A → M S E unit) : M S E unit :=
  match xs with
  | [] => ret tt
  | x :: rest => bind (body x) (λ _, for_of rest body)
  end.
End Monad.

Notation "'do' x <- m ; k" := (bind m (λ x, k))
  (at level 10, x name, m at level 100, k at level 200).
Notation "'run' m ; k" := (bind m (λ _, k))
  (at level 10, m at level 100, k at level 200).

(** ** Durable log (persistence.ts) *)

(** One line of [sessions.jsonl]. *)
Inductive SessionRecord :=
  | rec_start (session : Session) (rts : string)
  | rec_update (sid : string) (updates : SessionUpdates) (rts : string)
  | rec_end (sid : string) (rts : string).

(** The persistence manager: the two kinds of log files under the data
    directory, and the source-id index that the manager keeps in memory.
    [transcriptsDir] maps a file name to the events of its lines. *)
Record Persistence := mkPersistence {
  sessionsFile : list SessionRecord;
  transcriptsDir : gmap string (list TranscriptEvent);
  pm_seenSourceIds : gmap string (gset string);
}.

(** [createPersistenceManager(dataDir)] on a data directory. *)
Definition createPersistenceManager
    (sessions_jsonl : list SessionRecord)
    (dir : gmap string (list TranscriptEvent)) : Persistence :=
  mkPersistence sessions_jsonl dir ∅.

Definition is_between (lo hi c : nat) : bool :=
  Nat.leb lo c && Nat.leb c hi.

(** The character class [a-zA-Z0-9_-]. *)
Definition safe_char (c : ascii) : bool :=
  let n := nat_of_ascii c in
  is_between 97 122 n || is_between 65 90 n || is_between 48 57 n
  || Nat.eqb n 95 || Nat.eqb n 45.

(** [sessionId.replace(/[^a-zA-Z0-9_-]/g, '_')] *)
Fixpoint sanitize (s : string) : string :=
  match s with
  | EmptyString => EmptyString
  | String c r => String (if safe_char c then c else "_"%char) (sanitize r)
  end.

(** [getTranscriptFile(sessionId)], relative to the transcripts directory. *)
Definition getTranscriptFile (sid : string) : string :=
  sanitize sid +:+ ".jsonl".

(** [f.endsWith(suffix)] *)
Fixpoint endsWith (suffix s : string) : bool :=
  if String.eqb s suffix then true
  else match s with
       | EmptyString => false
       | String _ r => endsWith suffix r
       end.

Fixpoint string_drop (n : nat) (s : string) : string :=
  match n, s with
  | 0, _ => s
  | S n', String _ r => string_drop n' r
  | S _, EmptyString => EmptyString
  end.

(** [s.replace(pat, rep)] with a string pattern: the first occurrence only. *)
Fixpoint replace_first (pat rep s : string) : string :=
  if String.prefix pat s then rep +:+ string_drop (String.length pat) s
  else match s with
       | EmptyString => EmptyString
       | String c r => String c (replace_first pat rep r)
       end.

(** [ensureSourceIdSet(sessionId).add(sourceId)] on a map of sets. *)
Definition add_source_id (sid s : string) (m : gmap string (gset string))
  : gmap string (gset string) :=
  <[sid := {[s]} ∪ default ∅ (m !! sid)]> m.

(** [ensureSourceIdSet(sessionId)] alone: an absent set is created empty. *)
Definition ensure_source_id_set (sid : string) (m : gmap string (gset string))
  : gmap string (gset string) :=
  <[sid := default ∅ (m !! sid)]> m.

(** The loop [for (const event of events) if (event.sourceId) set.add(...)]. *)
Fixpoint collect_source_ids (events : list TranscriptEvent) (acc : gset string)
  : gset string :=
  match events with
  | [] => acc
  | e :: r =>
      collect_source_ids r
        (match sourceId e with
         | Some s => if truthy s then {[s]} ∪ acc else acc
         | None => acc
         end)
  end.

Definition appendSession (rec : SessionRecord) (p : Persistence) : Persistence :=
  mkPersistence (sessionsFile p ++ [rec]) (transcriptsDir p)
    (pm_seenSourceIds p).

Definition persistSessionStart (s : Session) (now : string) :=
  appendSession (rec_start s now).

Definition persistSessionUpdate (sid : string) (u : SessionUpdates)
    (now : string) :=
  appendSession (rec_update sid u now).

Definition persistSessionEnd (sid : string) (now : string) :=
  appendSession (rec_end sid now).

Definition persistTranscriptEvent (e : TranscriptEvent) (p : Persistence)
  : Persistence :=
  let file := getTranscriptFile (e_sessionId e) in
  mkPersistence (sessionsFile p)
    (<[file := default [] (transcriptsDir p !! file) ++ [e]]> (transcriptsDir p))
    (match sourceId e with
     | Some s =>
         if truthy s then add_source_id (e_sessionId e) s (pm_seenSourceIds p)
         else pm_seenSourceIds p
     | None => pm_seenSourceIds p
     end).

(** One iteration of the replay switch of [loadSessions]. *)
Definition replay_record (m : JsMap.t Session) (rec : SessionRecord)
  : JsMap.t Session :=
  match rec with
  | rec_start s _ => JsMap.set (sessionId s) s m
  | rec_update sid u _ =>
      match JsMap.get sid m with
      | Some s => JsMap.set sid (assign s u) m
      | None => m
      end
  | rec_end sid _ =>
      match JsMap.get sid m with
      | Some s => JsMap.set sid (set_status idle s) m
      | None => m
      end
  end.

Definition loadSessions (p : Persistence) : JsMap.t Session :=
  foldl replay_record [] (sessionsFile p).

(** [readLines] of a transcript file: a missing file reads as no lines. *)
Definition readTranscriptFile (p : Persistence) (file : string)
  : list TranscriptEvent :=
  default [] (transcriptsDir p !! file).

(** [loadTranscriptEvents(sessionId)]: the events, and the manager with its
    source-id index rebuilt for that session. *)
Definition loadTranscriptEvents (sid : string) (p : Persistence)
  : list TranscriptEvent * Persistence :=
  let events := readTranscriptFile p (getTranscriptFile sid) in
  let idx := ensure_source_id_set sid (pm_seenSourceIds p) in
  let idx' :=
    <[sid := collect_source_ids events (default ∅ (idx !! sid))]> idx in
  (events, mkPersistence (sessionsFile p) (transcriptsDir p) idx').

(** The body of the loop of [loadAllTranscriptEvents] for one file name. *)
Definition load_file (acc : gmap string (list TranscriptEvent) * Persistence)
    (file : string) : gmap string (list TranscriptEvent) * Persistence :=
  let sid := replace_first ".jsonl" "" file in
  let '(events, p') := loadTranscriptEvents sid acc.2 in
  (match events with
   | [] => acc.1
   | _ :: _ => <[sid := events]> acc.1
   end, p').

(** [loadAllTranscriptEvents()]: [readdirSync] lists the directory in the
    order of [map_to_list]. *)
Definition loadAllTranscriptEvents (p : Persistence)
  : gmap string (list TranscriptEvent) * Persistence :=
  let files :=
    filter (λ f, endsWith ".jsonl" f = true) (map_to_list (transcriptsDir p)).*1 in
  foldl load_file (∅, p) files.

Definition hasSourceId (sid s : string) (p : Persistence) : bool :=
  match pm_seenSourceIds p !! sid with
  | Some set => bool_decide (s ∈ set)
  | None => false
  end.

(** ** State registry (registry.ts) *)

Definition MAX_EVENTS_PER_SESSION : nat := 100 * 100.

Inductive InstanceChangeType := ic_update | ic_disconnect.
Inductive SessionChangeType := sc_start | sc_update | sc_end.

(** A registered callback: its identity in the listener [Set], and the
    notifications on which it throws. *)
Record Listener (N : Type) := mkListener {
  lid : nat;
  throws : N → option string;
}.
Arguments mkListener {N}.
Arguments lid {N}.
Arguments throws {N}.

(** One invocation of a registered callback. *)
Inductive Call :=
  | call_instance (l : nat) (t : InstanceChangeType) (i : Instance)
  | call_session (l : nat) (t : SessionChangeType) (s : Session)
  | call_transcript (l : nat) (e : TranscriptEvent).

Record Registry := mkRegistry {
  persistence : option Persistence;
  instances : JsMap.t Instance;
  sessions : JsMap.t Session;
  transcripts : gmap string (list TranscriptEvent);
  seenSourceIds : gmap string (gset string);
  instanceListeners : list (Listener (InstanceChangeType * Instance));
  sessionListeners : list (Listener (SessionChangeType * Session));
  transcriptListeners : list (Listener TranscriptEvent);
}.

Definition with_persistence (f : Persistence → Persistence) (r : Registry) :=
  mkRegistry (f <$> persistence r) (instances r) (sessions r) (transcripts r)
    (seenSourceIds r) (instanceListeners r) (sessionListeners r)
    (transcriptListeners r).

Definition with_instances (f : JsMap.t Instance → JsMap.t Instance)
    (r : Registry) :=
  mkRegistry (persistence r) (f (instances r)) (sessions r) (transcripts r)
    (seenSourceIds r) (instanceListeners r) (sessionListeners r)
    (transcriptListeners r).

Definition with_sessions (f : JsMap.t Session → JsMap.t Session)
    (r : Registry) :=
  mkRegistry (persistence r) (instances r) (f (sessions r)) (transcripts r)
    (seenSourceIds r) (instanceListeners r) (sessionListeners r)
    (transcriptListeners r).

Definition with_transcripts
    (f : gmap string (list TranscriptEvent) → gmap string (list TranscriptEvent))
    (r : Registry) :=
  mkRegistry (persistence r) (instances r) (sessions r) (f (transcripts r))
    (seenSourceIds r) (instanceListeners r) (sessionListeners r)
    (transcriptListeners r).

Definition with_seenSourceIds
    (f : gmap string (gset string) → gmap string (gset string))
    (r : Registry) :=
  mkRegistry (persistence r) (instances r) (sessions r) (transcripts r)
    (f (seenSourceIds r)) (instanceListeners r) (sessionListeners r)
    (transcriptListeners r).

(** *** Registry operations *)

Abbreviation RegM := (M Registry Call).

(** [listeners.forEach((cb) => cb(n))]: in insertion order, up to the first
    callback that throws. *)
Fixpoint notify {N} (mk : nat → N → Call) (ls : list (Listener N)) (n : N)
  : list Call * option string :=
  match ls with
  | [] => ([], None)
  | l :: rest =>
      match throws l n with
      | Some err => ([mk (lid l) n], Some err)
      | None => let r := notify mk rest n in (mk (lid l) n :: r.1, r.2)
      end
  end.

Definition forEach {N} (mk : nat → N → Call)
    (ls : Registry → list (Listener N)) (n : N) : RegM unit :=
  λ r,
    let res := notify mk (ls r) n in
    mkRun r res.1 (match res.2 with Some err => Throw err | None => Normal tt end).

Definition mk_instance_call l (n : InstanceChangeType * Instance) :=
  call_instance l n.1 n.2.
Definition mk_session_call l (n : SessionChangeType * Session) :=
  call_session l n.1 n.2.

Definition notifyInstance (t : InstanceChangeType) (i : Instance) : RegM unit :=
  forEach mk_instance_call instanceListeners (t, i).
Definition notifySession (t : SessionChangeType) (s : Session) : RegM unit :=
  forEach mk_session_call sessionListeners (t, s).
Definition notifyTranscript (e : TranscriptEvent) : RegM unit :=
  forEach call_transcript transcriptListeners e.

(** [persistence?.f(...)] *)
Definition persist (f : Persistence → Persistence) : RegM unit :=
  modify (with_persistence f).

(** *** Construction and replay *)

(** The source-id set rebuilt for one loaded session; it is stored only when
    it is not empty. *)
Definition rebuilt_source_ids (events : list TranscriptEvent)
  : option (gset string) :=
  let set := collect_source_ids events ∅ in
  if decide (set = ∅) then None else Some set.

Definition createInstanceRegistry (options : option Persistence) : Registry :=
  match options with
  | None => mkRegistry None [] [] ∅ ∅ [] [] []
  | Some p =>
      let loadedSessions := loadSessions p in
      let loaded := loadAllTranscriptEvents p in
      mkRegistry (Some loaded.2)
        []
        (foldl (λ m kv, JsMap.set kv.1 kv.2 m) [] loadedSessions)
        loaded.1
        (omap rebuilt_source_ids loaded.1)
        [] [] []
  end.

(** *** Instance management *)

Definition registerInstance (data : InstanceData) (now : string) : RegM Instance :=
  let instance :=
    mkInstance (id_instanceId data) (id_app data) (id_appVersion data)
      (id_workspaceName data) (id_workspacePath data) (id_pid data) now now in
  run modify (with_instances (JsMap.set (id_instanceId data) instance));
  run notifyInstance ic_update instance;
  ret instance.

Definition updateHeartbeat (iid : string) (now : string) : RegM unit :=
  do found <- gets (λ r, JsMap.get iid (instances r));
  match found with
  | Some instance =>
      let instance' :=
        mkInstance (i_instanceId instance) (i_app instance)
          (i_appVersion instance) (i_workspaceName instance)
          (i_workspacePath instance) (i_pid instance) (i_startedAt instance)
          now in
      run modify (with_instances (JsMap.set iid instance'));
      notifyInstance ic_update instance'
  | None => ret tt
  end.

(** [session.instanceId === instanceId && session.status === 'active'] *)
Definition owned_active (iid : string) (s : Session) : bool :=
  String.eqb (instanceId s) iid && bool_decide (status s = active).

(** The loop of [removeInstance] over the entries of [sessions]; [j] is the
    position of the entry being visited, whose session object is mutated in
    place. *)
Fixpoint removeInstance_loop (iid now : string) (j : nat)
    (entries : list (string * Session)) : RegM unit :=
  match entries with
  | [] => ret tt
  | (_, session) :: rest =>
      run (if owned_active iid session then
             let session' := set_status idle session in
             run modify (with_sessions (alter (prod_map id (set_status idle)) j));
             run notifySession sc_end session';
             persist (persistSessionEnd (sessionId session') now)
           else ret tt);
      removeInstance_loop iid now (S j) rest
  end.

Definition removeInstance (iid : string) (now : string) : RegM unit :=
  do found <- gets (λ r, JsMap.get iid (instances r));
  match found with
  | Some instance =>
      run modify (with_instances (JsMap.delete iid));
      do entries <- gets sessions;
      run removeInstance_loop iid now 0 entries;
      notifyInstance ic_disconnect instance
  | None => ret tt
  end.

Definition getInstance (iid : string) (r : Registry) : option Instance :=
  JsMap.get iid (instances r).

Definition getAllInstances (r : Registry) : list Instance :=
  JsMap.values (instances r).

(** *** Session management *)

(** [{ status: 'active', instanceId }] *)
Definition reactivation (iid : string) : SessionUpdates :=
  mkSessionUpdates None (Some iid) None None (Some active) None None None
    None None None None None.

(** [{ ...data, instanceId, createdAt: now }] *)
Definition new_session (iid : string) (data : SessionData) (now : string)
  : Session :=
  mkSession (sd_sessionId data) iid (sd_title data) now (sd_status data)
    (sd_mode data) (sd_lastUpdatedAt data) (sd_contextUsagePercent data)
    (sd_totalLinesAdded data) (sd_totalLinesRemoved data)
    (sd_filesChangedCount data) (sd_subtitle data) (sd_model data).

Definition startSession (iid : string) (data : SessionData) (now : string)
  : RegM Session :=
  let sid := sd_sessionId data in
  do existing <- gets (λ r, JsMap.get sid (sessions r));
  match existing with
  | Some existing =>
      let existing' :=
        mkSession (sessionId existing) iid (title existing)
          (createdAt existing) active (mode existing)
          (lastUpdatedAt existing) (contextUsagePercent existing)
          (totalLinesAdded existing) (totalLinesRemoved existing)
          (filesChangedCount existing) (subtitle existing) (model existing) in
      run modify (with_sessions (JsMap.set sid existing'));
      run notifySession sc_update existing';
      run persist (persistSessionUpdate sid (reactivation iid) now);
      ret existing'
  | None =>
      let session := new_session iid data now in
      run modify (with_sessions (JsMap.set sid session));
      run modify (with_transcripts <[sid := []]>);
      run notifySession sc_start session;
      run persist (persistSessionStart session now);
      ret session
  end.

Definition updateSession (sid : string) (updates : SessionUpdates)
    (now : string) : RegM (option Session) :=
  do found <- gets (λ r, JsMap.get sid (sessions r));
  match found with
  | Some session =>
      let session' := assign session updates in
      run modify (with_sessions (JsMap.set sid session'));
      run notifySession sc_update session';
      run persist (persistSessionUpdate sid updates now);
      ret (Some session')
  | None => ret None
  end.

Definition endSession (sid : string) (now : string) : RegM unit :=
  do found <- gets (λ r, JsMap.get sid (sessions r));
  match found with
  | Some session =>
      let session' := set_status idle session in
      run modify (with_sessions (JsMap.set sid session'));
      run notifySession sc_end session';
      persist (persistSessionEnd sid now)
  | None => ret tt
  end.

Definition getSession (sid : string) (r : Registry) : option Session :=
  JsMap.get sid (sessions r).

Definition getSessionsForInstance (iid : string) (r : Registry) : list Session :=
  filter (λ s, instanceId s = iid) (JsMap.values (sessions r)).

Definition getAllSessions (r : Registry) : list Session :=
  JsMap.values (sessions r).

(** *** Transcript events *)

(** [while (events.length > MAX_EVENTS_PER_SESSION) events.shift()] *)
Fixpoint evict (events : list TranscriptEvent) : list TranscriptEvent :=
  match events with
  | [] => []
  | _ :: rest =>
      if Nat.ltb MAX_EVENTS_PER_SESSION (length events) then evict rest
      else events
  end.

(** [seenSourceIds.get(sessionId)?.has(sourceId)] *)
Definition seen (sid s : string) (r : Registry) : bool :=
  match seenSourceIds r !! sid with
  | Some set => bool_decide (s ∈ set)
  | None => false
  end.

(** The duplicate check at the head of [addTranscriptEvent]. *)
Definition is_duplicate (data : TranscriptEventData) (r : Registry) : bool :=
  match d_sourceId data with
  | Some s => truthy s && seen (d_sessionId data) s r
  | None => false
  end.

(** [{ ...data, eventId: nanoid(), ts: new Date().toISOString() }] *)
Definition new_event (data : TranscriptEventData) (newId now : string)
  : TranscriptEvent :=
  mkTranscriptEvent newId (d_sessionId data) now (d_type data)
    (d_payload data) (d_sourceId data).

Definition addTranscriptEvent (data : TranscriptEventData)
    (newId now : string) : RegM (option TranscriptEvent) :=
  do dup <- gets (is_duplicate data);
  if dup then ret None
  else
    let sid := d_sessionId data in
    let event := new_event data newId now in
    do events <- gets (λ r, default [] (transcripts r !! sid));
    let events := events ++ [event] in
    run (match sourceId event with
         | Some s =>
             if truthy s then modify (with_seenSourceIds (add_source_id sid s))
             else ret tt
         | None => ret tt
         end);
    run modify (with_transcripts <[sid := evict events]>);
    run persist (persistTranscriptEvent event);
    run notifyTranscript event;
    ret (Some event).

(** [events.findIndex((e) => e.eventId === id)]; [None] is the index -1. *)
Fixpoint findIndex (id : string) (events : list TranscriptEvent) : option nat :=
  match events with
  | [] => None
  | e :: rest =>
      if String.eqb (eventId e) id then Some 0 else S <$> findIndex id rest
  end.

Definition getTranscriptEvents (sid : string) (afterEventId : option string)
    (r : Registry) : list TranscriptEvent :=
  let events := default [] (transcripts r !! sid) in
  if negb (truthy_opt afterEventId) then events
  else
    match findIndex (default "" afterEventId) events with
    | None => events
    | Some idx => drop (idx + 1) events
    end.

(** *** Event subscription *)

(** [listeners.add(callback)]: a [Set] holds a callback once. *)
Definition add_listener {N} (l : Listener N) (ls : list (Listener N))
  : list (Listener N) :=
  if bool_decide (lid l ∈ map lid ls) then ls else ls ++ [l].

(** The unsubscribe handle: [listeners.delete(callback)]. *)
Definition delete_listener {N} (id : nat) (ls : list (Listener N))
  : list (Listener N) :=
  filter (λ l, lid l ≠ id) ls.

Definition onInstanceChange (l : Listener (InstanceChangeType * Instance))
    (r : Registry) : Registry :=
  mkRegistry (persistence r) (instances r) (sessions r) (transcripts r)
    (seenSourceIds r) (add_listener l (instanceListeners r))
    (sessionListeners r) (transcriptListeners r).

Definition onSessionChange (l : Listener (SessionChangeType * Session))
    (r : Registry) : Registry :=
  mkRegistry (persistence r) (instances r) (sessions r) (transcripts r)
    (seenSourceIds r) (instanceListeners r)
    (add_listener l (sessionListeners r)) (transcriptListeners r).

Definition onTranscriptEvent (l : Listener TranscriptEvent) (r : Registry)
  : Registry :=
  mkRegistry (persistence r) (instances r) (sessions r) (transcripts r)
    (seenSourceIds r) (instanceListeners r) (sessionListeners r)
    (add_listener l (transcriptListeners r)).

Definition offInstanceChange (id : nat) (r : Registry) : Registry :=
  mkRegistry (persistence r) (instances r) (sessions r) (transcripts r)
    (seenSourceIds r) (delete_listener id (instanceListeners r))
    (sessionListeners r) (transcriptListeners r).

Definition offSessionChange (id : nat) (r : Registry) : Registry :=
  mkRegistry (persistence r) (instances r) (sessions r) (transcripts r)
    (seenSourceIds r) (instanceListeners r)
    (delete_listener id (sessionListeners r)) (transcriptListeners r).

Definition offTranscriptEvent (id : nat) (r : Registry) : Registry :=
  mkRegistry (persistence r) (instances r) (sessions r) (transcripts r)
    (seenSourceIds r) (instanceListeners r) (sessionListeners r)
    (delete_listener id (transcriptListeners r)).

(** ** Connection hub (websocket.ts) *)

(** *** Messages (types.ts) *)

Record EnabledModel := mkEnabledModel {
  em_name : string;
  em_clientDisplayName : option string;
  em_serverModelName : option string;
  em_supportsMaxMode : option bool;
  em_supportsThinking : option bool;
}.

Inductive WSClientMessage :=
  | c_subscribe_instances
  | c_subscribe_session (sid : string)
  | c_unsubscribe_instances
  | c_unsubscribe_session (sid : string)
  | c_ping
  | c_send_message (sid : string) (message : string)
  | c_get_enabled_models (requestId : string) (iid : string)
  | c_create_chat (requestId : string) (iid : string) (prompt : string)
      (unifiedMode : SessionMode) (modelName : option string)
      (maxMode : option bool).

Inductive WSServerMessage :=
  | s_instance_update (instance : Instance)
  | s_instance_disconnect (iid : string)
  | s_session_update (session : Session)
  | s_transcript_event (event : TranscriptEvent)
  | s_error (message : string)
  | s_pong
  | s_send_message_result (sid : string) (success : bool)
      (composerId : option string) (err : option string)
  | s_enabled_models_result (requestId : string) (iid : string)
      (success : bool) (models : option (list EnabledModel))
      (err : option string)
  | s_create_chat_result (requestId : string) (success : bool)
      (composerId : option string) (err : option string).

Inductive ExtensionMessage :=
  | x_register (instance : InstanceData)
  | x_heartbeat
  | x_session_start (session : SessionData)
  (** [Partial<Session> & { sessionId }]: the id, and the other properties *)
  | x_session_update (sid : string) (session : SessionUpdates)
  | x_session_end (sid : string)
  | x_transcript_event (event : TranscriptEventData)
  | x_send_message_result (sid : string) (requestId : string) (success : bool)
      (composerId : option string) (err : option string)
  | x_enabled_models_result (requestId : string) (iid : string)
      (success : bool) (models : option (list EnabledModel))
      (err : option string)
  | x_create_chat_result (requestId : string) (success : bool)
      (composerId : option string) (err : option string).

Inductive DaemonToExtensionMessage :=
  | q_send_message_request (sid : string) (message : string)
      (requestId : string)
  | q_get_enabled_models_request (requestId : string) (iid : string)
  | q_create_chat_request (requestId : string) (iid : string)
      (prompt : string) (unifiedMode : SessionMode)
      (modelName : option string) (maxMode : option bool).

(** *** Connections and pending requests *)

(** A socket is known by its identity. *)
Definition WebSocket := nat.

(** What [JSON.stringify] produced for a [ws.send]. *)
Inductive Frame :=
  | to_client (m : WSServerMessage)
  | to_extension (m : DaemonToExtensionMessage).

(** What the hub does to the outside: every [ws.send] that it calls (whether
    or not the call throws), every [ws.close], and every call that the
    registry makes to a listener. *)
Inductive Effect :=
  | send (ws : WebSocket) (f : Frame)
  | close (ws : WebSocket) (code : Z) (reason : string)
  | listener_call (c : Call).

Record ClientConnection := mkClient {
  c_ws : WebSocket;
  authenticated : bool;
  subscribedInstances : bool;
  subscribedSessions : gset string;
}.

Record ExtensionConnection := mkExtension {
  x_ws : WebSocket;
  x_instanceId : option string;
}.

Record PendingMessageRequest := mkPendingMessage {
  pmr_clientWs : WebSocket;
  pmr_sessionId : string;
  pmr_requestId : string;
  pmr_timestamp : Z;
}.

Record PendingEnabledModelsRequest := mkPendingEnabledModels {
  pem_clientWs : WebSocket;
  pem_instanceId : string;
  pem_requestId : string;
  pem_timestamp : Z;
}.

Record PendingCreateChatRequest := mkPendingCreateChat {
  pcc_clientWs : WebSocket;
  pcc_instanceId : string;
  pcc_requestId : string;
  pcc_timestamp : Z;
}.

Record Hub := mkHub {
  registry : Registry;
  clients : list ClientConnection;
  extensions : list ExtensionConnection;
  pendingMessageRequests : JsMap.t PendingMessageRequest;
  pendingEnabledModelsRequests : JsMap.t PendingEnabledModelsRequest;
  pendingCreateChatRequests : JsMap.t PendingCreateChatRequest;
}.

Abbreviation HubM := (M Hub Effect).

(** The condition of the sockets while one handler runs: the error with
    which [ws.send] throws on a socket, if it does. *)
Definition Net := WebSocket → option string.

Definition with_registry (f : Registry → Registry) (h : Hub) : Hub :=
  mkHub (f (registry h)) (clients h) (extensions h)
    (pendingMessageRequests h) (pendingEnabledModelsRequests h)
    (pendingCreateChatRequests h).

Definition with_clients (f : list ClientConnection → list ClientConnection)
    (h : Hub) : Hub :=
  mkHub (registry h) (f (clients h)) (extensions h)
    (pendingMessageRequests h) (pendingEnabledModelsRequests h)
    (pendingCreateChatRequests h).

Definition with_extensions
    (f : list ExtensionConnection → list ExtensionConnection) (h : Hub) : Hub :=
  mkHub (registry h) (clients h) (f (extensions h))
    (pendingMessageRequests h) (pendingEnabledModelsRequests h)
    (pendingCreateChatRequests h).

Definition with_pendingMessageRequests
    (f : JsMap.t PendingMessageRequest → JsMap.t PendingMessageRequest)
    (h : Hub) : Hub :=
  mkHub (registry h) (clients h) (extensions h)
    (f (pendingMessageRequests h)) (pendingEnabledModelsRequests h)
    (pendingCreateChatRequests h).

Definition with_pendingEnabledModelsRequests
    (f : JsMap.t PendingEnabledModelsRequest
         → JsMap.t PendingEnabledModelsRequest) (h : Hub) : Hub :=
  mkHub (registry h) (clients h) (extensions h)
    (pendingMessageRequests h) (f (pendingEnabledModelsRequests h))
    (pendingCreateChatRequests h).

Definition with_pendingCreateChatRequests
    (f : JsMap.t PendingCreateChatRequest → JsMap.t PendingCreateChatRequest)
    (h : Hub) : Hub :=
  mkHub (registry h) (clients h) (extensions h)
    (pendingMessageRequests h) (pendingEnabledModelsRequests h)
    (f (pendingCreateChatRequests h)).

(** [ws.send(JSON.stringify(msg))] *)
Definition ws_send (net : Net) (ws : WebSocket) (f : Frame) : HubM unit :=
  λ h,
    mkRun h [send ws f]
      (match net ws with Some err => Throw err | None => Normal tt end).

(** [try { ws.send(...) } catch { }] *)
Definition ws_send_quietly (net : Net) (ws : WebSocket) (f : Frame)
  : HubM unit :=
  try_catch (ws_send net ws f) (λ _, ret tt).

Definition ws_close (ws : WebSocket) (code : Z) (reason : string) : HubM unit :=
  λ h, mkRun h [close ws code reason] (Normal tt).

Definition REQUEST_TIMEOUT_MS : Z := 30000.

(** [now - request.timestamp > 30000] *)
Definition expired (now timestamp : Z) : bool :=
  Z.ltb REQUEST_TIMEOUT_MS (now - timestamp).

(** What a handler reads from outside while it runs. *)
Record Env := mkEnv {
  net : Net;
  (** [Date.now()] *)
  now_ms : Z;
  (** [new Date().toISOString()] *)
  now_iso : string;
  (** [nanoid()] *)
  fresh_id : string;
}.

(** *** Broadcast fan-out *)

Definition broadcastToInstanceSubscribers (env : Env)
    (message : WSServerMessage) : HubM unit :=
  do cs <- gets clients;
  for_of cs (λ client,
    if authenticated client && subscribedInstances client
    then ws_send (net env) (c_ws client) (to_client message)
    else ret tt).

Definition broadcastToSessionSubscribers (env : Env) (sid : string)
    (message : WSServerMessage) : HubM unit :=
  do cs <- gets clients;
  for_of cs (λ client,
    if authenticated client && bool_decide (sid ∈ subscribedSessions client)
    then ws_send (net env) (c_ws client) (to_client message)
    else ret tt).

Definition broadcastToClients (env : Env) (message : WSServerMessage)
  : HubM unit :=
  do cs <- gets clients;
  for_of cs (λ client,
    if authenticated client
    then ws_send (net env) (c_ws client) (to_client message)
    else ret tt).

(** The three callbacks that the hub registers with the registry. *)
Definition on_instance_change (env : Env)
    (n : InstanceChangeType * Instance) : HubM unit :=
  let message :=
    match n.1 with
    | ic_disconnect => s_instance_disconnect (i_instanceId n.2)
    | ic_update => s_instance_update n.2
    end in
  broadcastToInstanceSubscribers env message.

Definition on_session_change (env : Env) (n : SessionChangeType * Session)
  : HubM unit :=
  let message := s_session_update n.2 in
  run broadcastToSessionSubscribers env (sessionId n.2) message;
  broadcastToInstanceSubscribers env message.

Definition on_transcript_event (env : Env) (event : TranscriptEvent)
  : HubM unit :=
  broadcastToSessionSubscribers env (e_sessionId event)
    (s_transcript_event event).

(** The identity of the hub's callback in each listener set. *)
Definition HUB_LISTENER : nat := 0.

(** The hub's callbacks close over the hub: when a handler calls into the
    registry, they behave as their bodies do on the hub of that moment. *)
Definition closure_throws {N} (body : N → HubM unit) (h : Hub)
  : N → option string :=
  λ n, match value (body n h) with
       | Throw err => Some err
       | Normal _ => None
       end.

Definition bind_closure {N} (body : N → HubM unit) (h : Hub)
    (ls : list (Listener N)) : list (Listener N) :=
  (λ l, if Nat.eqb (lid l) HUB_LISTENER
        then mkListener HUB_LISTENER (closure_throws body h)
        else l) <$> ls.

Definition bind_closures (env : Env) (h : Hub) (r : Registry) : Registry :=
  mkRegistry (persistence r) (instances r) (sessions r) (transcripts r)
    (seenSourceIds r)
    (bind_closure (on_instance_change env) h (instanceListeners r))
    (bind_closure (on_session_change env) h (sessionListeners r))
    (bind_closure (on_transcript_event env) h (transcriptListeners r)).

(** The effects of one listener call: the sends of the hub's own callback,
    or the call itself for a callback registered by somebody else. *)
Definition effects_of_call (env : Env) (h : Hub) (c : Call) : list Effect :=
  match c with
  | call_instance l t i =>
      if Nat.eqb l HUB_LISTENER then trace (on_instance_change env (t, i) h)
      else [listener_call c]
  | call_session l t s =>
      if Nat.eqb l HUB_LISTENER then trace (on_session_change env (t, s) h)
      else [listener_call c]
  | call_transcript l e =>
      if Nat.eqb l HUB_LISTENER then trace (on_transcript_event env e h)
      else [listener_call c]
  end.

(** A call into the registry from a handler of the hub. *)
Definition in_registry {A} (env : Env) (m : RegM A) : HubM A :=
  λ h,
    let o := m (bind_closures env h (registry h)) in
    mkRun (with_registry (λ _, state o) h)
      (flat_map (effects_of_call env h) (trace o)) (value o).

(** *** The timeout sweep, run every 30 seconds by [setInterval] *)

Definition TIMED_OUT : option string := Some "Request timed out".

(** The bodies of the three loops of the sweep. *)
Definition expire_message_request (env : Env)
    (entry : string * PendingMessageRequest) : HubM unit :=
  let request := entry.2 in
  if expired (now_ms env) (pmr_timestamp request) then
    run modify (with_pendingMessageRequests (JsMap.delete entry.1));
    ws_send_quietly (net env) (pmr_clientWs request)
      (to_client
         (s_send_message_result (pmr_sessionId request) false None TIMED_OUT))
  else ret tt.

Definition expire_enabled_models_request (env : Env)
    (entry : string * PendingEnabledModelsRequest) : HubM unit :=
  let request := entry.2 in
  if expired (now_ms env) (pem_timestamp request) then
    run modify (with_pendingEnabledModelsRequests (JsMap.delete entry.1));
    ws_send_quietly (net env) (pem_clientWs request)
      (to_client
         (s_enabled_models_result entry.1 (pem_instanceId request) false
            None TIMED_OUT))
  else ret tt.

Definition expire_create_chat_request (env : Env)
    (entry : string * PendingCreateChatRequest) : HubM unit :=
  let request := entry.2 in
  if expired (now_ms env) (pcc_timestamp request) then
    run modify (with_pendingCreateChatRequests (JsMap.delete entry.1));
    ws_send_quietly (net env) (pcc_clientWs request)
      (to_client (s_create_chat_result entry.1 false None TIMED_OUT))
  else ret tt.

Definition sweep (env : Env) : HubM unit :=
  do entries <- gets pendingMessageRequests;
  run for_of entries (expire_message_request env);
  do entries <- gets pendingEnabledModelsRequests;
  run for_of entries (expire_enabled_models_request env);
  do entries <- gets pendingCreateChatRequests;
  for_of entries (expire_create_chat_request env).

(** *** Consumer messages *)

(** A mutation of the connection object of socket [ws]. *)
Definition update_client (ws : WebSocket)
    (f : ClientConnection → ClientConnection) : HubM unit :=
  modify (with_clients
            (fmap (λ c, if Nat.eqb (c_ws c) ws then f c else c))).

(** The loop that looks for the connection of the target instance. *)
Definition find_extension (target : string)
    (exts : list ExtensionConnection) : option ExtensionConnection :=
  List.find (λ ext, bool_decide (x_instanceId ext = Some target)) exts.

Definition SEND_MESSAGE_DISABLED : string :=
  "Send-message to an existing session is temporarily disabled. Use New Chat instead.".

Definition NOT_CONNECTED : option string :=
  Some "Extension not connected for this instance".

Definition forward_failed (err : string) : option string :=
  Some ("Failed to forward to extension: " +:+ err).

Definition handleClientMessage (env : Env) (ws : WebSocket)
    (message : WSClientMessage) : HubM unit :=
  match message with
  | c_subscribe_instances =>
      run update_client ws (λ c,
        mkClient (c_ws c) (authenticated c) true (subscribedSessions c));
      do allInstances <- gets (λ h, getAllInstances (registry h));
      run for_of allInstances (λ instance,
        ws_send (net env) ws (to_client (s_instance_update instance)));
      do allSessions <- gets (λ h, getAllSessions (registry h));
      for_of allSessions (λ session,
        ws_send (net env) ws (to_client (s_session_update session)))
  | c_unsubscribe_instances =>
      update_client ws (λ c,
        mkClient (c_ws c) (authenticated c) false (subscribedSessions c))
  | c_subscribe_session sid =>
      run update_client ws (λ c,
        mkClient (c_ws c) (authenticated c) (subscribedInstances c)
          ({[sid]} ∪ subscribedSessions c));
      do events <- gets (λ h, getTranscriptEvents sid None (registry h));
      for_of events (λ event,
        ws_send (net env) ws (to_client (s_transcript_event event)))
  | c_unsubscribe_session sid =>
      update_client ws (λ c,
        mkClient (c_ws c) (authenticated c) (subscribedInstances c)
          (subscribedSessions c ∖ {[sid]}))
  | c_ping => ws_send (net env) ws (to_client s_pong)
  | c_send_message sid _ =>
      ws_send (net env) ws
        (to_client
           (s_send_message_result sid false None (Some SEND_MESSAGE_DISABLED)))
  | c_get_enabled_models requestId target =>
      do targetExtension <- gets (λ h, find_extension target (extensions h));
      match targetExtension with
      | None =>
          ws_send (net env) ws
            (to_client
               (s_enabled_models_result requestId target false None
                  NOT_CONNECTED))
      | Some ext =>
          run modify (with_pendingEnabledModelsRequests
                        (JsMap.set requestId
                           (mkPendingEnabledModels ws target requestId
                              (now_ms env))));
          try_catch
            (ws_send (net env) (x_ws ext)
               (to_extension (q_get_enabled_models_request requestId target)))
            (λ err,
               run modify (with_pendingEnabledModelsRequests
                             (JsMap.delete requestId));
               ws_send_quietly (net env) ws
                 (to_client
                    (s_enabled_models_result requestId target false None
                       (forward_failed err))))
      end
  | c_create_chat requestId target prompt unifiedMode modelName maxMode =>
      do targetExtension <- gets (λ h, find_extension target (extensions h));
      match targetExtension with
      | None =>
          ws_send (net env) ws
            (to_client (s_create_chat_result requestId false None NOT_CONNECTED))
      | Some ext =>
          run modify (with_pendingCreateChatRequests
                        (JsMap.set requestId
                           (mkPendingCreateChat ws target requestId
                              (now_ms env))));
          try_catch
            (ws_send (net env) (x_ws ext)
               (to_extension
                  (q_create_chat_request requestId target prompt unifiedMode
                     modelName maxMode)))
            (λ err,
               run modify (with_pendingCreateChatRequests
                             (JsMap.delete requestId));
               ws_send_quietly (net env) ws
                 (to_client
                    (s_create_chat_result requestId false None
                       (forward_failed err))))
      end
  end.

(** *** Producer messages *)

(** [conn.instanceId] of the connection object of socket [ws]. *)
Definition conn_instanceId (ws : WebSocket) (h : Hub) : option string :=
  List.find (λ ext, Nat.eqb (x_ws ext) ws) (extensions h) ≫= x_instanceId.

Definition update_extension (ws : WebSocket)
    (f : ExtensionConnection → ExtensionConnection) : HubM unit :=
  modify (with_extensions
            (fmap (λ x, if Nat.eqb (x_ws x) ws then f x else x))).

(** [message.session] of a [session_update]: its properties with the id. *)
Definition with_session_id (sid : string) (u : SessionUpdates) : SessionUpdates :=
  mkSessionUpdates (Some sid) (u_instanceId u) (u_title u) (u_createdAt u)
    (u_status u) (u_mode u) (u_lastUpdatedAt u) (u_contextUsagePercent u)
    (u_totalLinesAdded u) (u_totalLinesRemoved u) (u_filesChangedCount u)
    (u_subtitle u) (u_model u).

Definition handleExtensionMessage (env : Env) (ws : WebSocket)
    (message : ExtensionMessage) : HubM unit :=
  match message with
  | x_register data =>
      do instance <- in_registry env (registerInstance data (now_iso env));
      update_extension ws (λ x, mkExtension (x_ws x) (Some (i_instanceId instance)))
  | x_heartbeat =>
      do iid <- gets (conn_instanceId ws);
      if truthy_opt iid
      then in_registry env (updateHeartbeat (default "" iid) (now_iso env))
      else ret tt
  | x_session_start session =>
      do iid <- gets (conn_instanceId ws);
      if truthy_opt iid
      then run in_registry env
                 (startSession (default "" iid) session (now_iso env));
           ret tt
      else ret tt
  | x_session_update sid session =>
      run in_registry env
            (updateSession sid (with_session_id sid session) (now_iso env));
      ret tt
  | x_session_end sid => in_registry env (endSession sid (now_iso env))
  | x_transcript_event event =>
      run in_registry env
            (addTranscriptEvent event (fresh_id env) (now_iso env));
      ret tt
  | x_send_message_result sid requestId success composerId err =>
      do pending <- gets (λ h, JsMap.get requestId (pendingMessageRequests h));
      match pending with
      | Some pending =>
          run modify (with_pendingMessageRequests (JsMap.delete requestId));
          ws_send_quietly (net env) (pmr_clientWs pending)
            (to_client (s_send_message_result sid success composerId err))
      | None => ret tt
      end
  | x_enabled_models_result requestId iid success models err =>
      do pending <- gets (λ h,
        JsMap.get requestId (pendingEnabledModelsRequests h));
      match pending with
      | Some pending =>
          run modify (with_pendingEnabledModelsRequests
                        (JsMap.delete requestId));
          ws_send_quietly (net env) (pem_clientWs pending)
            (to_client
               (s_enabled_models_result requestId iid success models err))
      | None => ret tt
      end
  | x_create_chat_result requestId success composerId err =>
      do pending <- gets (λ h,
        JsMap.get requestId (pendingCreateChatRequests h));
      match pending with
      | Some pending =>
          run modify (with_pendingCreateChatRequests (JsMap.delete requestId));
          ws_send_quietly (net env) (pcc_clientWs pending)
            (to_client (s_create_chat_result requestId success composerId err))
      | None => ret tt
      end
  end.

(** *** Connections *)

(** [createWebSocketManager(registry, authManager)]: the hub registers its
    three callbacks; their behaviour is bound at each call ([bind_closures]). *)
Definition createWebSocketManager (r : Registry) : Hub :=
  let unbound {N} : Listener N := mkListener HUB_LISTENER (λ _, None) in
  mkHub (onTranscriptEvent unbound (onSessionChange unbound
           (onInstanceChange unbound r)))
    [] [] [] [] [].

(** [handleClientConnection(ws, token)]; [valid] is the answer of
    [authManager.validateToken(token)]. *)
Definition handleClientConnection (env : Env) (ws : WebSocket) (valid : bool)
  : HubM unit :=
  if negb valid then
    run ws_send (net env) ws (to_client (s_error "Invalid or missing token"));
    ws_close ws 4001 "Unauthorized"
  else modify (with_clients (λ cs, cs ++ [mkClient ws valid false ∅])).

(** [ws.on('message', ...)] of a consumer; [None] is data that
    [JSON.parse] rejects. *)
Definition client_on_message (env : Env) (ws : WebSocket)
    (data : option WSClientMessage) : HubM unit :=
  try_catch
    (match data with
     | Some message => handleClientMessage env ws message
     | None => throw "SyntaxError"
     end)
    (λ _, ws_send (net env) ws (to_client (s_error "Invalid message format"))).

(** [ws.on('close', ...)] of a consumer. *)
Definition client_on_close (ws : WebSocket) : HubM unit :=
  modify (with_clients (filter (λ c, c_ws c ≠ ws))).

Definition handleExtensionConnection (ws : WebSocket) : HubM unit :=
  modify (with_extensions (λ xs, xs ++ [mkExtension ws None])).

(** [ws.on('message', ...)] of a producer: an exception is only logged. *)
Definition extension_on_message (env : Env) (ws : WebSocket)
    (data : option ExtensionMessage) : HubM unit :=
  try_catch
    (match data with
     | Some message => handleExtensionMessage env ws message
     | None => throw "SyntaxError"
     end)
    (λ _, ret tt).

(** [ws.on('close', ...)] of a producer. *)
Definition extension_on_close (env : Env) (ws : WebSocket) : HubM unit :=
  do iid <- gets (conn_instanceId ws);
  run (if truthy_opt iid
       then in_registry env (removeInstance (default "" iid) (now_iso env))
       else ret tt);
  modify (with_extensions (filter (λ x, x_ws x ≠ ws))).

(** Everything that happens to the hub: connections, messages, closes and
    the timer of the sweep. *)
Inductive HubEvent :=
  | ev_client_connect (ws : WebSocket) (valid : bool)
  | ev_client_message (ws : WebSocket) (data : option WSClientMessage)
  | ev_client_close (ws : WebSocket)
  | ev_extension_connect (ws : WebSocket)
  | ev_extension_message (ws : WebSocket) (data : option ExtensionMessage)
  | ev_extension_close (ws : WebSocket)
  | ev_sweep.

Definition hub_handle (env : Env) (e : HubEvent) : HubM unit :=
  match e with
  | ev_client_connect ws valid => handleClientConnection env ws valid
  | ev_client_message ws data => client_on_message env ws data
  | ev_client_close ws => client_on_close ws
  | ev_extension_connect ws => handleExtensionConnection ws
  | ev_extension_message ws data => extension_on_message env ws data
  | ev_extension_close ws => extension_on_close env ws
  | ev_sweep => sweep env
  end.

(** The event loop: one handler at a time, each in the environment of its
    turn. The loop goes on after an exception that escapes a handler; if
    such an exception stops the process instead, what the daemon does is a
    prefix of the run. *)
Fixpoint hub_run (es : list (Env * HubEvent)) (h : Hub) : Hub * list Effect :=
  match es with
  | [] => (h, [])
  | (env, e) :: rest =>
      let o := hub_handle env e h in
      let r := hub_run rest (state o) in
      (r.1, trace o ++ r.2)
  end.

(** ** Executions of the registry *)

Inductive RegOp :=
  | op_registerInstance (data : InstanceData) (now : string)
  | op_updateHeartbeat (iid : string) (now : string)
  | op_removeInstance (iid : string) (now : string)
  | op_startSession (iid : string) (data : SessionData) (now : string)
  | op_updateSession (sid : string) (updates : SessionUpdates) (now : string)
  | op_endSession (sid : string) (now : string)
  | op_addTranscriptEvent (data : TranscriptEventData) (newId now : string)
  | op_onInstanceChange (l : Listener (InstanceChangeType * Instance))
  | op_onSessionChange (l : Listener (SessionChangeType * Session))
  | op_onTranscriptEvent (l : Listener TranscriptEvent)
  | op_offInstanceChange (id : nat)
  | op_offSessionChange (id : nat)
  | op_offTranscriptEvent (id : nat).

Definition reg_step (op : RegOp) : RegM unit :=
  match op with
  | op_registerInstance data now => run registerInstance data now; ret tt
  | op_updateHeartbeat iid now => updateHeartbeat iid now
  | op_removeInstance iid now => removeInstance iid now
  | op_startSession iid data now => run startSession iid data now; ret tt
  | op_updateSession sid updates now =>
      run updateSession sid updates now; ret tt
  | op_endSession sid now => endSession sid now
  | op_addTranscriptEvent data newId now =>
      run addTranscriptEvent data newId now; ret tt
  | op_onInstanceChange l => modify (onInstanceChange l)
  | op_onSessionChange l => modify (onSessionChange l)
  | op_onTranscriptEvent l => modify (onTranscriptEvent l)
  | op_offInstanceChange id => modify (offInstanceChange id)
  | op_offSessionChange id => modify (offSessionChange id)
  | op_offTranscriptEvent id => modify (offTranscriptEvent id)
  end.

(** The states of a registry: created without persistence or on any data
    directory, then used through its operations. *)
Inductive reachable : Registry → Prop :=
  | reachable_init options : reachable (createInstanceRegistry options)
  | reachable_step r op : reachable r → reachable (state (reg_step op r)).

(** The in-memory transcript list of a session. *)
Definition transcript_of (sid : string) (r : Registry) : list TranscriptEvent :=
  default [] (transcripts r !! sid).

(** The registry after [addTranscriptEvent] has accepted [event]. *)
Definition accepted (event : TranscriptEvent) (r : Registry) : Registry :=
  let sid := e_sessionId event in
  mkRegistry (persistTranscriptEvent event <$> persistence r)
    (instances r) (sessions r)
    (<[sid := evict (transcript_of sid r ++ [event])]> (transcripts r))
    (match sourceId event with
     | Some s =>
         if truthy s then add_source_id sid s (seenSourceIds r)
         else seenSourceIds r
     | None => seenSourceIds r
     end)
    (instanceListeners r) (sessionListeners r) (transcriptListeners r).

(** How a [forEach] over listeners completes. *)
Definition completes {A} (res : option string) (a : A) : completion A :=
  match res with
  | Some err => Throw err
  | None => Normal a
  end.

(** No source id recorded by the registry is the empty string. *)
Definition source_ids_truthy (r : Registry) : Prop :=
  ∀ sid set, seenSourceIds r !! sid = Some set → "" ∉ set.

(** A property of the registry that an operation keeps. *)
Definition preserves {A} (P : Registry → Prop) (m : RegM A) : Prop :=
  ∀ r, P r → P (state (m r)).

(** One submission: the event data, and the id and the timestamp that the
    registry draws for it. *)
Definition Submission : Type := TranscriptEventData * string * string.

Definition submit (r : Registry) (x : Submission) : Registry :=
  state (addTranscriptEvent x.1.1 x.1.2 x.2 r).

Definition submit_all (xs : list Submission) (r : Registry) : Registry :=
  foldl submit r xs.

(** The events that a list of submissions makes when all are accepted. *)
Definition events_of (xs : list Submission) : list TranscriptEvent :=
  (λ x : Submission, new_event x.1.1 x.1.2 x.2) <$> xs.

(** The durable transcript log of a session, as it is on disk. *)
Definition disk_log (sid : string) (r : Registry) : list TranscriptEvent :=
  match persistence r with
  | Some p => readTranscriptFile p (getTranscriptFile sid)
  | None => []
  end.

(** ** Sample inputs *)

Definition sample_event_data (sid : string) (src : option string)
  : TranscriptEventData :=
  mkTranscriptEventData sid ev_message "{}" src.

(** A registry without persistence, and one on an empty data directory. *)
Definition memory_registry : Registry := createInstanceRegistry None.
Definition empty_disk : Persistence := createPersistenceManager [] ∅.
Definition disk_registry : Registry := createInstanceRegistry (Some empty_disk).

(** A registry that has accepted one event with source id "m1". *)
Definition registry_with_m1 : Registry :=
  state (reg_step
           (op_addTranscriptEvent (sample_event_data "s" (Some "m1")) "e1" "t1")
           memory_registry).

(** A registry that has been sent one event with the empty source id. *)
Definition registry_with_empty_source_id : Registry :=
  state (addTranscriptEvent (sample_event_data "s" (Some "")) "e1" "t1"
           memory_registry).

(** One more submission than the registry retains, with the distinct source
    ids "0", "1", ... *)
Definition sample_submission (n : nat) : Submission :=
  (sample_event_data "s" (Some (pretty n)), "e" +:+ pretty n, "t" +:+ pretty n).

Definition sample_source_ids : list string :=
  pretty <$> seq 0 (S MAX_EVENTS_PER_SESSION).

Definition sample_submissions : list Submission :=
  sample_submission <$> seq 0 (S MAX_EVENTS_PER_SESSION).

(** A registry whose session "s" holds the three events "e0", "e1", "e2". *)
Definition registry_with_three_events : Registry :=
  submit_all (sample_submission <$> [0; 1; 2]) memory_registry.

Definition sample_event (n : nat) : TranscriptEvent :=
  new_event (sample_submission n).1.1 (sample_submission n).1.2
    (sample_submission n).2.

(** At most one entry of the session map per key. *)
Definition sessions_unique (r : Registry) : Prop :=
  NoDup (JsMap.keys (sessions r)).

(** At most one session record per session identifier: no two records of
    the registry have the same [sessionId]. *)
Definition one_record_per_id (r : Registry) : Prop :=
  NoDup (sessionId <$> getAllSessions r).

(** Every session record is stored under its own session identifier. *)
Definition sessions_keyed (r : Registry) : Prop :=
  Forall (λ kv : string * Session, sessionId kv.2 = kv.1) (sessions r).

(** Updates that leave the identifier of their session as it is: they carry
    no [sessionId], or the one of the session that they update. *)
Definition keeps_id (sid : string) (updates : SessionUpdates) : Prop :=
  u_sessionId updates = None ∨ u_sessionId updates = Some sid.

Definition keeps_ids (op : RegOp) : Prop :=
  match op with
  | op_updateSession sid updates _ => keeps_id sid updates
  | _ => True
  end.

Definition log_keeps_ids (records : list SessionRecord) : Prop :=
  Forall (λ rec, match rec with
                 | rec_update sid updates _ => keeps_id sid updates
                 | _ => True
                 end) records.

(** The states of a registry in which no update has changed the identifier
    of a session: it is created without persistence or on a log without
    such an update, and then used through operations without one. *)
Inductive steady : Registry → Prop :=
  | steady_memory : steady (createInstanceRegistry None)
  | steady_log p :
      log_keeps_ids (sessionsFile p) → steady (createInstanceRegistry (Some p))
  | steady_step r op :
      steady r → keeps_ids op → steady (state (reg_step op r)).

(** [{ sessionId }] as the updates of [updateSession]. *)
Definition rename (sid : string) : SessionUpdates :=
  mkSessionUpdates (Some sid) None None None None None None None None None
    None None None.

(** A registry in which session "s1" is known and idle. *)
Definition sample_session_data (sid : string) : SessionData :=
  mkSessionData sid "" "A chat" active (Some mode_agent) None None None None
    None None None.

Definition registry_with_idle_session : Registry :=
  state (reg_step (op_endSession "s1" "t2")
    (state (reg_step (op_startSession "i1" (sample_session_data "s1") "t1")
       memory_registry))).

(** Sessions "s1" and "s2" are started; an update of "s1" then carries the
    session id "s2". *)
Definition renamed_registry : Registry :=
  foldl (λ r op, state (reg_step op r)) memory_registry
    [op_startSession "i1" (sample_session_data "s1") "t1";
     op_startSession "i1" (sample_session_data "s2") "t2";
     op_updateSession "s1" (rename "s2") "t3"].

(** ** Vocabulary for [removeInstance] *)

(** What [removeInstance(iid)] does to one entry of [sessions]. *)
Definition disconnect_session (iid : string) (kv : string * Session)
  : string * Session :=
  if owned_active iid kv.2 then (kv.1, set_status idle kv.2) else kv.

(** The sessions that [removeInstance(iid)] transitions, in map order. *)
Definition transitioned (iid : string) (entries : JsMap.t Session)
  : list Session :=
  filter (λ s, owned_active iid s = true) (JsMap.values entries).

(** The calls that notify every session listener of the end of [s]. *)
Definition end_calls (ls : list (Listener (SessionChangeType * Session)))
    (s : Session) : list Call :=
  (λ l, call_session (lid l) sc_end (set_status idle s)) <$> ls.

(** The end records of the transitioned sessions, appended to the log. *)
Definition append_ends (now : string) (ended : list Session) (p : Persistence)
  : Persistence :=
  mkPersistence
    (sessionsFile p ++ ((λ s, rec_end (sessionId s) now) <$> ended))
    (transcriptsDir p) (pm_seenSourceIds p).

Definition is_session_call (c : Call) : bool :=
  match c with
  | call_session _ _ _ => true
  | _ => false
  end.

(** No session listener throws when it is told of the end of a session
    that [removeInstance(iid)] transitions. *)
Definition ends_quietly (iid : string)
    (ls : list (Listener (SessionChangeType * Session)))
    (entries : JsMap.t Session) : Prop :=
  ∀ l s, l ∈ ls → s ∈ transitioned iid entries →
    throws l (sc_end, set_status idle s) = None.

(** The registry during the loop of [removeInstance]: the entries before
    the position of the loop are [before], those from it on are [entries]. *)
Definition after_loop (iid now : string) (before entries : JsMap.t Session)
    (r : Registry) : Registry :=
  mkRegistry (append_ends now (transitioned iid entries) <$> persistence r)
    (instances r) (before ++ (disconnect_session iid <$> entries))
    (transcripts r) (seenSourceIds r) (instanceListeners r)
    (sessionListeners r) (transcriptListeners r).

(** The record of session "s1" in [registry_with_idle_session]. *)
Definition idle_session_s1 : Session :=
  mkSession "s1" "i1" "A chat" "t1" idle (Some mode_agent) None None None None
    None None None.

(** A listener that never throws. *)
Definition quiet_listener {N} (id : nat) : Listener N :=
  mkListener id (λ _, None).

Definition sample_instance_data (iid : string) : InstanceData :=
  mkInstanceData iid "cursor" "1.0" "deadhand" "/work/deadhand" 4242%Z.

(** Instance "i1" with the active sessions "s1" and "s2" and the idle
    session "s3", observed by one session listener. *)
Definition registry_with_three_sessions : Registry :=
  foldl (λ r op, state (reg_step op r)) memory_registry
    [op_onSessionChange (quiet_listener 7);
     op_registerInstance (sample_instance_data "i1") "t0";
     op_startSession "i1" (sample_session_data "s1") "t1";
     op_startSession "i1" (sample_session_data "s2") "t2";
     op_startSession "i1" (sample_session_data "s3") "t3";
     op_endSession "s3" "t4"].

(** The record of instance "i1" in [registry_with_three_sessions]. *)
Definition instance_i1 : Instance :=
  mkInstance "i1" "cursor" "1.0" "deadhand" "/work/deadhand" 4242%Z "t0" "t0".

(** The statuses of the sessions, in map order. *)
Definition statuses (r : Registry) : list SessionStatus :=
  status <$> getAllSessions r.

(** A listener that throws on every notification. *)
Definition throwing_listener {N} (id : nat) : Listener N :=
  mkListener id (λ _, Some "boom").

(** Instance "i1" with the active sessions "s1" and "s2" on a data
    directory; a throwing listener is registered before a quiet one, for
    session changes, for transcript events and for instance changes. *)
Definition registry_with_throwing_listeners : Registry :=
  foldl (λ r op, state (reg_step op r)) disk_registry
    [op_registerInstance (sample_instance_data "i1") "t0";
     op_startSession "i1" (sample_session_data "s1") "t1";
     op_startSession "i1" (sample_session_data "s2") "t2";
     op_onSessionChange (throwing_listener 1);
     op_onSessionChange (quiet_listener 2);
     op_onTranscriptEvent (throwing_listener 1);
     op_onTranscriptEvent (quiet_listener 2);
     op_onInstanceChange (throwing_listener 1);
     op_onInstanceChange (quiet_listener 2)].

(** Instance "i1" registers and is removed; a session is then started in
    its name, on a data directory. *)
Definition orphan_registry : Registry :=
  foldl (λ r op, state (reg_step op r)) disk_registry
    [op_registerInstance (sample_instance_data "i1") "t0";
     op_removeInstance "i1" "t1";
     op_startSession "i1" (sample_session_data "s2") "t2"].

(** The calls that notify the listeners [ls] of [n]. *)
Definition calls_to {N} (mk : nat → N → Call) (ls : list (Listener N)) (n : N)
  : list Call :=
  (λ l, mk (lid l) n) <$> ls.






(** ** Sample hub *)

(** A network on which every send succeeds, and one on which the socket of
    consumer 1 is gone. *)
Definition good_net : Net := λ _, None.
Definition net_without_1 : Net :=
  λ ws, if Nat.eqb ws 1 then Some "WebSocket is not open" else None.

Definition sample_env (n : Net) : Env := mkEnv n 100000 "t9" "e9".

(** Consumers 1 and 2, authenticated, both subscribed to the global stream
    and to session "s"; producer 10 registered as instance "i1". *)
Definition sample_hub : Hub :=
  (hub_run
     ((λ e, (sample_env good_net, e)) <$>
        [ev_client_connect 1 true;
         ev_client_connect 2 true;
         ev_client_message 1 (Some c_subscribe_instances);
         ev_client_message 2 (Some c_subscribe_instances);
         ev_client_message 1 (Some (c_subscribe_session "s"));
         ev_client_message 2 (Some (c_subscribe_session "s"));
         ev_extension_connect 10;
         ev_extension_message 10 (Some (x_register (sample_instance_data "i1")))])
     (createWebSocketManager memory_registry)).1.

Definition sample_update : WSServerMessage := s_instance_disconnect "i1".

(** The sockets to which a trace has sent something. *)
Definition recipients (t : list Effect) : list WebSocket :=
  omap (λ e, match e with send ws _ => Some ws | _ => None end) t.

(** Whether an effect sends something to a producer. *)
Definition to_producer (e : Effect) : bool :=
  match e with
  | send _ (to_extension _) => true
  | _ => false
  end.

(** ** Vocabulary for request correlation *)

(** The requests whose frames carry a request id. *)
Inductive RequestKind := enabled_models | create_chat.

(** A result of kind [kind] for request [rid], sent to a consumer. *)
Definition is_result (kind : RequestKind) (rid : string) (e : Effect) : bool :=
  match e with
  | send _ (to_client (s_enabled_models_result rid' _ _ _ _)) =>
      match kind with
      | enabled_models => String.eqb rid' rid
      | create_chat => false
      end
  | send _ (to_client (s_create_chat_result rid' _ _ _)) =>
      match kind with
      | enabled_models => false
      | create_chat => String.eqb rid' rid
      end
  | _ => false
  end.

(** The number of effects of a trace that [counted] selects. *)
Definition count (counted : Effect → bool) (t : list Effect) : nat :=
  length (filter (λ e, counted e = true) t).

(** The number of results of kind [kind] for request [rid] in a trace. *)
Definition results (kind : RequestKind) (rid : string) (t : list Effect)
  : nat :=
  count (is_result kind rid) t.

(** 1 when a pending record of kind [kind] is tracked for [rid], 0
    otherwise. *)
Definition pending (kind : RequestKind) (rid : string) (h : Hub) : nat :=
  match kind with
  | enabled_models =>
      match JsMap.get rid (pendingEnabledModelsRequests h) with
      | Some _ => 1
      | None => 0
      end
  | create_chat =>
      match JsMap.get rid (pendingCreateChatRequests h) with
      | Some _ => 1
      | None => 0
      end
  end.

(** A request of kind [kind] of a consumer with request id [rid]. *)
Definition is_request (kind : RequestKind) (rid : string) (e : HubEvent)
  : bool :=
  match e with
  | ev_client_message _ (Some (c_get_enabled_models rid' _)) =>
      match kind with
      | enabled_models => String.eqb rid' rid
      | create_chat => false
      end
  | ev_client_message _ (Some (c_create_chat rid' _ _ _ _ _)) =>
      match kind with
      | enabled_models => false
      | create_chat => String.eqb rid' rid
      end
  | _ => false
  end.

(** The number of events of a run that [asked] selects. *)
Definition occurrences (asked : HubEvent → bool) (es : list (Env * HubEvent))
  : nat :=
  length (filter (λ e : Env * HubEvent, asked e.2 = true) es).

Definition requests (kind : RequestKind) (rid : string)
    (es : list (Env * HubEvent)) : nat :=
  occurrences (is_request kind rid) es.

(** The results of [send_message] requests carry the session id and no
    request id: they are counted together. *)
Definition is_message_result (e : Effect) : bool :=
  match e with
  | send _ (to_client (s_send_message_result _ _ _ _)) => true
  | _ => false
  end.

Definition message_results (t : list Effect) : nat :=
  count is_message_result t.

Definition is_message_request (e : HubEvent) : bool :=
  match e with
  | ev_client_message _ (Some (c_send_message _ _)) => true
  | _ => false
  end.

Definition message_requests (es : list (Env * HubEvent)) : nat :=
  occurrences is_message_request es.

(** The pending map holds one record per request id, as a [Map] does. *)
Definition pending_unique (h : Hub) : Prop :=
  NoDup (JsMap.keys (pendingCreateChatRequests h)).

(** The same, for the three pending maps. *)
Definition tracked_unique (h : Hub) : Prop :=
  NoDup (JsMap.keys (pendingMessageRequests h))
  ∧ NoDup (JsMap.keys (pendingEnabledModelsRequests h))
  ∧ pending_unique h.

(** What a bound on the results counts: the effects that are results, the
    number of results that the pending records of a hub still allow, and the
    events that are requests. *)
Record Tally := mkTally {
  counted : Effect → bool;
  owed : Hub → nat;
  asked : HubEvent → bool;
}.

Definition tally_of (kind : RequestKind) (rid : string) : Tally :=
  mkTally (is_result kind rid) (pending kind rid) (is_request kind rid).

(** The tally of follow-up messages; with [replies] unset it counts the
    pending records only. *)
Definition message_tally (replies : bool) : Tally :=
  mkTally (λ e, replies && is_message_result e)
    (λ h, length (pendingMessageRequests h))
    (λ e, replies && is_message_request e).

(** A tally that counts nothing but results of requests. *)
Definition counts_results_only (T : Tally) : Prop :=
  ∀ e, counted T e = true →
    match e with
    | send _ (to_client (s_send_message_result _ _ _ _))
    | send _ (to_client (s_enabled_models_result _ _ _ _ _))
    | send _ (to_client (s_create_chat_result _ _ _ _)) => True
    | _ => False
    end.

(** An operation of the hub that sends no result that [T] counts and leaves
    what the pending records allow as it is. *)
Definition calm {A} (T : Tally) (m : HubM A) : Prop :=
  ∀ h, tracked_unique h →
    tracked_unique (state (m h))
    ∧ owed T (state (m h)) = owed T h
    ∧ count (counted T) (trace (m h)) = 0.

(** An operation of the hub that sends at most [n] results beyond those that
    the pending records allow. *)
Definition at_most {A} (T : Tally) (n : nat) (m : HubM A) : Prop :=
  ∀ h, tracked_unique h →
    tracked_unique (state (m h))
    ∧ (count (counted T) (trace (m h)) + owed T (state (m h))
       ≤ owed T h + n)%nat.

(** The synthetic failure that the sweep sends for an expired request. *)
Definition timeout_result (rid : string) (p : PendingCreateChatRequest)
  : Effect :=
  send (pcc_clientWs p)
    (to_client (s_create_chat_result rid false None TIMED_OUT)).

Definition models_timeout_result (rid : string)
    (p : PendingEnabledModelsRequest) : Effect :=
  send (pem_clientWs p)
    (to_client
       (s_enabled_models_result rid (pem_instanceId p) false None TIMED_OUT)).

Definition message_timeout_result (p : PendingMessageRequest) : Effect :=
  send (pmr_clientWs p)
    (to_client
       (s_send_message_result (pmr_sessionId p) false None TIMED_OUT)).

(** A hub in which consumer 1 has issued request "r1" at time 100000 to the
    connected instance "i1". *)
Definition hub_with_pending_request : Hub :=
  state
    (hub_handle (sample_env good_net)
       (ev_client_message 1
          (Some (c_create_chat "r1" "i1" "hello" mode_agent None None)))
       sample_hub).

Definition pending_r1 : PendingCreateChatRequest :=
  mkPendingCreateChat 1 "i1" "r1" 100000.

(** The environment of a sweep that runs 30.001 seconds later. *)
Definition late_env : Env := mkEnv good_net 130001 "t10" "e10".

(** ** Vocabulary for restart and replay *)

(** A session id that [getTranscriptFile] leaves as it is. *)
Definition safe_id (sid : string) : Prop := sanitize sid = sid.

(** The events of the durable transcript log of a session. *)
Definition log_of (p : Persistence) (sid : string) : list TranscriptEvent :=
  readTranscriptFile p (getTranscriptFile sid).

(** The persistence manager of the next process on the same data directory. *)
Definition restart_of (p : Persistence) : Persistence :=
  createPersistenceManager (sessionsFile p) (transcriptsDir p).









(** What [removeInstance(iid)] does to a session. *)
Definition disconnected (iid : string) (s : Session) : Session :=
  if owned_active iid s then set_status idle s else s.


Definition run_ops (ops : list RegOp) (r : Registry) : Registry :=
  foldl (λ r op, state (reg_step op r)) r ops.











(** ** Access token (auth.ts) *)

(** [ToInt32]: the operands and the result of a bitwise operator of JS. *)
Definition int32 (z : Z) : Z := ((z + 2 ^ 31) mod 2 ^ 32 - 2 ^ 31)%Z.

(** [a | b] and [a ^ b] *)
Definition js_or (a b : Z) : Z := int32 (Z.lor (int32 a) (int32 b)).
Definition js_xor (a b : Z) : Z := int32 (Z.lxor (int32 a) (int32 b)).

(** [s.charCodeAt(i)] of a character of a string. *)
Definition charCode (c : ascii) : Z := Z.of_nat (nat_of_ascii c).

(** The loop [result |= token.charCodeAt(i) ^ currentToken.charCodeAt(i)]
    over two strings of the same length. *)
Fixpoint compare_loop (result : Z) (token currentToken : string) : Z :=
  match token, currentToken with
  | String a token', String b currentToken' =>
      compare_loop (js_or result (js_xor (charCode a) (charCode b)))
        token' currentToken'
  | _, _ => result
  end.

(** [validateToken(token)] of an auth manager whose token is
    [currentToken]. *)
Definition validateToken (currentToken : string) (token : option string)
  : bool :=
  match token with
  | None => false
  | Some token =>
      if negb (truthy token) then false
      else if negb (Nat.eqb (String.length token) (String.length currentToken))
      then false
      else Z.eqb (compare_loop 0 token currentToken) 0
  end.

(** ** Routes (server.ts) *)

(** [url.searchParams.get('token') || undefined] *)
Definition token_param (query : option string) : option string :=
  match query with
  | Some t => if truthy t then Some t else None
  | None => None
  end.

(** The handler of [/ws]: [query] is the [token] parameter of the URL. *)
Definition ws_route (env : Env) (currentToken : string) (ws : WebSocket)
    (query : option string) : HubM unit :=
  handleClientConnection env ws
    (validateToken currentToken (token_param query)).

(** ** Vocabulary for connections *)

(** A property of the hub that a handler keeps. *)
Definition hub_keeps {A} (P : Hub → Prop) (m : HubM A) : Prop :=
  ∀ h, P h → P (state (m h)).

(** Every consumer connection that the hub tracks is authenticated. *)
Definition all_authenticated (h : Hub) : Prop :=
  Forall (λ c, authenticated c = true) (clients h).

Definition INVALID_TOKEN : Frame :=
  to_client (s_error "Invalid or missing token").

(** The sockets of the authenticated consumers that are subscribed to
    session [sid], and of those subscribed to the global stream, in the
    order of their connections. *)
Definition session_subscribers (sid : string) (h : Hub) : list WebSocket :=
  c_ws <$> filter (λ c, authenticated c
                        && bool_decide (sid ∈ subscribedSessions c) = true)
             (clients h).

Definition instance_subscribers (h : Hub) : list WebSocket :=
  c_ws <$> filter (λ c, authenticated c && subscribedInstances c = true)
             (clients h).

(** One message sent to each of a list of sockets. *)
Definition sends_to (wss : list WebSocket) (message : WSServerMessage)
  : list Effect :=
  (λ ws, send ws (to_client message)) <$> wss.

(** A network on which no send throws. *)
Definition reliable (n : Net) : Prop := ∀ ws, n ws = None.

(** [sample_hub] after producer 10 has started session "s". *)
Definition sample_hub_with_session : Hub :=
  state (hub_handle (sample_env good_net)
           (ev_extension_message 10
              (Some (x_session_start (sample_session_data "s"))))
           sample_hub).

Definition sample_session_s : Session :=
  mkSession "s" "i1" "A chat" "t9" active (Some mode_agent) None None None None
    None None None.

(** ** Vocabulary for the invariants of the registry *)

(** No session holds more events in memory than the registry retains. *)
Definition within_bound (r : Registry) : Prop :=
  ∀ sid, (length (transcript_of sid r) ≤ MAX_EVENTS_PER_SESSION)%nat.

(** At most one instance record per instance identifier. *)
Definition instances_unique (r : Registry) : Prop :=
  NoDup (JsMap.keys (instances r)).

(** The listener that a call invokes is registered for its kind of change. *)
Definition registered (r : Registry) (c : Call) : Prop :=
  match c with
  | call_instance l _ _ => l ∈ lid <$> instanceListeners r
  | call_session l _ _ => l ∈ lid <$> sessionListeners r
  | call_transcript l _ => l ∈ lid <$> transcriptListeners r
  end.

(** The identities of the registered listeners, by kind of change. *)
Definition listener_ids (r : Registry) : list nat * list nat * list nat :=
  (lid <$> instanceListeners r, lid <$> sessionListeners r,
   lid <$> transcriptListeners r).

(** An operation that leaves the listener sets alone and calls registered
    listeners only. *)
Definition polite {A} (m : RegM A) : Prop :=
  ∀ r, listener_ids (state (m r)) = listener_ids r
       ∧ Forall (registered r) (trace (m r)).

(** Whether a call invokes listener [id]. *)
Definition calls_listener (id : nat) (c : Call) : bool :=
  match c with
  | call_instance l _ _ | call_session l _ _ | call_transcript l _ =>
      Nat.eqb l id
  end.

(** The registry after every subscription of listener [id] is cancelled. *)
Definition unsubscribed (id : nat) (r : Registry) : Registry :=
  offInstanceChange id (offSessionChange id (offTranscriptEvent id r)).

(** ** REST routes (server.ts) *)

(** What a route handler answers: the value that it returns, or
    [reply.code(code).send({ error })]. *)
Inductive Reply (A : Type) :=
  | reply_ok (body : A)
  | reply_error (code : Z) (error : string).
Arguments reply_ok {A}.
Arguments reply_error {A}.

(** [GET /api/v1/instances/:instanceId] *)
Definition route_instance (iid : string) (r : Registry) : Reply Instance :=
  match getInstance iid r with
  | None => reply_error 404 "Instance not found"
  | Some instance => reply_ok instance
  end.

(** [GET /api/v1/instances/:instanceId/sessions] *)
Definition route_instance_sessions (iid : string) (r : Registry)
  : Reply (list Session) :=
  match getInstance iid r with
  | None => reply_error 404 "Instance not found"
  | Some _ => reply_ok (getSessionsForInstance iid r)
  end.

(** [GET /api/v1/sessions/:sessionId?after=...] *)
Definition route_session (sid : string) (after : option string) (r : Registry)
  : Reply (Session * list TranscriptEvent) :=
  match getSession sid r with
  | None => reply_error 404 "Session not found"
  | Some session => reply_ok (session, getTranscriptEvents sid after r)
  end.

(** ** The lines of a log file (persistence.ts) *)

Definition newline : ascii := ascii_of_nat 10.

(** The string ["\n"]. *)
Definition LF : string := String newline EmptyString.

(** [content.split('\n')] *)
Fixpoint split_lines (content : string) : list string :=
  match content with
  | EmptyString => [EmptyString]
  | String c rest =>
      if Ascii.eqb c newline then EmptyString :: split_lines rest
      else match split_lines rest with
           | line :: lines => String c line :: lines
           | [] => [String c EmptyString]
           end
  end.

(** White space in the sense of [String.prototype.trim], among the code
    units below 256: tab, line feed, vertical tab, form feed, carriage
    return, space and no-break space. *)
Definition is_space (c : ascii) : bool :=
  let n := nat_of_ascii c in
  (Nat.leb 9 n && Nat.leb n 13) || Nat.eqb n 32 || Nat.eqb n 160.

(** [!line.trim()]: the line has white space only. *)
Fixpoint blank (line : string) : bool :=
  match line with
  | EmptyString => true
  | String c rest => is_space c && blank rest
  end.

Fixpoint no_newline (s : string) : bool :=
  match s with
  | EmptyString => true
  | String c rest => negb (Ascii.eqb c newline) && no_newline rest
  end.

(** The records of the lines of a file: blank lines are filtered out, and
    a line that [JSON.parse] rejects is skipped. *)
Definition parsed {T} (parse : string → option T) (lines : list string)
  : list T :=
  omap parse (filter (λ line, blank line = false) lines).

(** [readLines(filePath)] on the content of the file, [None] when the file
    does not exist; [parse] is [JSON.parse], [None] when it throws. *)
Definition readLines {T} (parse : string → option T)
    (content : option string) : list T :=
  match content with
  | None => []
  | Some content => parsed parse (split_lines content)
  end.

(** [appendLine(filePath, data)]: the content of the file afterwards;
    [appendFileSync] creates a file that does not exist. *)
Definition appendLine {T} (stringify : T → string) (content : option string)
    (data : T) : string :=
  default "" content +:+ stringify data +:+ LF.

(** The lines of a file that end in a line feed, and what follows the last
    line feed: the empty string, unless the last write was torn. *)
Definition complete_lines (content : option string) : list string :=
  removelast (split_lines (default "" content)).

Definition last_line (content : option string) : string :=
  List.last (split_lines (default "" content)) "".

(** A serialisation of the booleans, as [JSON.stringify] and [JSON.parse]
    have it. *)
Definition stringify_bool (b : bool) : string :=
  if b then "true" else "false".

Definition parse_bool (s : string) : option bool :=
  if String.eqb s "true" then Some true
  else if String.eqb s "false" then Some false
  else None.

(** ** Vocabulary for the durable log *)

(** The session ids of the start records of a log, in order. *)
Definition started_ids (records : list SessionRecord) : list string :=
  omap (λ rec, match rec with
               | rec_start s _ => Some (sessionId s)
               | _ => None
               end) records.

(** ** More sample hubs *)

(** [sample_hub] after producer 11 has connected, before it registers. *)
Definition hub_with_unregistered_producer : Hub :=
  state (hub_handle (sample_env good_net) (ev_extension_connect 11) sample_hub).

(** A network on which the socket of producer 10 is gone. *)
Definition net_without_10 : Net :=
  λ ws, if Nat.eqb ws 10 then Some "WebSocket is not open" else None.

(** The request that the hub forwards to a producer for [create_chat]. *)
Definition create_chat_request (ext : ExtensionConnection)
    (requestId target prompt : string) (unifiedMode : SessionMode)
    (modelName : option string) (maxMode : option bool) : Effect :=
  send (x_ws ext)
    (to_extension
       (q_create_chat_request requestId target prompt unifiedMode modelName
          maxMode)).

(** The failure that the hub itself answers to a [create_chat]. *)
Definition create_chat_failure (ws : WebSocket) (requestId : string)
    (err : option string) : Effect :=
  send ws (to_client (s_create_chat_result requestId false None err)).

(** No pending request of the hub is older than the timeout at [now]. *)
Definition all_recent (now : Z) (h : Hub) : Prop :=
  Forall (λ kv, expired now (pmr_timestamp kv.2) = false)
    (pendingMessageRequests h)
  ∧ Forall (λ kv, expired now (pem_timestamp kv.2) = false)
      (pendingEnabledModelsRequests h)
  ∧ Forall (λ kv, expired now (pcc_timestamp kv.2) = false)
      (pendingCreateChatRequests h).

(** The environment of a sweep that runs exactly 30 seconds after the
    request of [hub_with_pending_request]. *)
Definition on_time_env : Env := mkEnv good_net 130000 "t10" "e10".

(** The connection object of a consumer after [subscribe_session]. *)
Definition subscribe (sid : string) (c : ClientConnection) : ClientConnection :=
  mkClient (c_ws c) (authenticated c) (subscribedInstances c)
    ({[sid]} ∪ subscribedSessions c).

(** [sample_hub] with the registry of [registry_with_three_events]. *)
Definition sample_hub_with_events : Hub :=
  with_registry (λ _, registry_with_three_events) sample_hub.

(** ** The authorization hook (server.ts) *)

(** The condition under which the [preHandler] hook asks for the token. *)
Definition requires_token (url : string) : bool :=
  String.prefix "/api/" url && negb (String.prefix "/api/v1/info" url).

(** [request.headers.authorization?.replace('Bearer ', '')] *)
Definition bearer_token (authorization : option string) : option string :=
  replace_first "Bearer " "" <$> authorization.

(** The [preHandler] hook: the reply that it sends, if it sends one. *)
Definition preHandler (currentToken url : string)
    (authorization : option string) : option (Reply unit) :=
  if requires_token url then
    if negb (validateToken currentToken (bearer_token authorization))
    then Some (reply_error 401 "Unauthorized")
    else None
  else None.

(** ** Vocabulary for escaping exceptions *)

(** A handler that always completes normally. *)
Definition never_throws {A} (m : HubM A) : Prop :=
  ∀ h, ∃ a, value (m h) = Normal a.

(** The snapshot that [subscribe_instances] sends to socket [ws]. *)
Definition snapshot (ws : WebSocket) (r : Registry) : list Effect :=
  ((λ i, send ws (to_client (s_instance_update i))) <$> getAllInstances r)
  ++ ((λ s, send ws (to_client (s_session_update s))) <$> getAllSessions r).

(** Every instance record is stored under its own instance id. *)
Definition instances_keyed (r : Registry) : Prop :=
  Forall (λ kv : string * Instance, i_instanceId kv.2 = kv.1) (instances r).

(** * Properties *)

(** ** The transcript cursor *)

Lemma findIndex_None id events :
  findIndex id events = None ↔ ∀ e, e ∈ events → eventId e ≠ id.
Proof.
  induction events as [|e rest IH]; simpl.
  - split; [intros _ e He; inversion He | done].
  - destruct (String.eqb_spec (eventId e) id) as [Heq|Hne].
    + split; [done|]. intros H. exfalso. apply (H e); [left | done].
    + rewrite fmap_None, IH. split.
      * intros H x Hx. apply elem_of_cons in Hx as [->|Hx]; auto.
      * intros H x Hx. apply H. by right.
Qed.

Lemma findIndex_first id pre e post :
  eventId e = id → (∀ x, x ∈ pre → eventId x ≠ id) →
  findIndex id (pre ++ e :: post) = Some (length pre).
Proof.
  intros He. induction pre as [|x pre IH]; intros Hpre; simpl.
  - destruct (String.eqb_spec (eventId e) id); done.
  - destruct (String.eqb_spec (eventId x) id) as [Heq|_].
    + exfalso. apply (Hpre x); [left | done].
    + rewrite IH; [done|]. intros y Hy. apply Hpre. by right.
Qed.

Lemma truthy_true s : truthy s = true ↔ s ≠ "".
Proof.
  unfold truthy. destruct (String.eqb_spec s ""); simpl; split; congruence.
Qed.

(** C10. In a transcript of generated event ids (none is the empty string),
    a cursor that occurs in the in-memory list yields exactly the events
    after its first occurrence, in stored order; a cursor that does not
    occur there (an unknown id, or the id of an evicted event) yields the
    whole in-memory list. *)
Theorem getTranscriptEvents_cursor (r : Registry) (sid a : string) :
  (∀ x, x ∈ transcript_of sid r → eventId x ≠ "") →
  (∀ pre e post,
      transcript_of sid r = pre ++ e :: post →
      eventId e = a → (∀ x, x ∈ pre → eventId x ≠ a) →
      getTranscriptEvents sid (Some a) r = post)
  ∧ ((∀ x, x ∈ transcript_of sid r → eventId x ≠ a) →
      getTranscriptEvents sid (Some a) r = transcript_of sid r).
Proof.
  intros Hids. unfold getTranscriptEvents, transcript_of in *. simpl. split.
  - intros pre e post Hev He Hpre.
    assert (truthy a = true) as ->.
    { apply truthy_true. rewrite <- He. apply Hids. rewrite Hev.
      apply elem_of_app. right. left. }
    simpl. rewrite Hev, (findIndex_first a pre e post He Hpre).
    replace (length pre + 1) with (length (pre ++ [e])) by
      (rewrite length_app; simpl; lia).
    rewrite (cons_middle e pre post), (assoc app).
    apply drop_app_length.
  - intros Hno. simpl. destruct (truthy a); simpl; [|done].
    by apply findIndex_None in Hno as ->.
Qed.

Lemma getTranscriptEvents_cursor_witness :
  (∀ x, x ∈ transcript_of "s" registry_with_three_events → eventId x ≠ "")
  ∧ getTranscriptEvents "s" (Some "e0") registry_with_three_events
    = [sample_event 1; sample_event 2]
  ∧ getTranscriptEvents "s" (Some "e7") registry_with_three_events
    = transcript_of "s" registry_with_three_events.
Proof.
  assert (transcript_of "s" registry_with_three_events
          = [] ++ sample_event 0 :: [sample_event 1; sample_event 2]) as Hev
    by (vm_compute; reflexivity).
  assert (∀ x, x ∈ transcript_of "s" registry_with_three_events
               → eventId x ≠ "") as Hids.
  { intros x. rewrite Hev. simpl. rewrite !elem_of_cons, elem_of_nil.
    intros [->|[->|[->|[]]]]; discriminate. }
  assert (∀ x, x ∈ transcript_of "s" registry_with_three_events
               → eventId x ≠ "e7") as Hno.
  { intros x. rewrite Hev. simpl. rewrite !elem_of_cons, elem_of_nil.
    intros [->|[->|[->|[]]]]; discriminate. }
  assert (∀ x : TranscriptEvent, x ∈ [] → eventId x ≠ "e0") as Hpre
    by (intros x Hx; by apply elem_of_nil in Hx).
  destruct (getTranscriptEvents_cursor registry_with_three_events "s" "e0" Hids)
    as [Hocc _].
  destruct (getTranscriptEvents_cursor registry_with_three_events "s" "e7" Hids)
    as [_ Hmiss].
  exact (conj Hids (conj (Hocc _ _ _ Hev eq_refl Hpre) (Hmiss Hno))).
Defined.

(** ** Running operations *)

Section MonadFacts.
Context {S E : Type}.

Lemma run_eta {A} (o : Run S E A) : mkRun (state o) (trace o) (value o) = o.
Proof. by destruct o. Qed.

Lemma bind_gets {A B} (f : S → A) (k : A → M S E B) s :
  bind (gets f) k s = k (f s) s.
Proof. unfold bind, gets. simpl. apply run_eta. Qed.

Lemma bind_modify {B} (f : S → S) (k : unit → M S E B) s :
  bind (modify f) k s = k tt (f s).
Proof. unfold bind, modify. simpl. apply run_eta. Qed.

Lemma bind_ret {A B} (a : A) (k : A → M S E B) s :
  bind (ret a) k s = k a s.
Proof. unfold bind, ret. simpl. apply run_eta. Qed.

Lemma bind_run {A B} (m : M S E A) (k : A → M S E B) s s1 t1 a :
  m s = mkRun s1 t1 (Normal a) →
  bind m k s = mkRun (state (k a s1)) (t1 ++ trace (k a s1)) (value (k a s1)).
Proof. intros H. unfold bind. by rewrite H. Qed.

End MonadFacts.

(** ** Operations that keep a property of the registry *)

Section Preserves.
Context (P : Registry → Prop).

Lemma preserves_ret {A} (a : A) : preserves P (ret a).
Proof. by intros r. Qed.

Lemma preserves_gets {A} (f : Registry → A) : preserves P (gets f).
Proof. by intros r. Qed.

Lemma preserves_bind {A B} (m : RegM A) (f : A → RegM B) :
  preserves P m → (∀ a, preserves P (f a)) → preserves P (bind m f).
Proof.
  intros Hm Hf r Hr. unfold bind. specialize (Hm r Hr).
  destruct (value (m r)) as [a|err]; simpl; [|done]. by apply Hf.
Qed.

Lemma preserves_modify (f : Registry → Registry) :
  (∀ r, P r → P (f r)) → preserves P (modify f).
Proof. intros Hf r Hr. by apply Hf. Qed.

Lemma preserves_forEach {N} mk (ls : Registry → list (Listener N)) n :
  preserves P (forEach mk ls n).
Proof. by intros r. Qed.
End Preserves.

Ltac preserve :=
  repeat first
    [ apply preserves_ret
    | apply preserves_gets
    | apply preserves_forEach
    | apply preserves_bind; [|intros ?]
    | match goal with
      | |- preserves _ (match ?x with _ => _ end) => destruct x eqn:?
      | |- preserves _ (if ?x then _ else _) => destruct x eqn:?
      | |- preserves _ (let _ := _ in _) => cbv zeta
      end ].

(** ** Accepting and rejecting a transcript event *)

Lemma addTranscriptEvent_accept r data newId now :
  is_duplicate data r = false →
  let event := new_event data newId now in
  let res := notify call_transcript (transcriptListeners r) event in
  addTranscriptEvent data newId now r
  = mkRun (accepted event r) res.1 (completes res.2 (Some event)).
Proof.
  intros Hdup. unfold addTranscriptEvent, accepted, transcript_of.
  unfold bind at 1. simpl. rewrite Hdup.
  unfold bind, gets, modify, persist, notifyTranscript, forEach, ret; simpl.
  destruct (d_sourceId data) as [s|]; simpl.
  - destruct (truthy s); simpl;
      destruct (notify _ _ _) as [calls [err|]]; simpl;
      by rewrite ?app_nil_r.
  - destruct (notify _ _ _) as [calls [err|]]; simpl; by rewrite ?app_nil_r.
Qed.

Lemma addTranscriptEvent_reject r data newId now :
  is_duplicate data r = true →
  addTranscriptEvent data newId now r = mkRun r [] (Normal None).
Proof.
  intros Hdup. unfold addTranscriptEvent, bind, gets, ret. simpl.
  by rewrite Hdup.
Qed.

Lemma preserves_removeInstance_loop (P : Registry → Prop) iid now entries :
  (∀ j r, P r → P (with_sessions (alter (prod_map id (set_status idle)) j) r)) →
  (∀ f r, P r → P (with_persistence f r)) →
  ∀ j, preserves P (removeInstance_loop iid now j entries).
Proof.
  intros Hs Hp. induction entries as [|[k s] rest IH]; intros j; simpl.
  - apply preserves_ret.
  - apply preserves_bind; [|intros _; apply IH].
    destruct (owned_active iid s); [|apply preserves_ret].
    apply preserves_bind; [apply preserves_modify, Hs|intros _].
    apply preserves_bind; [apply preserves_forEach|intros _].
    apply preserves_modify, Hp.
Qed.

(** ** Recorded source ids are never empty *)

Lemma collect_source_ids_truthy events acc :
  "" ∉ acc → "" ∉ collect_source_ids events acc.
Proof.
  revert acc. induction events as [|e rest IH]; intros acc Hacc; simpl; [done|].
  apply IH. destruct (sourceId e) as [s|]; [|done].
  destruct (truthy s) eqn:Hs; [|done].
  apply truthy_true in Hs. set_solver.
Qed.

Lemma add_source_id_truthy sid s m :
  s ≠ "" →
  (∀ k set, m !! k = Some set → "" ∉ set) →
  ∀ k set, add_source_id sid s m !! k = Some set → "" ∉ set.
Proof.
  intros Hs Hm k set. unfold add_source_id.
  destruct (decide (sid = k)) as [->|Hne].
  - rewrite lookup_insert_eq. intros [= <-].
    destruct (m !! k) as [old|] eqn:Hk; simpl; [|set_solver].
    specialize (Hm k old Hk). set_solver.
  - rewrite lookup_insert_ne by done. apply Hm.
Qed.

Lemma source_ids_truthy_init options :
  source_ids_truthy (createInstanceRegistry options).
Proof.
  destruct options as [p|]; intros sid set; simpl.
  - rewrite lookup_omap. destruct (_ !! sid) as [events|]; simpl; [|done].
    unfold rebuilt_source_ids. case_decide; [done|]. intros [= <-].
    apply collect_source_ids_truthy. set_solver.
  - by rewrite lookup_empty.
Qed.

Lemma source_ids_truthy_step op :
  preserves source_ids_truthy (reg_step op).
Proof.
  destruct op; simpl;
    unfold registerInstance, updateHeartbeat, removeInstance, startSession,
      updateSession, endSession, addTranscriptEvent, notifyInstance,
      notifySession, notifyTranscript, persist;
    preserve;
    try (apply preserves_modify; intros r Hr; exact Hr).
  - apply preserves_removeInstance_loop; intros; assumption.
  - apply preserves_modify. intros r Hr. unfold source_ids_truthy in *.
    simpl. apply add_source_id_truthy; [by apply truthy_true | exact Hr].
Qed.

Lemma reachable_source_ids_truthy r : reachable r → source_ids_truthy r.
Proof.
  induction 1 as [options|r op _ IH].
  - apply source_ids_truthy_init.
  - by apply source_ids_truthy_step.
Qed.

Lemma seen_spec sid s r :
  seen sid s r = true ↔ ∃ set, seenSourceIds r !! sid = Some set ∧ s ∈ set.
Proof.
  unfold seen. destruct (seenSourceIds r !! sid) as [set|].
  - rewrite bool_decide_eq_true. naive_solver.
  - naive_solver.
Qed.

Lemma seen_accepted event r s :
  sourceId event = Some s → s ≠ "" →
  seen (e_sessionId event) s (accepted event r) = true.
Proof.
  intros Hsrc Hs. apply seen_spec. unfold accepted; simpl. rewrite Hsrc.
  apply truthy_true in Hs as ->. unfold add_source_id.
  rewrite lookup_insert_eq. eexists. split; [done|]. set_solver.
Qed.

(** C1 (amended). A submission whose source id is already recorded for its
    session is rejected: [null] is returned and the durable log, the
    in-memory list, the deduplication set and the listeners are untouched.
    Submitting the same non-empty source id twice for a session is
    idempotent: the second submission is rejected in this way. *)
Theorem duplicate_source_id_rejected (r : Registry)
    (data : TranscriptEventData) (s : string) :
  reachable r → d_sourceId data = Some s →
  (seen (d_sessionId data) s r = true →
   ∀ newId now,
     addTranscriptEvent data newId now r = mkRun r [] (Normal None))
  ∧ (s ≠ "" →
     ∀ newId now newId' now',
       let r1 := state (addTranscriptEvent data newId now r) in
       addTranscriptEvent data newId' now' r1 = mkRun r1 [] (Normal None)).
Proof.
  intros Hr Hsrc. split.
  - intros Hseen newId now. apply addTranscriptEvent_reject.
    unfold is_duplicate. rewrite Hsrc, Hseen, andb_true_r. apply truthy_true.
    apply seen_spec in Hseen as (set & Hset & Hin). intros ->.
    by apply (reachable_source_ids_truthy r Hr _ _ Hset).
  - intros Hs newId now newId' now' r1. apply addTranscriptEvent_reject.
    unfold is_duplicate. rewrite Hsrc.
    apply andb_true_iff. split; [by apply truthy_true|]. subst r1.
    destruct (is_duplicate data r) eqn:Hdup.
    + rewrite addTranscriptEvent_reject by done. simpl.
      unfold is_duplicate in Hdup. rewrite Hsrc in Hdup.
      by apply andb_true_iff in Hdup as [_ ?].
    + rewrite addTranscriptEvent_accept by done. simpl.
      by apply (seen_accepted (new_event data newId now) r s).
Qed.

Lemma duplicate_source_id_rejected_witness :
  reachable registry_with_m1
  ∧ seen "s" "m1" registry_with_m1 = true
  ∧ "m1" ≠ ""
  ∧ addTranscriptEvent (sample_event_data "s" (Some "m1")) "e2" "t2"
      registry_with_m1
    = mkRun registry_with_m1 [] (Normal None)
  ∧ (let r1 :=
       state (addTranscriptEvent (sample_event_data "s" (Some "m1")) "e2" "t2"
                registry_with_m1) in
     addTranscriptEvent (sample_event_data "s" (Some "m1")) "e3" "t3" r1
     = mkRun r1 [] (Normal None)).
Proof.
  assert (reachable registry_with_m1) as Hreach.
  { apply reachable_step, reachable_init. }
  assert (seen "s" "m1" registry_with_m1 = true) as Hseen
    by (vm_compute; reflexivity).
  assert ("m1" ≠ "") as Hne by discriminate.
  destruct (duplicate_source_id_rejected registry_with_m1
              (sample_event_data "s" (Some "m1")) "m1" Hreach eq_refl)
    as [Hfirst Htwice].
  exact (conj Hreach (conj Hseen (conj Hne
           (conj (Hfirst Hseen "e2" "t2") (Htwice Hne "e2" "t2" "e3" "t3"))))).
Defined.

(** C1, as stated, fails for the empty source id: it is falsy, so it is
    neither checked nor recorded, and the second submission is accepted. *)
Lemma empty_source_id_not_idempotent :
  let data := sample_event_data "s" (Some "") in
  let second := addTranscriptEvent data "e2" "t2" registry_with_empty_source_id in
  d_sourceId data = Some ""
  ∧ length (transcript_of "s" registry_with_empty_source_id) = 1
  ∧ value second = Normal (Some (new_event data "e2" "t2"))
  ∧ length (transcript_of "s" (state second)) = 2.
Proof. vm_compute. repeat split; reflexivity. Qed.

(** ** Bounded retention *)

#[local] Opaque MAX_EVENTS_PER_SESSION.

Lemma evict_drop events :
  evict events = drop (length events - MAX_EVENTS_PER_SESSION) events.
Proof.
  induction events as [|e rest IH]; [by rewrite drop_nil|].
  cbn [evict]. destruct (Nat.ltb_spec MAX_EVENTS_PER_SESSION (length (e :: rest)))
    as [Hlt|Hle]; cbn [length] in *.
  - rewrite IH.
    replace (S (length rest) - MAX_EVENTS_PER_SESSION)
      with (S (length rest - MAX_EVENTS_PER_SESSION)) by lia.
    done.
  - by replace (S (length rest) - MAX_EVENTS_PER_SESSION) with 0 by lia.
Qed.

Lemma evict_length events :
  (length (evict events) ≤ MAX_EVENTS_PER_SESSION)%nat.
Proof. rewrite evict_drop, length_drop. lia. Qed.

(** Appending and evicting one event at a time keeps the last
    [MAX_EVENTS_PER_SESSION] events of the whole sequence. *)
Lemma foldl_evict (t0 evs : list TranscriptEvent) :
  (length t0 ≤ MAX_EVENTS_PER_SESSION)%nat →
  foldl (λ t e, evict (t ++ [e])) t0 evs
  = drop (length (t0 ++ evs) - MAX_EVENTS_PER_SESSION) (t0 ++ evs).
Proof.
  revert t0. induction evs as [|e evs IH]; intros t0 Ht0; simpl.
  - rewrite app_nil_r. by replace (length t0 - _) with 0 by lia.
  - rewrite IH by apply evict_length.
    rewrite evict_drop. rewrite !length_app, length_drop, length_app. simpl.
    rewrite (cons_middle e t0 evs), (assoc app).
    rewrite <- (drop_app_le (t0 ++ [e]) evs) by (rewrite length_app; simpl; lia).
    rewrite drop_drop. f_equal. lia.
Qed.

Lemma transcript_of_accepted event r :
  transcript_of (e_sessionId event) (accepted event r)
  = evict (transcript_of (e_sessionId event) r ++ [event]).
Proof. unfold transcript_of at 1. simpl. by rewrite lookup_insert_eq. Qed.

Lemma seen_accepted_inv sid s event r :
  seen sid s (accepted event r) = true →
  seen sid s r = true ∨ sourceId event = Some s.
Proof.
  rewrite !seen_spec. unfold accepted; simpl.
  destruct (sourceId event) as [s'|]; [|by left].
  destruct (truthy s'); [|by left].
  unfold add_source_id. intros (set & Hset & Hin).
  destruct (decide (e_sessionId event = sid)) as [Heq|Hne].
  - subst sid. rewrite lookup_insert_eq in Hset. injection Hset as <-.
    apply elem_of_union in Hin as [Hin|Hin].
    + apply elem_of_singleton in Hin as ->. by right.
    + left. destruct (seenSourceIds r !! e_sessionId event) as [old|];
        simpl in Hin.
      * by exists old.
      * by apply not_elem_of_empty in Hin.
  - rewrite lookup_insert_ne in Hset by done. left. by exists set.
Qed.

Lemma disk_log_accepted event r :
  is_Some (persistence r) →
  disk_log (e_sessionId event) (accepted event r)
  = disk_log (e_sessionId event) r ++ [event].
Proof.
  intros [p Hp]. unfold disk_log, readTranscriptFile. simpl. rewrite Hp. simpl.
  by rewrite lookup_insert_eq.
Qed.

Lemma submit_fresh (r : Registry) (x : Submission) s :
  d_sourceId x.1.1 = Some s → seen (d_sessionId x.1.1) s r = false →
  submit r x = accepted (new_event x.1.1 x.1.2 x.2) r.
Proof.
  intros Hsrc Hseen. unfold submit. rewrite addTranscriptEvent_accept; [done|].
  unfold is_duplicate. by rewrite Hsrc, Hseen, andb_false_r.
Qed.

(** Submissions with distinct, unseen source ids to one session are all
    accepted: each is appended in memory (with eviction) and on disk. *)
Lemma submit_all_fresh sid (xs : list Submission) (ids : list string) r :
  is_Some (persistence r) →
  Forall (λ x : Submission, d_sessionId x.1.1 = sid) xs →
  (λ x : Submission, d_sourceId x.1.1) <$> xs = Some <$> ids →
  NoDup ids →
  (∀ s, s ∈ ids → seen sid s r = false) →
  transcript_of sid (submit_all xs r)
  = foldl (λ t e, evict (t ++ [e])) (transcript_of sid r) (events_of xs)
  ∧ disk_log sid (submit_all xs r) = disk_log sid r ++ events_of xs.
Proof.
  revert ids r. induction xs as [|x xs IH]; intros ids r Hp Hsid Hsrc Hnd Hseen.
  - simpl. by rewrite app_nil_r.
  - destruct ids as [|s ids]; [done|]. injection Hsrc as Hs Hsrc.
    apply Forall_cons in Hsid as [Hx Hsid]. apply NoDup_cons in Hnd as [Hs' Hnd].
    assert (seen (d_sessionId x.1.1) s r = false) as Hfresh
      by (rewrite Hx; apply Hseen, elem_of_cons; by left).
    simpl. rewrite (submit_fresh r x s Hs Hfresh).
    set (e := new_event x.1.1 x.1.2 x.2).
    assert (e_sessionId e = sid) as He by done.
    destruct (IH ids (accepted e r)) as [Hmem Hdisk]; try done.
    { destruct Hp as [p Hp]. simpl. rewrite Hp. by eexists. }
    { intros s0 Hs0. destruct (seen sid s0 (accepted e r)) eqn:Hacc; [|done].
      apply seen_accepted_inv in Hacc as [Hold|Hnew].
      - rewrite Hseen in Hold; [done|]. apply elem_of_cons. by right.
      - simpl in Hnew. rewrite Hs in Hnew. injection Hnew as ->. done. }
    rewrite Hmem, Hdisk. rewrite <- He.
    rewrite transcript_of_accepted, disk_log_accepted by done.
    split; [done|]. by rewrite <- (assoc app).
Qed.

(** C2. After 10,001 submissions with distinct, not yet recorded source ids
    to one session of a registry with a durable log, the in-memory list is
    exactly the last 10,000 of the events made, the oldest having been
    evicted from the head, and the log of the session on disk has gained all
    10,001 events and lost none. *)
Theorem bounded_retention (r : Registry) (sid : string)
    (xs : list Submission) (ids : list string) :
  is_Some (persistence r) →
  Forall (λ x : Submission, d_sessionId x.1.1 = sid) xs →
  (λ x : Submission, d_sourceId x.1.1) <$> xs = Some <$> ids →
  NoDup ids →
  (∀ s, s ∈ ids → seen sid s r = false) →
  length xs = S MAX_EVENTS_PER_SESSION →
  let r' := submit_all xs r in
  transcript_of sid r' = drop 1 (events_of xs)
  ∧ length (transcript_of sid r') = MAX_EVENTS_PER_SESSION
  ∧ disk_log sid r' = disk_log sid r ++ events_of xs.
Proof.
  intros Hp Hsid Hsrc Hnd Hseen Hlen r'.
  destruct (submit_all_fresh sid xs ids r Hp Hsid Hsrc Hnd Hseen)
    as [Hmem Hdisk].
  assert (transcript_of sid r' = drop 1 (events_of xs)) as Hlast.
  { subst r'. rewrite Hmem. destruct xs as [|x xs]; [done|].
    simpl in Hlen. injection Hlen as Hlen. simpl.
    set (t1 := evict (transcript_of sid r ++ [new_event x.1.1 x.1.2 x.2])).
    assert (length t1 ≤ MAX_EVENTS_PER_SESSION)%nat as Ht1 by apply evict_length.
    rewrite foldl_evict by done.
    rewrite length_app. unfold events_of at 1. rewrite length_fmap, Hlen.
    replace (length t1 + MAX_EVENTS_PER_SESSION - MAX_EVENTS_PER_SESSION)
      with (length t1) by lia.
    rewrite drop_app_length. by rewrite drop_0. }
  split; [done|]. split; [|done].
  rewrite Hlast, length_drop. unfold events_of. rewrite length_fmap. lia.
Qed.

Lemma bounded_retention_witness :
  is_Some (persistence disk_registry)
  ∧ length sample_submissions = S MAX_EVENTS_PER_SESSION
  ∧ NoDup sample_source_ids
  ∧ (let r' := submit_all sample_submissions disk_registry in
     transcript_of "s" r' = drop 1 (events_of sample_submissions)
     ∧ length (transcript_of "s" r') = MAX_EVENTS_PER_SESSION
     ∧ disk_log "s" r' = disk_log "s" disk_registry ++ events_of sample_submissions).
Proof.
  assert (is_Some (persistence disk_registry)) as Hp by (eexists; reflexivity).
  assert (length sample_submissions = S MAX_EVENTS_PER_SESSION) as Hlen.
  { unfold sample_submissions. by rewrite length_fmap, length_seq. }
  assert (NoDup sample_source_ids) as Hnd.
  { unfold sample_source_ids. apply (NoDup_fmap_2 _), NoDup_seq. }
  assert (Forall (λ x : Submission, d_sessionId x.1.1 = "s") sample_submissions)
    as Hsid.
  { unfold sample_submissions. apply Forall_fmap, Forall_forall. by intros. }
  assert ((λ x : Submission, d_sourceId x.1.1) <$> sample_submissions
          = Some <$> sample_source_ids) as Hsrc.
  { unfold sample_submissions, sample_source_ids.
    rewrite <- !list_fmap_compose. done. }
  assert (∀ s, s ∈ sample_source_ids → seen "s" s disk_registry = false) as Hseen.
  { intros s _. unfold seen.
    assert (seenSourceIds disk_registry !! "s" = None) as ->
      by (vm_compute; reflexivity).
    done. }
  exact (conj Hp (conj Hlen (conj Hnd
           (bounded_retention disk_registry "s" sample_submissions
              sample_source_ids Hp Hsid Hsrc Hnd Hseen Hlen)))).
Defined.

(** ** Insertion-ordered maps *)

Section JsMapFacts.
Context {V : Type}.
Implicit Types (m : JsMap.t V) (k : string) (v : V).

Lemma get_None k m : JsMap.get k m = None ↔ k ∉ JsMap.keys m.
Proof.
  induction m as [|[k' v'] m IH]; simpl.
  - split; [intros _ H; by apply elem_of_nil in H | done].
  - rewrite not_elem_of_cons.
    destruct (String.eqb_spec k k') as [->|Hne]; [naive_solver|].
    rewrite IH. naive_solver.
Qed.

Lemma get_Some_keys k m v : JsMap.get k m = Some v → k ∈ JsMap.keys m.
Proof.
  intros H. destruct (decide (k ∈ JsMap.keys m)) as [|Hn]; [done|].
  apply get_None in Hn. congruence.
Qed.

Lemma keys_set k v m :
  is_Some (JsMap.get k m) → JsMap.keys (JsMap.set k v m) = JsMap.keys m.
Proof.
  induction m as [|[k' v'] m IH]; simpl; intros [x Hx]; [done|].
  destruct (String.eqb_spec k k') as [->|Hne]; [done|].
  simpl. f_equal. apply IH. by exists x.
Qed.

Lemma set_fresh k v m :
  JsMap.get k m = None → JsMap.set k v m = m ++ [(k, v)].
Proof.
  induction m as [|[k' v'] m IH]; simpl; [done|].
  destruct (String.eqb_spec k k') as [->|Hne]; [done|].
  intros H. by rewrite IH.
Qed.

Lemma get_set_eq k v m : JsMap.get k (JsMap.set k v m) = Some v.
Proof.
  induction m as [|[k' v'] m IH]; simpl.
  - by rewrite String.eqb_refl.
  - destruct (String.eqb_spec k k') as [->|Hne]; simpl.
    + by rewrite String.eqb_refl.
    + by destruct (String.eqb_spec k k').
Qed.

Lemma get_set_ne k k' v m :
  k ≠ k' → JsMap.get k' (JsMap.set k v m) = JsMap.get k' m.
Proof.
  intros Hne. induction m as [|[k0 v0] m IH]; simpl.
  - by destruct (String.eqb_spec k' k) as [->|].
  - destruct (String.eqb_spec k k0) as [->|Hne0]; simpl.
    + by destruct (String.eqb_spec k' k0) as [->|].
    + by rewrite IH.
Qed.

Lemma NoDup_keys_set k v m :
  NoDup (JsMap.keys m) → NoDup (JsMap.keys (JsMap.set k v m)).
Proof.
  intros Hnd. destruct (JsMap.get k m) as [x|] eqn:Hk.
  - by rewrite keys_set.
  - rewrite set_fresh by done. unfold JsMap.keys. rewrite map_app. simpl.
    apply NoDup_app. split; [done|]. split; [|apply NoDup_singleton].
    intros k' Hk' ->%list_elem_of_singleton. by apply get_None in Hk.
Qed.

Lemma keys_alter (f : V → V) j m :
  JsMap.keys (alter (prod_map id f) j m) = JsMap.keys m.
Proof.
  revert j. induction m as [|[k v] m IH]; intros [|j]; simpl; try done.
  f_equal. apply IH.
Qed.
End JsMapFacts.

(** ** One record per session identifier *)

Lemma sessions_unique_init options :
  sessions_unique (createInstanceRegistry options).
Proof.
  destruct options as [p|]; unfold sessions_unique; simpl; [|apply NoDup_nil_2].
  generalize (loadSessions p). intros loaded.
  assert (∀ acc : JsMap.t Session, NoDup (JsMap.keys acc) →
            NoDup (JsMap.keys (foldl (λ m kv, JsMap.set kv.1 kv.2 m) acc loaded)))
    as H.
  { induction loaded as [|kv loaded IH]; intros acc Hacc; simpl; [done|].
    apply IH. by apply NoDup_keys_set. }
  apply H, NoDup_nil_2.
Qed.

Lemma sessions_unique_step op : preserves sessions_unique (reg_step op).
Proof.
  destruct op; simpl;
    unfold registerInstance, updateHeartbeat, removeInstance, startSession,
      updateSession, endSession, addTranscriptEvent, notifyInstance,
      notifySession, notifyTranscript, persist;
    preserve;
    try (apply preserves_modify; intros r Hr; exact Hr);
    try (apply preserves_modify; intros r Hr; by apply NoDup_keys_set).
  apply preserves_removeInstance_loop; [|intros; assumption].
  intros j r Hr. unfold sessions_unique in *. simpl. by rewrite keys_alter.
Qed.

Lemma reachable_sessions_unique r : reachable r → sessions_unique r.
Proof.
  induction 1 as [options|r op _ IH].
  - apply sessions_unique_init.
  - by apply sessions_unique_step.
Qed.

Lemma startSession_sessions iid data now r :
  sessions (state (startSession iid data now r))
  = JsMap.set (sd_sessionId data)
      (match getSession (sd_sessionId data) r with
       | Some existing => assign existing (reactivation iid)
       | None => new_session iid data now
       end) (sessions r).
Proof.
  unfold startSession, getSession, bind, gets, modify, persist, notifySession,
    forEach, ret. simpl.
  destruct (JsMap.get (sd_sessionId data) (sessions r)) as [existing|]; simpl;
    destruct (notify _ _ _) as [calls [err|]]; simpl; done.
Qed.

Lemma startSession_value iid data now r s :
  value (startSession iid data now r) = Normal s →
  getSession (sd_sessionId data) (state (startSession iid data now r)) = Some s.
Proof.
  unfold getSession. rewrite startSession_sessions.
  unfold startSession, getSession, bind, gets, modify, persist, notifySession,
    forEach, ret. simpl.
  destruct (JsMap.get (sd_sessionId data) (sessions r)) as [existing|]; simpl;
    destruct (notify _ _ _) as [calls [err|]]; simpl; try done;
    intros [= <-]; by rewrite get_set_eq.
Qed.

Lemma get_Some_elem {V} k v (m : JsMap.t V) :
  JsMap.get k m = Some v → (k, v) ∈ m.
Proof.
  induction m as [|[k0 v0] m IH]; simpl; [done|].
  destruct (String.eqb_spec k k0) as [->|Hne].
  - intros [= ->]. apply elem_of_cons. by left.
  - intros Hk. apply elem_of_cons. right. by apply IH.
Qed.

Lemma get_Some_elem_of {V} k (v : V) m : JsMap.get k m = Some v → (k, v) ∈ m.
Proof. apply get_Some_elem. Qed.

Lemma Forall_set {V} (P : string * V → Prop) k v (m : JsMap.t V) :
  P (k, v) → Forall P m → Forall P (JsMap.set k v m).
Proof.
  intros Hkv Hm. induction Hm as [|[k' v'] m Hx Hm IH]; simpl.
  - by apply Forall_singleton.
  - destruct (String.eqb_spec k k') as [->|Hne]; by apply Forall_cons.
Qed.

Lemma Forall_delete {V} (P : string * V → Prop) k (m : JsMap.t V) :
  Forall P m → Forall P (JsMap.delete k m).
Proof.
  induction 1 as [|[k' v'] m Hx Hm IH]; simpl; [done|].
  destruct (String.eqb k k'); [done|]. by apply Forall_cons.
Qed.

Lemma keyed_values {V} (f : V → string) (m : JsMap.t V) :
  Forall (λ kv : string * V, f kv.2 = kv.1) m →
  f <$> JsMap.values m = JsMap.keys m.
Proof.
  induction 1 as [|[k v] m Hk _ IH]; simpl; [done|].
  simpl in Hk. rewrite Hk. f_equal. exact IH.
Qed.

Lemma keyed_get r k s :
  sessions_keyed r → getSession k r = Some s → sessionId s = k.
Proof.
  intros Hkeyed Hget. apply get_Some_elem_of in Hget.
  by apply (proj1 (Forall_forall _ _) Hkeyed _) in Hget.
Qed.

Lemma state_bind_ret {A} (m : RegM A) r :
  state ((run m; ret tt) r) = state (m r).
Proof. unfold bind, ret. by destruct (value (m r)). Qed.

Lemma updateSession_sessions sid updates now r :
  sessions (state (updateSession sid updates now r))
  = match getSession sid r with
    | Some session => JsMap.set sid (assign session updates) (sessions r)
    | None => sessions r
    end.
Proof.
  unfold updateSession, getSession, bind, gets, modify, persist, notifySession,
    forEach, ret. simpl.
  destruct (JsMap.get sid (sessions r)) as [session|]; simpl; [|done].
  destruct (notify _ _ _) as [calls [err|]]; simpl; done.
Qed.

Lemma endSession_sessions sid now r :
  sessions (state (endSession sid now r))
  = match getSession sid r with
    | Some session => JsMap.set sid (set_status idle session) (sessions r)
    | None => sessions r
    end.
Proof.
  unfold endSession, getSession, bind, gets, modify, persist, notifySession,
    forEach, ret. simpl.
  destruct (JsMap.get sid (sessions r)) as [session|]; simpl; [|done].
  destruct (notify _ _ _) as [calls [err|]]; simpl; done.
Qed.

Lemma sessions_keyed_step op :
  keeps_ids op → preserves sessions_keyed (reg_step op).
Proof.
  intros Hop.
  destruct op as [data now|iid now|iid now|iid data now|sid updates now
                  |sid now|data newId now|l|l|l|id|id|id];
    try (simpl; unfold registerInstance, updateHeartbeat, addTranscriptEvent,
           notifyInstance, notifyTranscript, persist;
         preserve; apply preserves_modify; intros r Hr; exact Hr).
  - simpl. unfold removeInstance, notifyInstance. preserve.
    + apply preserves_modify. intros r Hr. exact Hr.
    + apply preserves_removeInstance_loop; [|intros; assumption].
      intros j r Hr. unfold sessions_keyed in *.
      cbn [sessions with_sessions].
      apply Forall_forall. intros [k s] Hks.
      apply list_elem_of_lookup in Hks as [n Hn]. unfold JsMap.t in Hn.
      destruct (decide (j = n)) as [->|Hne].
      * rewrite list_lookup_alter_eq in Hn.
        apply fmap_Some in Hn as ([k0 s0] & Hn0 & [= -> ->]).
        by apply list_elem_of_lookup_2,
             (proj1 (Forall_forall _ _) Hr (k0, s0)) in Hn0.
      * rewrite list_lookup_alter_ne in Hn by done.
        by apply list_elem_of_lookup_2,
             (proj1 (Forall_forall _ _) Hr (k, s)) in Hn.
  - intros r Hr. cbn [reg_step]. rewrite state_bind_ret.
    unfold sessions_keyed. rewrite startSession_sessions.
    destruct (getSession (sd_sessionId data) r) as [existing|] eqn:Hex.
    + apply Forall_set; [|done]. simpl. by apply (keyed_get r).
    + by apply Forall_set.
  - intros r Hr. cbn [reg_step]. rewrite state_bind_ret.
    unfold sessions_keyed. rewrite updateSession_sessions.
    destruct (getSession sid r) as [session|] eqn:Hex; [|done].
    apply Forall_set; [|done]. simpl.
    destruct Hop as [->| ->]; simpl; [by apply (keyed_get r)|done].
  - intros r Hr. cbn [reg_step].
    unfold sessions_keyed. rewrite endSession_sessions.
    destruct (getSession sid r) as [session|] eqn:Hex; [|done].
    apply Forall_set; [|done]. simpl. by apply (keyed_get r).
Qed.

Lemma loadSessions_keyed records :
  log_keeps_ids records →
  Forall (λ kv : string * Session, sessionId kv.2 = kv.1)
    (foldl replay_record [] records).
Proof.
  assert (∀ acc : JsMap.t Session,
            Forall (λ kv : string * Session, sessionId kv.2 = kv.1) acc →
            log_keeps_ids records →
            Forall (λ kv : string * Session, sessionId kv.2 = kv.1)
              (foldl replay_record acc records)) as H.
  { induction records as [|rec records IH]; intros acc Hacc Hlog; [done|].
    apply Forall_cons in Hlog as [Hrec Hlog]. simpl. apply IH; [|done].
    destruct rec as [s t|sid u t|sid t]; simpl.
    - by apply Forall_set.
    - destruct (JsMap.get sid acc) as [s|] eqn:Hs; [|done].
      apply Forall_set; [|done]. simpl. apply get_Some_elem_of in Hs.
      apply (proj1 (Forall_forall _ _) Hacc _) in Hs. simpl in Hs.
      by destruct Hrec as [->| ->].
    - destruct (JsMap.get sid acc) as [s|] eqn:Hs; [|done].
      apply Forall_set; [|done]. simpl. apply get_Some_elem_of in Hs.
      by apply (proj1 (Forall_forall _ _) Hacc _) in Hs. }
  intros Hlog. by apply H.
Qed.

Lemma steady_sessions_keyed r : steady r → sessions_keyed r.
Proof.
  induction 1 as [|p Hlog|r op _ IH Hop].
  - apply Forall_nil_2.
  - unfold sessions_keyed. simpl.
    pose proof (loadSessions_keyed _ Hlog) as Hloaded.
    fold (loadSessions p) in Hloaded. revert Hloaded.
    generalize (loadSessions p). intros loaded Hloaded.
    assert (∀ acc : JsMap.t Session,
              Forall (λ kv : string * Session, sessionId kv.2 = kv.1) acc →
              Forall (λ kv : string * Session, sessionId kv.2 = kv.1)
                (foldl (λ m kv, JsMap.set kv.1 kv.2 m) acc loaded)) as H.
    { induction Hloaded as [|[k v] loaded Hkv _ IH]; intros acc Hacc; [done|].
      simpl. apply IH. by apply Forall_set. }
    by apply H.
  - by apply sessions_keyed_step.
Qed.

Lemma steady_reachable r : steady r → reachable r.
Proof.
  induction 1 as [|p _|r op _ IH _];
    [apply (reachable_init None)|apply (reachable_init (Some p))
    |by apply reachable_step].
Qed.

Lemma steady_one_record_per_id r : steady r → one_record_per_id r.
Proof.
  intros Hsteady. unfold one_record_per_id, getAllSessions.
  rewrite keyed_values by by apply steady_sessions_keyed.
  by apply reachable_sessions_unique, steady_reachable.
Qed.

(** C4 (amended). In every state of a registry in which no update has
    changed the identifier of a session, there is at most one session
    record per session identifier, before and after a session is started;
    in every reachable state the session map has one entry per key.
    Starting a session whose id is known changes that record in place
    (status active, instance reassigned, the other fields and the set of
    records as they were) and returns it; starting a session whose id is
    unknown appends a fresh record stamped with the current time. *)
Theorem startSession_reactivates (r : Registry) (iid : string)
    (data : SessionData) (now : string) :
  reachable r →
  let sid := sd_sessionId data in
  let r' := state (startSession iid data now r) in
  (steady r → one_record_per_id r ∧ one_record_per_id r')
  ∧ sessions_unique r ∧ sessions_unique r'
  ∧ (∀ existing, getSession sid r = Some existing →
       JsMap.keys (sessions r') = JsMap.keys (sessions r)
       ∧ getSession sid r' = Some (assign existing (reactivation iid))
       ∧ status (assign existing (reactivation iid)) = active
       ∧ instanceId (assign existing (reactivation iid)) = iid
       ∧ ∀ k, k ≠ sid → getSession k r' = getSession k r)
  ∧ (getSession sid r = None →
       sessions r' = sessions r ++ [(sid, new_session iid data now)]
       ∧ createdAt (new_session iid data now) = now)
  ∧ (∀ s, value (startSession iid data now r) = Normal s →
       getSession sid r' = Some s).
Proof.
  intros Hr sid r'.
  assert (sessions_unique r) as Hu by by apply reachable_sessions_unique.
  split.
  { intros Hsteady. split; [by apply steady_one_record_per_id|].
    assert (steady (state (reg_step (op_startSession iid data now) r)))
      as Hsteady' by by apply steady_step.
    cbn [reg_step] in Hsteady'. rewrite state_bind_ret in Hsteady'.
    by apply steady_one_record_per_id. }
  split; [done|]. split.
  { unfold sessions_unique, r'. rewrite startSession_sessions.
    by apply NoDup_keys_set. }
  split; [|split].
  - intros existing Hex. unfold r', getSession in *.
    rewrite startSession_sessions. unfold getSession. fold sid. rewrite Hex.
    split; [by apply keys_set|]. split; [apply get_set_eq|].
    split; [done|]. split; [done|]. intros k Hk. by apply get_set_ne.
  - intros Hnone. unfold r', getSession in *.
    rewrite startSession_sessions. unfold getSession. fold sid. rewrite Hnone.
    split; [by apply set_fresh | done].
  - intros s Hs. by apply startSession_value.
Qed.

Lemma startSession_reactivates_witness :
  reachable registry_with_idle_session
  ∧ steady registry_with_idle_session
  ∧ getSession "s1" registry_with_idle_session = Some idle_session_s1
  ∧ (let r' :=
       state (startSession "i2" (sample_session_data "s1") "t3"
                registry_with_idle_session) in
     one_record_per_id r'
     ∧ JsMap.keys (sessions r') = JsMap.keys (sessions registry_with_idle_session)
     ∧ status <$> getSession "s1" r' = Some active
     ∧ instanceId <$> getSession "s1" r' = Some "i2").
Proof.
  assert (reachable registry_with_idle_session) as Hreach
    by apply reachable_step, reachable_step, reachable_init.
  assert (steady registry_with_idle_session) as Hsteady
    by (apply steady_step; [apply steady_step; [apply steady_memory|]|]; done).
  assert (getSession "s1" registry_with_idle_session = Some idle_session_s1)
    as Hex by (vm_compute; reflexivity).
  destruct (startSession_reactivates registry_with_idle_session "i2"
              (sample_session_data "s1") "t3" Hreach)
    as (Hone & _ & _ & Hknown & _ & _).
  destruct (Hknown idle_session_s1 Hex) as (Hkeys & Hget & Hstatus & Hinst & _).
  exact (conj Hreach (conj Hsteady (conj Hex (conj (proj2 (Hone Hsteady))
           (conj Hkeys
              (conj (eq_trans (f_equal (fmap status) Hget)
                       (f_equal Some Hstatus))
                    (eq_trans (f_equal (fmap instanceId) Hget)
                       (f_equal Some Hinst)))))))).
Defined.

(** C4, as stated, fails. [updateSession] merges whatever the updates
    carry, the session id included: after an update of session "s1" that
    carries the id "s2", the registry - a reachable one - holds two records
    whose session id is "s2", under the keys "s1" and "s2". *)
Lemma renamed_session_duplicates_id :
  reachable renamed_registry
  ∧ JsMap.keys (sessions renamed_registry) = ["s1"; "s2"]
  ∧ (sessionId <$> getAllSessions renamed_registry) = ["s2"; "s2"]
  ∧ ¬ one_record_per_id renamed_registry.
Proof.
  assert ((sessionId <$> getAllSessions renamed_registry) = ["s2"; "s2"])
    as Hids by (vm_compute; reflexivity).
  split; [repeat apply reachable_step; apply (reachable_init None)|].
  split; [vm_compute; reflexivity|]. split; [done|].
  unfold one_record_per_id. rewrite Hids. intros Hnd.
  apply NoDup_cons in Hnd as [Hnot _]. apply Hnot, elem_of_cons. by left.
Qed.

(** ** Disconnection *)

Lemma notify_returns {N} mk (ls : list (Listener N)) n :
  (∀ l, l ∈ ls → throws l n = None) →
  notify mk ls n = ((λ l, mk (lid l) n) <$> ls, None).
Proof.
  induction ls as [|l ls IH]; intros Hq; simpl; [done|].
  rewrite (Hq l) by (apply elem_of_cons; by left).
  rewrite IH; [done|]. intros l' Hl'. apply Hq, elem_of_cons. by right.
Qed.

Lemma transitioned_cons iid k s entries :
  transitioned iid ((k, s) :: entries)
  = (if owned_active iid s then [s] else []) ++ transitioned iid entries.
Proof.
  unfold transitioned. simpl. rewrite filter_cons.
  case_decide as H; [by rewrite H|]. by destruct (owned_active iid s).
Qed.

Lemma removeInstance_loop_quiet iid now entries before r :
  ends_quietly iid (sessionListeners r) entries →
  sessions r = before ++ entries →
  removeInstance_loop iid now (length before) entries r
  = mkRun (after_loop iid now before entries r)
      (flat_map (end_calls (sessionListeners r)) (transitioned iid entries))
      (Normal tt).
Proof.
  revert before r. induction entries as [|[k s] rest IH]; intros before r Hq Hs.
  - unfold after_loop, append_ends, transitioned. simpl.
    rewrite <- Hs. destruct r as [[p|] ? ? ? ? ? ? ?]; simpl;
      [destruct p|]; simpl; by rewrite ?app_nil_r.
  - cbn [removeInstance_loop]. rewrite transitioned_cons.
    unfold bind. destruct (owned_active iid s) eqn:Hown.
    + unfold modify, persist, notifySession, forEach. simpl.
      rewrite notify_returns; cycle 1.
      { intros l Hl. apply (Hq l s Hl). rewrite transitioned_cons, Hown.
        apply elem_of_cons. by left. }
      simpl.
      match goal with
      | |- context [removeInstance_loop _ _ _ _ ?x] => set (r1 := x)
      end.
      replace (S (length before))
        with (length (before ++ [(k, set_status idle s)]))
        by (rewrite length_app; simpl; lia).
      assert (sessions r1 = (before ++ [(k, set_status idle s)]) ++ rest) as Hs1.
      { unfold r1. simpl. rewrite Hs.
        rewrite (alter_app_r_alt _ before) by lia.
        rewrite Nat.sub_diag. simpl. by rewrite <- (assoc app). }
      rewrite (IH _ r1); [|by intros l s' Hl Hs'; apply (Hq l s' Hl);
                            rewrite transitioned_cons; apply elem_of_app; right
                          |exact Hs1].
      simpl. rewrite app_nil_r. f_equal.
      unfold after_loop, r1. simpl. rewrite transitioned_cons, Hown.
      rewrite <- (assoc app). unfold disconnect_session at 2. simpl.
      rewrite Hown. f_equal.
      destruct (persistence r) as [p|]; simpl; [|done].
      unfold append_ends, persistSessionEnd, appendSession. simpl.
      by rewrite <- (assoc app).
    + unfold ret at 1 2 3. simpl.
      replace (S (length before)) with (length (before ++ [(k, s)]))
        by (rewrite length_app; simpl; lia).
      rewrite IH; [|by intros l s' Hl Hs'; apply (Hq l s' Hl);
                        rewrite transitioned_cons; apply elem_of_app; right
                      |by rewrite Hs, <- (assoc app)].
      simpl. f_equal. unfold after_loop. rewrite transitioned_cons, Hown.
      simpl. rewrite <- (assoc app). unfold disconnect_session at 2. simpl.
      by rewrite Hown.
Qed.

Lemma removeInstance_quiet iid now instance r :
  getInstance iid r = Some instance →
  ends_quietly iid (sessionListeners r) (sessions r) →
  let res :=
    notify mk_instance_call (instanceListeners r) (ic_disconnect, instance) in
  removeInstance iid now r
  = mkRun (after_loop iid now [] (sessions r)
             (with_instances (JsMap.delete iid) r))
      (flat_map (end_calls (sessionListeners r)) (transitioned iid (sessions r))
       ++ res.1)
      (completes res.2 tt).
Proof.
  intros Hi Hq. unfold removeInstance, getInstance in *.
  rewrite bind_gets, Hi, bind_modify, bind_gets.
  rewrite (bind_run _ _ _ _ _ _
             (removeInstance_loop_quiet iid now (sessions r) []
                (with_instances (JsMap.delete iid) r) Hq eq_refl)).
  unfold notifyInstance, forEach. simpl.
  by destruct (notify _ _ _) as [calls [err|]].
Qed.

Lemma notify_no_session_call ls n :
  filter (λ c, is_session_call c = true) (notify mk_instance_call ls n).1 = [].
Proof.
  induction ls as [|l ls IH]; simpl; [done|].
  destruct (throws l n); simpl; by rewrite filter_cons_False.
Qed.

Lemma end_calls_filter ls s :
  filter (λ c, is_session_call c = true) (end_calls ls s) = end_calls ls s.
Proof.
  unfold end_calls. induction ls as [|l ls IH]; [done|].
  rewrite fmap_cons, filter_cons_True by done. by rewrite IH.
Qed.

Lemma end_calls_session_calls ls ended :
  filter (λ c, is_session_call c = true) (flat_map (end_calls ls) ended)
  = flat_map (end_calls ls) ended.
Proof.
  induction ended as [|s ended IH]; [done|].
  cbn [flat_map]. by rewrite filter_app, IH, end_calls_filter.
Qed.

Lemma end_calls_length ls ended :
  length (flat_map (end_calls ls) ended) = length ended * length ls.
Proof.
  induction ended as [|s ended IH]; simpl; [done|].
  rewrite length_app, IH. unfold end_calls. by rewrite length_fmap.
Qed.

(** C5 (amended). Removing an instance that is registered, when no session
    listener throws on the end of a session that the removal transitions:
    every session that the instance owns and that is active becomes idle,
    each listener is notified once of each of these sessions and one end
    record per session is appended to the log; every other session is left
    as it was, without notification; the instance record is deleted and
    nothing else is persisted. There are as many session-change
    notifications as transitioned sessions, for each session listener. *)
Theorem removeInstance_disconnects (r : Registry) (iid now : string)
    (instance : Instance) :
  getInstance iid r = Some instance →
  ends_quietly iid (sessionListeners r) (sessions r) →
  let o := removeInstance iid now r in
  let ended := transitioned iid (sessions r) in
  sessions (state o) = disconnect_session iid <$> sessions r
  ∧ instances (state o) = JsMap.delete iid (instances r)
  ∧ persistence (state o) = append_ends now ended <$> persistence r
  ∧ transcripts (state o) = transcripts r
  ∧ seenSourceIds (state o) = seenSourceIds r
  ∧ trace o
    = flat_map (end_calls (sessionListeners r)) ended
      ++ (notify mk_instance_call (instanceListeners r)
            (ic_disconnect, instance)).1
  ∧ length (filter (λ c, is_session_call c = true) (trace o))
    = length ended * length (sessionListeners r).
Proof.
  intros Hi Hq o ended. subst o.
  rewrite (removeInstance_quiet iid now instance r Hi Hq). simpl.
  repeat split; try done.
  rewrite filter_app, notify_no_session_call, app_nil_r.
  by rewrite end_calls_session_calls, end_calls_length.
Qed.

Lemma removeInstance_disconnects_witness :
  getInstance "i1" registry_with_three_sessions = Some instance_i1
  ∧ ends_quietly "i1" (sessionListeners registry_with_three_sessions)
      (sessions registry_with_three_sessions)
  ∧ statuses registry_with_three_sessions = [active; active; idle]
  ∧ (let o := removeInstance "i1" "t5" registry_with_three_sessions in
     length (filter (λ c, is_session_call c = true) (trace o)) = 2
     ∧ JsMap.values (sessions (state o))
       = JsMap.values
           (disconnect_session "i1" <$> sessions registry_with_three_sessions)).
Proof.
  assert (getInstance "i1" registry_with_three_sessions = Some instance_i1)
    as Hi by (vm_compute; reflexivity).
  assert (ends_quietly "i1" (sessionListeners registry_with_three_sessions)
            (sessions registry_with_three_sessions)) as Hq.
  { assert (sessionListeners registry_with_three_sessions = [quiet_listener 7])
      as -> by reflexivity.
    intros l s ->%list_elem_of_singleton _. reflexivity. }
  assert (statuses registry_with_three_sessions = [active; active; idle])
    as Hst by (vm_compute; reflexivity).
  assert (length (transitioned "i1" (sessions registry_with_three_sessions))
          * length (sessionListeners registry_with_three_sessions) = 2)
    as Htwo by (vm_compute; reflexivity).
  destruct (removeInstance_disconnects registry_with_three_sessions "i1" "t5"
              instance_i1 Hi Hq)
    as (Hsessions & _ & _ & _ & _ & _ & Hcount).
  exact (conj Hi (conj Hq (conj Hst
           (conj (eq_trans Hcount Htwo) (f_equal JsMap.values Hsessions))))).
Defined.

(** C5, as stated, fails. An instance that is not registered any more can
    own an active session - here the instance is removed and a session is
    then started in its name, as a second connection of the same instance
    does - and removing it again does nothing: the session stays active,
    nobody is notified and no end record is written. And when a session
    listener throws, the removal stops at the first session: that session
    is idle in memory without an end record in the log, and the second
    active session of the instance stays active. *)
Lemma removeInstance_can_leave_sessions_active :
  (let r := orphan_registry in
   let o := removeInstance "i1" "t5" r in
   getInstance "i1" r = None
   ∧ (instanceId <$> getAllSessions r) = ["i1"]
   ∧ statuses r = [active]
   ∧ statuses (state o) = [active]
   ∧ trace o = []
   ∧ persistence (state o) = persistence r)
  ∧ (let r := registry_with_throwing_listeners in
     let o := removeInstance "i1" "t5" r in
     is_Some (getInstance "i1" r)
     ∧ (instanceId <$> getAllSessions r) = ["i1"; "i1"]
     ∧ statuses r = [active; active]
     ∧ statuses (state o) = [idle; active]
     ∧ length (filter (λ c, is_session_call c = true) (trace o)) = 1
     ∧ (sessionsFile <$> persistence (state o))
       = (sessionsFile <$> persistence r)).
Proof.
  split.
  - vm_compute. repeat split; reflexivity.
  - split; [eexists; vm_compute; reflexivity|].
    vm_compute. repeat split; reflexivity.
Qed.

(** ** Listeners that throw *)









(** ** The disabled follow-up message *)

(** C9. A [send_message] request of a consumer gets one reply, sent to that
    consumer: the fixed failure result. Nothing is sent to a producer and
    the hub is left as it was: no pending request is created, whatever the
    sessions and instances that are connected. (If the socket of the
    consumer refuses the reply, the message handler of the connection tries
    to report an invalid message on that same socket.) *)
Theorem send_message_is_disabled (env : Env) (ws : WebSocket)
    (sid message : string) (h : Hub) :
  let reply :=
    send ws
      (to_client
         (s_send_message_result sid false None (Some SEND_MESSAGE_DISABLED))) in
  let o := handleClientMessage env ws (c_send_message sid message) h in
  let o' :=
    hub_handle env (ev_client_message ws (Some (c_send_message sid message))) h in
  trace o = [reply]
  ∧ state o = h
  ∧ state o' = h
  ∧ trace o'
    = reply ::
      match net env ws with
      | Some _ => [send ws (to_client (s_error "Invalid message format"))]
      | None => []
      end
  ∧ filter (λ e, to_producer e = true) (trace o') = []
  ∧ pendingMessageRequests (state o') = pendingMessageRequests h
  ∧ pendingEnabledModelsRequests (state o') = pendingEnabledModelsRequests h
  ∧ pendingCreateChatRequests (state o') = pendingCreateChatRequests h.
Proof.
  cbv zeta. split; [done|]. split; [done|].
  unfold hub_handle, client_on_message, try_catch, handleClientMessage, ws_send.
  simpl. destruct (net env ws) as [err|]; simpl; repeat split; done.
Qed.

(** ** Broadcast and send failures *)

(** C8 fails on the code: the sends of a broadcast are not guarded. With
    consumers 1 and 2 subscribed and the socket of consumer 1 gone, each
    broadcast stops at consumer 1 with the exception of [ws.send], and
    consumer 2 receives nothing; a transcript event of the producer is
    accepted by the registry but reaches no consumer. *)
Lemma broadcast_aborts_on_send_failure :
  let env := sample_env net_without_1 in
  let instances := broadcastToInstanceSubscribers env sample_update sample_hub in
  let session :=
    broadcastToSessionSubscribers env "s" sample_update sample_hub in
  let event :=
    hub_handle env
      (ev_extension_message 10
         (Some (x_transcript_event (sample_event_data "s" (Some "m1")))))
      sample_hub in
  c_ws <$> clients sample_hub = [1; 2]
  ∧ recipients
      (trace (broadcastToInstanceSubscribers (sample_env good_net)
                sample_update sample_hub)) = [1; 2]
  ∧ recipients (trace instances) = [1]
  ∧ value instances = Throw "WebSocket is not open"
  ∧ recipients (trace session) = [1]
  ∧ value session = Throw "WebSocket is not open"
  ∧ recipients (trace event) = [1]
  ∧ length (transcript_of "s" (registry (state event))) = 1.
Proof. vm_compute. repeat split; reflexivity. Qed.

(** ** Request correlation *)

Section JsMapDelete.
Context {V : Type}.
Implicit Types (m : JsMap.t V) (k : string) (v : V).

Lemma get_delete_ne k k' m :
  k ≠ k' → JsMap.get k' (JsMap.delete k m) = JsMap.get k' m.
Proof.
  intros Hne. induction m as [|[k0 v0] m IH]; simpl; [done|].
  destruct (String.eqb_spec k k0) as [->|Hne0]; simpl.
  - by destruct (String.eqb_spec k' k0) as [->|].
  - by rewrite IH.
Qed.

Lemma keys_delete_subseteq k m : JsMap.keys (JsMap.delete k m) ⊆ JsMap.keys m.
Proof.
  induction m as [|[k0 v0] m IH]; simpl; [done|].
  destruct (String.eqb_spec k k0) as [->|Hne0]; simpl.
  - intros x Hx. apply elem_of_cons. by right.
  - intros x [->|Hx]%elem_of_cons; apply elem_of_cons; [by left|].
    right. by apply IH.
Qed.

Lemma NoDup_keys_delete k m :
  NoDup (JsMap.keys m) → NoDup (JsMap.keys (JsMap.delete k m)).
Proof.
  induction m as [|[k0 v0] m IH]; simpl; [done|].
  intros [Hk0 Hnd]%NoDup_cons.
  destruct (String.eqb_spec k k0) as [->|Hne0]; simpl; [done|].
  apply NoDup_cons. split; [|by apply IH].
  intros Hin. by apply Hk0, (keys_delete_subseteq k m).
Qed.

Lemma get_delete_eq k m :
  NoDup (JsMap.keys m) → JsMap.get k (JsMap.delete k m) = None.
Proof.
  induction m as [|[k0 v0] m IH]; simpl; [done|].
  intros [Hk0 Hnd]%NoDup_cons.
  destruct (String.eqb_spec k k0) as [->|Hne0]; simpl.
  - by apply get_None.
  - destruct (String.eqb_spec k k0); [done|]. by apply IH.
Qed.
End JsMapDelete.

Lemma length_delete {V} k (m : JsMap.t V) v :
  JsMap.get k m = Some v → S (length (JsMap.delete k m)) = length m.
Proof.
  induction m as [|[k0 v0] m IH]; simpl; [done|].
  destruct (String.eqb_spec k k0) as [->|Hne]; [done|].
  intros Hk. simpl. by rewrite IH.
Qed.

Lemma count_app counted t1 t2 :
  count counted (t1 ++ t2) = count counted t1 + count counted t2.
Proof. unfold count. by rewrite filter_app, length_app. Qed.

Lemma count_cons counted e t :
  count counted (e :: t) = (if counted e then 1 else 0) + count counted t.
Proof.
  unfold count. rewrite filter_cons.
  destruct (counted e); by case_decide.
Qed.

Lemma count_nil counted : count counted [] = 0.
Proof. done. Qed.

Lemma count_elem counted e t :
  e ∈ t → counted e = true → (0 < count counted t)%nat.
Proof.
  intros (t1 & t2 & ->)%list_elem_of_split He.
  rewrite count_app, count_cons, He. lia.
Qed.

Lemma is_result_own_chat rid ws success composerId err :
  is_result create_chat rid
    (send ws (to_client (s_create_chat_result rid success composerId err)))
  = true.
Proof. simpl. apply String.eqb_refl. Qed.

Lemma is_result_own_models rid ws iid success models err :
  is_result enabled_models rid
    (send ws
       (to_client (s_enabled_models_result rid iid success models err)))
  = true.
Proof. simpl. apply String.eqb_refl. Qed.

Lemma unique_after_set rid p h :
  pending_unique h →
  pending_unique (with_pendingCreateChatRequests (JsMap.set rid p) h).
Proof. apply NoDup_keys_set. Qed.

Lemma unique_after_delete rid h :
  pending_unique h →
  pending_unique (with_pendingCreateChatRequests (JsMap.delete rid) h).
Proof. apply NoDup_keys_delete. Qed.

Lemma tracked_after_messages f h :
  (∀ m, NoDup (JsMap.keys m) → NoDup (JsMap.keys (f m))) →
  tracked_unique h → tracked_unique (with_pendingMessageRequests f h).
Proof. intros Hf (Hm & He & Hc). split; [by apply Hf|done]. Qed.

Lemma tracked_after_models f h :
  (∀ m, NoDup (JsMap.keys m) → NoDup (JsMap.keys (f m))) →
  tracked_unique h → tracked_unique (with_pendingEnabledModelsRequests f h).
Proof. intros Hf (Hm & He & Hc). split; [done|]. split; [by apply Hf|done]. Qed.

Lemma tracked_after_chats f h :
  (∀ m, NoDup (JsMap.keys m) → NoDup (JsMap.keys (f m))) →
  tracked_unique h → tracked_unique (with_pendingCreateChatRequests f h).
Proof. intros Hf (Hm & He & Hc). split; [done|]. split; [done|by apply Hf]. Qed.

Ltac tracked :=
  first
    [ done
    | first [ apply tracked_after_messages
            | apply tracked_after_models
            | apply tracked_after_chats ];
      [ intros ?; first [apply NoDup_keys_set | apply NoDup_keys_delete]
      | tracked ] ].

Lemma pending_after_set_chat rid p h :
  pending create_chat rid (with_pendingCreateChatRequests (JsMap.set rid p) h)
  = 1.
Proof. unfold pending. simpl. by rewrite get_set_eq. Qed.

Lemma pending_after_delete_chat rid h :
  tracked_unique h →
  pending create_chat rid
    (with_pendingCreateChatRequests (JsMap.delete rid) h) = 0.
Proof.
  intros (_ & _ & Hh). unfold pending. simpl. by rewrite get_delete_eq.
Qed.

Lemma pending_after_set_models rid p h :
  pending enabled_models rid
    (with_pendingEnabledModelsRequests (JsMap.set rid p) h) = 1.
Proof. unfold pending. simpl. by rewrite get_set_eq. Qed.

Lemma pending_after_delete_models rid h :
  tracked_unique h →
  pending enabled_models rid
    (with_pendingEnabledModelsRequests (JsMap.delete rid) h) = 0.
Proof.
  intros (_ & Hh & _). unfold pending. simpl. by rewrite get_delete_eq.
Qed.

Lemma counts_results_only_tally_of kind rid :
  counts_results_only (tally_of kind rid).
Proof. intros [ws [[]|]| |]; by simpl. Qed.

Lemma counts_results_only_message_tally replies :
  counts_results_only (message_tally replies).
Proof. intros [ws [[]|]| |]; destruct replies; by simpl. Qed.

#[local] Arguments count : simpl never.
#[local] Arguments pending : simpl never.

Section Calm.
Context (T : Tally).

Lemma calm_ret {A} (a : A) : calm T (ret a).
Proof. by intros h Hh. Qed.

Lemma calm_gets {A} (f : Hub → A) : calm T (gets f).
Proof. by intros h Hh. Qed.

Lemma calm_throw {A} err : calm T (throw (A:=A) err).
Proof. by intros h Hh. Qed.

Lemma calm_bind {A B} (m : HubM A) (k : A → HubM B) :
  calm T m → (∀ a, calm T (k a)) → calm T (bind m k).
Proof.
  intros Hm Hk h Hh. destruct (Hm h Hh) as (Hu & Hget & Hres).
  unfold bind. destruct (value (m h)) as [a|err]; simpl; [|done].
  destruct (Hk a _ Hu) as (Hu' & Hget' & Hres').
  split; [done|]. split; [congruence|]. rewrite count_app. lia.
Qed.

Lemma calm_try_catch {A} (m : HubM A) (handler : string → HubM A) :
  calm T m → (∀ err, calm T (handler err)) → calm T (try_catch m handler).
Proof.
  intros Hm Hk h Hh. destruct (Hm h Hh) as (Hu & Hget & Hres).
  unfold try_catch. destruct (value (m h)) as [a|err]; simpl; [done|].
  destruct (Hk err _ Hu) as (Hu' & Hget' & Hres').
  split; [done|]. split; [congruence|]. rewrite count_app. lia.
Qed.

Lemma calm_for_of {A} (xs : list A) (body : A → HubM unit) :
  (∀ x, calm T (body x)) → calm T (for_of xs body).
Proof.
  intros Hbody. induction xs as [|x xs IH]; simpl.
  - apply calm_ret.
  - apply calm_bind; [apply Hbody | by intros _].
Qed.

Lemma calm_modify (f : Hub → Hub) :
  (∀ h, tracked_unique h →
        tracked_unique (f h) ∧ owed T (f h) = owed T h) →
  calm T (modify f).
Proof. intros Hf h Hh. destruct (Hf h Hh). by simpl. Qed.

Lemma calm_ws_send net ws f :
  counted T (send ws f) = false → calm T (ws_send net ws f).
Proof.
  intros Hf h Hh. unfold ws_send. simpl.
  split; [done|]. split; [done|]. by rewrite count_cons, Hf.
Qed.

Lemma calm_ws_close ws code reason :
  counts_results_only T → calm T (ws_close ws code reason).
Proof.
  intros HT h Hh. unfold ws_close. simpl.
  split; [done|]. split; [done|]. rewrite count_cons.
  destruct (counted T _) eqn:Hc; [by apply HT in Hc|done].
Qed.

Lemma calm_at_most {A} (m : HubM A) : calm T m → at_most T 0 m.
Proof.
  intros Hm h Hh. destruct (Hm h Hh) as (Hu & Hget & Hres).
  split; [done|]. rewrite Hget, Hres. lia.
Qed.

Lemma at_most_weaken {A} n n' (m : HubM A) :
  (n ≤ n')%nat → at_most T n m → at_most T n' m.
Proof. intros Hn Hm h Hh. destruct (Hm h Hh). split; [done|lia]. Qed.

Lemma at_most_bind {A B} n1 n2 (m : HubM A) (k : A → HubM B) :
  at_most T n1 m → (∀ a, at_most T n2 (k a)) →
  at_most T (n1 + n2) (bind m k).
Proof.
  intros Hm Hk h Hh. destruct (Hm h Hh) as (Hu & Hle).
  unfold bind. destruct (value (m h)) as [a|err]; simpl; [|split; [done|lia]].
  destruct (Hk a _ Hu) as (Hu' & Hle').
  split; [done|]. rewrite count_app. lia.
Qed.

Lemma at_most_try_catch {A} n1 n2 (m : HubM A) (handler : string → HubM A) :
  at_most T n1 m → (∀ err, at_most T n2 (handler err)) →
  at_most T (n1 + n2) (try_catch m handler).
Proof.
  intros Hm Hk h Hh. destruct (Hm h Hh) as (Hu & Hle).
  unfold try_catch. destruct (value (m h)) as [a|err]; simpl;
    [split; [done|lia]|].
  destruct (Hk err _ Hu) as (Hu' & Hle').
  split; [done|]. rewrite count_app. lia.
Qed.
End Calm.

Ltac calm_step :=
  first
    [ apply calm_ret
    | apply calm_gets
    | apply calm_throw
    | apply calm_ws_close;
      first [ assumption
            | apply counts_results_only_tally_of
            | apply counts_results_only_message_tally ]
    | apply calm_bind; [|intros ?]
    | apply calm_try_catch; [|intros ?]
    | apply calm_for_of; intros ?
    | apply calm_ws_send; simpl; done
    | apply calm_modify; intros ? ?; split; [tracked|done]
    | match goal with
      | |- calm _ (match ?x with _ => _ end) => destruct x eqn:?
      | |- calm _ (if ?x then _ else _) => destruct x eqn:?
      | |- calm _ (let _ := _ in _) => cbv zeta
      end ].

Ltac calm := repeat calm_step.

Section CalmRegistry.
Context (T : Tally) (HT : counts_results_only T).
Context (HO : ∀ f h, owed T (with_registry f h) = owed T h).

Lemma update_not_counted ws message :
  match message with
  | s_send_message_result _ _ _ _
  | s_enabled_models_result _ _ _ _ _
  | s_create_chat_result _ _ _ _ => False
  | _ => True
  end →
  counted T (send ws (to_client message)) = false.
Proof.
  intros Hm. destruct (counted T _) eqn:Hc; [|done].
  apply HT in Hc. by destruct message.
Qed.

Lemma calm_broadcastToInstanceSubscribers env message :
  (∀ ws, counted T (send ws (to_client message)) = false) →
  calm T (broadcastToInstanceSubscribers env message).
Proof.
  intros Hm. unfold broadcastToInstanceSubscribers. calm.
  all: by apply calm_ws_send.
Qed.

Lemma calm_broadcastToSessionSubscribers env sid message :
  (∀ ws, counted T (send ws (to_client message)) = false) →
  calm T (broadcastToSessionSubscribers env sid message).
Proof.
  intros Hm. unfold broadcastToSessionSubscribers. calm.
  all: by apply calm_ws_send.
Qed.

Lemma calm_broadcastToClients env message :
  (∀ ws, counted T (send ws (to_client message)) = false) →
  calm T (broadcastToClients env message).
Proof.
  intros Hm. unfold broadcastToClients. calm.
  all: by apply calm_ws_send.
Qed.

Lemma count_flat_map_0 {A} (f : A → list Effect) (xs : list A) :
  (∀ x, count (counted T) (f x) = 0) →
  count (counted T) (flat_map f xs) = 0.
Proof.
  intros Hf. induction xs as [|x xs IH]; simpl; [done|].
  by rewrite count_app, Hf, IH.
Qed.

Lemma calm_on_instance_change env n : calm T (on_instance_change env n).
Proof.
  unfold on_instance_change.
  apply calm_broadcastToInstanceSubscribers. intros ws.
  apply update_not_counted. by destruct n.1.
Qed.

Lemma calm_on_session_change env n : calm T (on_session_change env n).
Proof.
  unfold on_session_change. apply calm_bind; [|intros _].
  - apply calm_broadcastToSessionSubscribers. intros ws.
    by apply update_not_counted.
  - apply calm_broadcastToInstanceSubscribers. intros ws.
    by apply update_not_counted.
Qed.

Lemma calm_on_transcript_event env e : calm T (on_transcript_event env e).
Proof.
  unfold on_transcript_event. apply calm_broadcastToSessionSubscribers.
  intros ws. by apply update_not_counted.
Qed.

Lemma calm_in_registry {A} env (m : RegM A) : calm T (in_registry env m).
Proof.
  intros h Hh. unfold in_registry. simpl. split; [done|]. split; [apply HO|].
  apply count_flat_map_0. intros c. unfold effects_of_call.
  destruct c as [l t i|l t s|l e]; destruct (Nat.eqb l HUB_LISTENER);
    try (rewrite count_cons, count_nil;
         destruct (counted T _) eqn:Hc; [by apply HT in Hc|done]).
  - by destruct (calm_on_instance_change env (t, i) h Hh) as (_ & _ & ?).
  - by destruct (calm_on_session_change env (t, s) h Hh) as (_ & _ & ?).
  - by destruct (calm_on_transcript_event env e h Hh) as (_ & _ & ?).
Qed.
End CalmRegistry.

Lemma keys_get_is_Some {V} k (m : JsMap.t V) :
  k ∈ JsMap.keys m → is_Some (JsMap.get k m).
Proof.
  intros Hk. destruct (JsMap.get k m) eqn:Hget; [by eexists|].
  by apply get_None in Hget.
Qed.

Lemma get_delete_None {V} k k' (m : JsMap.t V) :
  JsMap.get k m = None → JsMap.get k (JsMap.delete k' m) = None.
Proof.
  induction m as [|[k0 v0] m IH]; simpl; [done|].
  destruct (String.eqb_spec k k0) as [->|Hne]; [done|]. intros Hk.
  destruct (String.eqb_spec k' k0) as [->|Hne']; [done|]. simpl.
  destruct (String.eqb_spec k k0); [done|]. by apply IH.
Qed.

Lemma elem_get {V} k v (m : JsMap.t V) :
  NoDup (JsMap.keys m) → (k, v) ∈ m → JsMap.get k m = Some v.
Proof.
  induction m as [|[k0 v0] m IH]; simpl; intros Hnd Hin;
    [by apply elem_of_nil in Hin|].
  apply NoDup_cons in Hnd as [Hk0 Hnd].
  apply elem_of_cons in Hin as [[= -> ->]|Hin].
  - by rewrite String.eqb_refl.
  - destruct (String.eqb_spec k k0) as [->|Hne]; [|by apply IH].
    exfalso. apply Hk0. apply (list_elem_of_fmap_2 fst) in Hin. done.
Qed.

Lemma run_normal {S E A} (o : Run S E A) a :
  value o = Normal a → o = mkRun (state o) (trace o) (Normal a).
Proof. intros <-. by destruct o. Qed.

(** Deleting a record and sending a frame in a guarded send. *)
Lemma delete_and_send (f : Hub → Hub) nt ws frame h :
  (run modify f; ws_send_quietly nt ws frame) h
  = mkRun (f h) [send ws frame] (Normal tt).
Proof.
  rewrite bind_modify. unfold ws_send_quietly, try_catch, ws_send, ret.
  cbn [state trace value]. by destruct (nt ws).
Qed.

(** *** Requests and replies *)

(** A request either gets an immediate failure result or becomes pending;
    when forwarding fails, the record is deleted with the failure result. *)
Lemma create_chat_at_most rid env ws target prompt unifiedMode modelName maxMode :
  at_most (tally_of create_chat rid) 1
    (handleClientMessage env ws
       (c_create_chat rid target prompt unifiedMode modelName maxMode)).
Proof.
  intros h Hh. unfold handleClientMessage. rewrite bind_gets.
  cbn [counted owed tally_of].
  destruct (find_extension target (extensions h)) as [ext|].
  - rewrite bind_modify. unfold try_catch, ws_send_quietly, try_catch, ws_send.
    cbn [state trace value].
    set (p := mkPendingCreateChat ws target rid (now_ms env)).
    destruct (net env (x_ws ext)) as [err|]; cbn [state trace value].
    + rewrite bind_modify. unfold ret.
      destruct (net env ws) as [err'|]; cbn [state trace value app];
        (split; [tracked|]);
        rewrite pending_after_delete_chat by tracked;
        rewrite !count_cons, count_nil, is_result_own_chat; simpl; lia.
    + split; [tracked|].
      rewrite pending_after_set_chat, count_cons, count_nil. simpl. lia.
  - unfold ws_send. cbn [state trace value]. split; [done|].
    rewrite count_cons, count_nil, is_result_own_chat. lia.
Qed.

Lemma get_enabled_models_at_most rid env ws target :
  at_most (tally_of enabled_models rid) 1
    (handleClientMessage env ws (c_get_enabled_models rid target)).
Proof.
  intros h Hh. unfold handleClientMessage. rewrite bind_gets.
  cbn [counted owed tally_of].
  destruct (find_extension target (extensions h)) as [ext|].
  - rewrite bind_modify. unfold try_catch, ws_send_quietly, try_catch, ws_send.
    cbn [state trace value].
    set (p := mkPendingEnabledModels ws target rid (now_ms env)).
    destruct (net env (x_ws ext)) as [err|]; cbn [state trace value].
    + rewrite bind_modify. unfold ret.
      destruct (net env ws) as [err'|]; cbn [state trace value app];
        (split; [tracked|]);
        rewrite pending_after_delete_models by tracked;
        rewrite !count_cons, count_nil, is_result_own_models; simpl; lia.
    + split; [tracked|].
      rewrite pending_after_set_models, count_cons, count_nil. simpl. lia.
  - unfold ws_send. cbn [state trace value]. split; [done|].
    rewrite count_cons, count_nil, is_result_own_models. lia.
Qed.

(** A reply deletes the pending record and sends its result; without a
    pending record nothing is sent. *)
Lemma create_chat_result_at_most rid env ws success composerId err :
  at_most (tally_of create_chat rid) 0
    (handleExtensionMessage env ws
       (x_create_chat_result rid success composerId err)).
Proof.
  intros h Hh. unfold handleExtensionMessage. rewrite bind_gets.
  cbn [counted owed tally_of].
  destruct (JsMap.get rid (pendingCreateChatRequests h)) as [p|] eqn:Hp.
  - rewrite delete_and_send. cbn [state trace value].
    assert (pending create_chat rid h = 1) as ->
      by (unfold pending; by rewrite Hp).
    split; [tracked|].
    rewrite pending_after_delete_chat by done.
    rewrite count_cons, count_nil, is_result_own_chat. lia.
  - unfold ret. cbn [state trace value]. split; [done|].
    rewrite count_nil. lia.
Qed.

Lemma enabled_models_result_at_most rid env ws iid success models err :
  at_most (tally_of enabled_models rid) 0
    (handleExtensionMessage env ws
       (x_enabled_models_result rid iid success models err)).
Proof.
  intros h Hh. unfold handleExtensionMessage. rewrite bind_gets.
  cbn [counted owed tally_of].
  destruct (JsMap.get rid (pendingEnabledModelsRequests h)) as [p|] eqn:Hp.
  - rewrite delete_and_send. cbn [state trace value].
    assert (pending enabled_models rid h = 1) as ->
      by (unfold pending; by rewrite Hp).
    split; [tracked|].
    rewrite pending_after_delete_models by done.
    rewrite count_cons, count_nil, is_result_own_models. lia.
  - unfold ret. cbn [state trace value]. split; [done|].
    rewrite count_nil. lia.
Qed.

(** The disabled follow-up message is answered at once, and a reply to a
    follow-up message uses up its record. *)
Lemma send_message_at_most replies env ws sid message :
  at_most (message_tally replies) (if replies then 1 else 0)
    (handleClientMessage env ws (c_send_message sid message)).
Proof.
  intros h Hh. unfold handleClientMessage, ws_send. cbn [state trace value].
  split; [done|]. rewrite count_cons, count_nil.
  destruct replies; simpl; lia.
Qed.

Lemma send_message_result_at_most replies env ws sid rid success composerId
    err :
  at_most (message_tally replies) 0
    (handleExtensionMessage env ws
       (x_send_message_result sid rid success composerId err)).
Proof.
  intros h Hh. unfold handleExtensionMessage. rewrite bind_gets.
  destruct (JsMap.get rid (pendingMessageRequests h)) as [p|] eqn:Hp.
  - rewrite delete_and_send. cbn [state trace value].
    split; [tracked|]. rewrite count_cons, count_nil.
    apply length_delete in Hp.
    cbn [owed message_tally pendingMessageRequests
         with_pendingMessageRequests].
    destruct (counted _ _); lia.
  - unfold ret. cbn [state trace value]. split; [done|].
    rewrite count_nil. lia.
Qed.

(** *** The loops of the sweep *)

Lemma expire_message_request_eq env k req :
  expire_message_request env (k, req)
  = if expired (now_ms env) (pmr_timestamp req) then
      run modify (with_pendingMessageRequests (JsMap.delete k));
      ws_send_quietly (net env) (pmr_clientWs req)
        (to_client
           (s_send_message_result (pmr_sessionId req) false None TIMED_OUT))
    else ret tt.
Proof. done. Qed.

Lemma expire_enabled_models_request_eq env k req :
  expire_enabled_models_request env (k, req)
  = if expired (now_ms env) (pem_timestamp req) then
      run modify (with_pendingEnabledModelsRequests (JsMap.delete k));
      ws_send_quietly (net env) (pem_clientWs req)
        (to_client
           (s_enabled_models_result k (pem_instanceId req) false None
              TIMED_OUT))
    else ret tt.
Proof. done. Qed.

Lemma expire_create_chat_request_eq env k req :
  expire_create_chat_request env (k, req)
  = if expired (now_ms env) (pcc_timestamp req) then
      run modify (with_pendingCreateChatRequests (JsMap.delete k));
      ws_send_quietly (net env) (pcc_clientWs req)
        (to_client (s_create_chat_result k false None TIMED_OUT))
    else ret tt.
Proof. done. Qed.

Lemma expire_message_request_run env k req h :
  expire_message_request env (k, req) h
  = if expired (now_ms env) (pmr_timestamp req)
    then mkRun (with_pendingMessageRequests (JsMap.delete k) h)
           [message_timeout_result req] (Normal tt)
    else mkRun h [] (Normal tt).
Proof.
  rewrite expire_message_request_eq.
  destruct (expired _ _); [apply delete_and_send|done].
Qed.

Lemma expire_enabled_models_request_run env k req h :
  expire_enabled_models_request env (k, req) h
  = if expired (now_ms env) (pem_timestamp req)
    then mkRun (with_pendingEnabledModelsRequests (JsMap.delete k) h)
           [models_timeout_result k req] (Normal tt)
    else mkRun h [] (Normal tt).
Proof.
  rewrite expire_enabled_models_request_eq.
  destruct (expired _ _); [apply delete_and_send|done].
Qed.

Lemma expire_create_chat_request_run env k req h :
  expire_create_chat_request env (k, req) h
  = if expired (now_ms env) (pcc_timestamp req)
    then mkRun (with_pendingCreateChatRequests (JsMap.delete k) h)
           [timeout_result k req] (Normal tt)
    else mkRun h [] (Normal tt).
Proof.
  rewrite expire_create_chat_request_eq.
  destruct (expired _ _); [apply delete_and_send|done].
Qed.

(** A loop of the sweep over one of the pending maps: [proj] reads the map,
    [upd] changes it, [old] tells whether a record has expired, [reply] is
    the failure that is sent for it, and [body] is the body of the loop. *)
Section SweepLoop.
Context {V : Type} (proj : Hub → JsMap.t V)
  (upd : (JsMap.t V → JsMap.t V) → Hub → Hub)
  (old : Env → V → bool) (reply : string → V → Effect)
  (body : Env → string * V → HubM unit).
Hypothesis proj_upd : ∀ f h, proj (upd f h) = f (proj h).
Hypothesis body_run : ∀ env k req h,
  body env (k, req) h
  = if old env req
    then mkRun (upd (JsMap.delete k) h) [reply k req] (Normal tt)
    else mkRun h [] (Normal tt).

Lemma loop_cons env k req rest h :
  for_of ((k, req) :: rest) (body env) h
  = if old env req
    then mkRun (state (for_of rest (body env) (upd (JsMap.delete k) h)))
           (reply k req
            :: trace (for_of rest (body env) (upd (JsMap.delete k) h)))
           (value (for_of rest (body env) (upd (JsMap.delete k) h)))
    else for_of rest (body env) h.
Proof.
  cbn [for_of]. unfold bind. rewrite body_run.
  destruct (old env req); cbn [state trace value app]; [done|].
  by destruct (for_of rest (body env) h).
Qed.

Lemma loop_normal env entries h :
  value (for_of entries (body env) h) = Normal tt.
Proof.
  revert h. induction entries as [|[k req] rest IH]; intros h; [done|].
  rewrite loop_cons. destruct (old env req); cbn [value]; apply IH.
Qed.

(** The loop leaves alone what [upd] leaves alone. *)
Lemma loop_frame {X} (g : Hub → X) env entries h :
  (∀ f h, g (upd f h) = g h) →
  g (state (for_of entries (body env) h)) = g h.
Proof.
  intros Hg. revert h.
  induction entries as [|[k req] rest IH]; intros h; [done|].
  rewrite loop_cons. destruct (old env req); cbn [state]; [|apply IH].
  by rewrite IH, Hg.
Qed.

(** The loop never restores a record. *)
Lemma loop_keeps_None rid env entries h :
  JsMap.get rid (proj h) = None →
  JsMap.get rid (proj (state (for_of entries (body env) h))) = None.
Proof.
  revert h. induction entries as [|[k req] rest IH]; intros h Hnone; [done|].
  rewrite loop_cons. destruct (old env req); cbn [state]; [|by apply IH].
  apply IH. rewrite proj_upd. by apply get_delete_None.
Qed.

(** It deletes an expired record and sends its failure result. *)
Lemma loop_expired rid p env entries h :
  (rid, p) ∈ entries → old env p = true →
  NoDup (JsMap.keys (proj h)) →
  reply rid p ∈ trace (for_of entries (body env) h)
  ∧ JsMap.get rid (proj (state (for_of entries (body env) h))) = None.
Proof.
  intros Hin Hexp. revert h.
  induction entries as [|[k req] rest IH]; intros h Hh;
    [by apply elem_of_nil in Hin|].
  rewrite loop_cons.
  apply elem_of_cons in Hin as [[= <- <-]|Hin].
  - rewrite Hexp. cbn [state trace]. split; [apply elem_of_cons; by left|].
    apply loop_keeps_None. rewrite proj_upd. by apply get_delete_eq.
  - destruct (old env req); cbn [state trace]; [|by apply IH].
    destruct (IH Hin (upd (JsMap.delete k) h)) as [Ht Hg].
    { rewrite proj_upd. by apply NoDup_keys_delete. }
    split; [apply elem_of_cons; by right|done].
Qed.

(** It keeps a record that has not expired. *)
Lemma loop_unexpired rid env entries h :
  (∀ p, (rid, p) ∈ entries → old env p = false) →
  JsMap.get rid (proj (state (for_of entries (body env) h)))
  = JsMap.get rid (proj h).
Proof.
  revert h. induction entries as [|[k req] rest IH]; intros h Hno; [done|].
  rewrite loop_cons.
  assert (∀ p, (rid, p) ∈ rest → old env p = false) as Hrest
    by (intros p Hp; apply Hno, elem_of_cons; by right).
  destruct (old env req) eqn:Hexp; cbn [state]; [|by apply IH].
  rewrite IH by done. rewrite proj_upd.
  apply get_delete_ne. intros ->.
  rewrite Hno in Hexp; [done|]. apply elem_of_cons. by left.
Qed.

(** Every result that the loop sends uses up a record. *)
Lemma loop_settles (T : Tally) env entries h :
  (∀ k req h,
     tracked_unique h → is_Some (JsMap.get k (proj h)) →
     tracked_unique (upd (JsMap.delete k) h)
     ∧ ((if counted T (reply k req) then 1 else 0)
        + owed T (upd (JsMap.delete k) h) ≤ owed T h)%nat) →
  NoDup (JsMap.keys entries) → tracked_unique h →
  (∀ k, k ∈ JsMap.keys entries → is_Some (JsMap.get k (proj h))) →
  tracked_unique (state (for_of entries (body env) h))
  ∧ (count (counted T) (trace (for_of entries (body env) h))
     + owed T (state (for_of entries (body env) h)) ≤ owed T h)%nat.
Proof.
  intros Hstep. revert h.
  induction entries as [|[k req] rest IH]; intros h Hnd Hh Hin.
  - cbn [for_of]. unfold ret. cbn [state trace value].
    split; [done|]. rewrite count_nil. lia.
  - apply NoDup_cons in Hnd as [Hk Hnd]. rewrite loop_cons.
    destruct (old env req); cbn [state trace].
    + destruct (Hstep k req h Hh) as [Hu Hle].
      { apply Hin, elem_of_cons. by left. }
      destruct (IH (upd (JsMap.delete k) h) Hnd Hu) as [Hu' Hle'].
      { intros k' Hk'. rewrite proj_upd.
        rewrite get_delete_ne by (intros ->; done).
        apply Hin, elem_of_cons. by right. }
      split; [done|]. rewrite count_cons. lia.
    + apply IH; [done|done|].
      intros k' Hk'. apply Hin, elem_of_cons. by right.
Qed.
End SweepLoop.

(** The sweep is its three loops, one after the other, each over the
    records that its map holds when the sweep starts. *)
Lemma sweep_run env h :
  let o1 := for_of (pendingMessageRequests h) (expire_message_request env) h in
  let o2 :=
    for_of (pendingEnabledModelsRequests h)
      (expire_enabled_models_request env) (state o1) in
  let o3 :=
    for_of (pendingCreateChatRequests h)
      (expire_create_chat_request env) (state o2) in
  sweep env h = mkRun (state o3) (trace o1 ++ trace o2 ++ trace o3) (Normal tt)
  ∧ pendingEnabledModelsRequests (state o1) = pendingEnabledModelsRequests h
  ∧ pendingCreateChatRequests (state o2) = pendingCreateChatRequests h
  ∧ pendingEnabledModelsRequests (state o3)
    = pendingEnabledModelsRequests (state o2)
  ∧ pendingMessageRequests (state o3) = pendingMessageRequests (state o1).
Proof.
  intros o1 o2 o3.
  pose proof (loop_normal with_pendingMessageRequests _ _ _
                expire_message_request_run env (pendingMessageRequests h) h)
    as Hv1. fold o1 in Hv1.
  pose proof (loop_normal with_pendingEnabledModelsRequests _ _ _
                expire_enabled_models_request_run env
                (pendingEnabledModelsRequests h) (state o1)) as Hv2.
  fold o2 in Hv2.
  pose proof (loop_normal with_pendingCreateChatRequests _ _ _
                expire_create_chat_request_run env
                (pendingCreateChatRequests h) (state o2)) as Hv3.
  fold o3 in Hv3.
  assert (pendingEnabledModelsRequests (state o1)
          = pendingEnabledModelsRequests h) as He1
    by exact (loop_frame with_pendingMessageRequests _ _ _
                expire_message_request_run pendingEnabledModelsRequests
                env _ h (λ _ _, eq_refl)).
  assert (pendingCreateChatRequests (state o1)
          = pendingCreateChatRequests h) as Hc1
    by exact (loop_frame with_pendingMessageRequests _ _ _
                expire_message_request_run pendingCreateChatRequests
                env _ h (λ _ _, eq_refl)).
  assert (pendingCreateChatRequests (state o2)
          = pendingCreateChatRequests (state o1)) as Hc2
    by exact (loop_frame with_pendingEnabledModelsRequests _ _ _
                expire_enabled_models_request_run pendingCreateChatRequests
                env _ (state o1) (λ _ _, eq_refl)).
  assert (pendingMessageRequests (state o2)
          = pendingMessageRequests (state o1)) as Hm2
    by exact (loop_frame with_pendingEnabledModelsRequests _ _ _
                expire_enabled_models_request_run pendingMessageRequests
                env _ (state o1) (λ _ _, eq_refl)).
  assert (pendingEnabledModelsRequests (state o3)
          = pendingEnabledModelsRequests (state o2)) as He3
    by exact (loop_frame with_pendingCreateChatRequests _ _ _
                expire_create_chat_request_run pendingEnabledModelsRequests
                env _ (state o2) (λ _ _, eq_refl)).
  assert (pendingMessageRequests (state o3)
          = pendingMessageRequests (state o2)) as Hm3
    by exact (loop_frame with_pendingCreateChatRequests _ _ _
                expire_create_chat_request_run pendingMessageRequests
                env _ (state o2) (λ _ _, eq_refl)).
  split; [|split; [done|]; split; [congruence|]; split; [done|congruence]].
  unfold sweep. rewrite bind_gets.
  rewrite (bind_run _ _ _ _ _ _ (run_normal _ _ Hv1)). rewrite bind_gets.
  fold o1. rewrite He1.
  rewrite (bind_run _ _ _ _ _ _ (run_normal _ _ Hv2)). rewrite bind_gets.
  fold o2. rewrite Hc2, Hc1. fold o3.
  cbn [state trace value]. by rewrite Hv3.
Qed.

Lemma calm_message_loop T env entries :
  (∀ p, counted T (message_timeout_result p) = false) →
  (∀ k h, owed T (with_pendingMessageRequests (JsMap.delete k) h) = owed T h) →
  calm T (for_of entries (expire_message_request env)).
Proof.
  intros Hc Ho. apply calm_for_of. intros [k req].
  rewrite expire_message_request_eq. unfold ws_send_quietly. calm.
  apply calm_ws_send, Hc.
Qed.

Lemma calm_models_loop T env entries :
  (∀ k p, counted T (models_timeout_result k p) = false) →
  (∀ k h,
     owed T (with_pendingEnabledModelsRequests (JsMap.delete k) h)
     = owed T h) →
  calm T (for_of entries (expire_enabled_models_request env)).
Proof.
  intros Hc Ho. apply calm_for_of. intros [k req].
  rewrite expire_enabled_models_request_eq. unfold ws_send_quietly. calm.
  apply calm_ws_send, Hc.
Qed.

Lemma calm_chat_loop T env entries :
  (∀ k p, counted T (timeout_result k p) = false) →
  (∀ k h,
     owed T (with_pendingCreateChatRequests (JsMap.delete k) h) = owed T h) →
  calm T (for_of entries (expire_create_chat_request env)).
Proof.
  intros Hc Ho. apply calm_for_of. intros [k req].
  rewrite expire_create_chat_request_eq. unfold ws_send_quietly. calm.
  apply calm_ws_send, Hc.
Qed.

(** An expired create-chat record is deleted with its one result. *)
Lemma chat_loop_settles rid env entries h :
  NoDup (JsMap.keys entries) → tracked_unique h →
  (∀ k, k ∈ JsMap.keys entries →
        is_Some (JsMap.get k (pendingCreateChatRequests h))) →
  tracked_unique (state (for_of entries (expire_create_chat_request env) h))
  ∧ (count (is_result create_chat rid)
       (trace (for_of entries (expire_create_chat_request env) h))
     + pending create_chat rid
         (state (for_of entries (expire_create_chat_request env) h))
     ≤ pending create_chat rid h)%nat.
Proof.
  apply (loop_settles pendingCreateChatRequests with_pendingCreateChatRequests
           _ _ _ (λ _ _, eq_refl) expire_create_chat_request_run
           (tally_of create_chat rid)).
  intros k req h' Hh' [p Hp]. split; [tracked|].
  cbn [counted owed tally_of timeout_result is_result].
  destruct (String.eqb_spec k rid) as [->|Hne].
  - rewrite pending_after_delete_chat by done.
    unfold pending. rewrite Hp. lia.
  - unfold pending. simpl. rewrite get_delete_ne by done. lia.
Qed.

Lemma models_loop_settles rid env entries h :
  NoDup (JsMap.keys entries) → tracked_unique h →
  (∀ k, k ∈ JsMap.keys entries →
        is_Some (JsMap.get k (pendingEnabledModelsRequests h))) →
  tracked_unique
    (state (for_of entries (expire_enabled_models_request env) h))
  ∧ (count (is_result enabled_models rid)
       (trace (for_of entries (expire_enabled_models_request env) h))
     + pending enabled_models rid
         (state (for_of entries (expire_enabled_models_request env) h))
     ≤ pending enabled_models rid h)%nat.
Proof.
  apply (loop_settles pendingEnabledModelsRequests
           with_pendingEnabledModelsRequests
           _ _ _ (λ _ _, eq_refl) expire_enabled_models_request_run
           (tally_of enabled_models rid)).
  intros k req h' Hh' [p Hp]. split; [tracked|].
  cbn [counted owed tally_of models_timeout_result is_result].
  destruct (String.eqb_spec k rid) as [->|Hne].
  - rewrite pending_after_delete_models by done.
    unfold pending. rewrite Hp. lia.
  - unfold pending. simpl. rewrite get_delete_ne by done. lia.
Qed.

Lemma message_loop_settles replies env entries h :
  NoDup (JsMap.keys entries) → tracked_unique h →
  (∀ k, k ∈ JsMap.keys entries →
        is_Some (JsMap.get k (pendingMessageRequests h))) →
  tracked_unique (state (for_of entries (expire_message_request env) h))
  ∧ (count (counted (message_tally replies))
       (trace (for_of entries (expire_message_request env) h))
     + length
         (pendingMessageRequests
            (state (for_of entries (expire_message_request env) h)))
     ≤ length (pendingMessageRequests h))%nat.
Proof.
  apply (loop_settles pendingMessageRequests with_pendingMessageRequests
           _ (λ _, message_timeout_result) _ (λ _ _, eq_refl)
           expire_message_request_run (message_tally replies)).
  intros k req h' Hh' [p Hp]. split; [tracked|].
  apply length_delete in Hp.
  cbn [owed message_tally pendingMessageRequests with_pendingMessageRequests].
  destruct (counted _ _); lia.
Qed.

Lemma sweep_at_most_chat rid env :
  at_most (tally_of create_chat rid) 0 (sweep env).
Proof.
  intros h Hh.
  destruct (sweep_run env h) as (-> & He1 & Hc2 & _). cbn [state trace].
  set (T := tally_of create_chat rid).
  destruct (calm_message_loop T env (pendingMessageRequests h)
              ltac:(done) ltac:(done) h Hh) as (Hu1 & Ho1 & Hn1).
  destruct (calm_models_loop T env (pendingEnabledModelsRequests h)
              ltac:(done) ltac:(done) _ Hu1) as (Hu2 & Ho2 & Hn2).
  destruct (chat_loop_settles rid env (pendingCreateChatRequests h) _
              ltac:(by destruct Hh as (_ & _ & ?)) Hu2) as [Hu3 Hle].
  { intros k Hk. rewrite Hc2. by apply keys_get_is_Some. }
  split; [done|]. rewrite !count_app.
  cbn [counted owed T tally_of] in *. lia.
Qed.

Lemma sweep_at_most_models rid env :
  at_most (tally_of enabled_models rid) 0 (sweep env).
Proof.
  intros h Hh.
  destruct (sweep_run env h) as (-> & He1 & Hc2 & _). cbn [state trace].
  set (T := tally_of enabled_models rid).
  destruct (calm_message_loop T env (pendingMessageRequests h)
              ltac:(done) ltac:(done) h Hh) as (Hu1 & Ho1 & Hn1).
  destruct (models_loop_settles rid env (pendingEnabledModelsRequests h) _
              ltac:(by destruct Hh as (_ & ? & _)) Hu1) as [Hu2 Hle].
  { intros k Hk. rewrite He1. by apply keys_get_is_Some. }
  destruct (calm_chat_loop T env (pendingCreateChatRequests h)
              ltac:(done) ltac:(done) _ Hu2) as (Hu3 & Ho3 & Hn3).
  split; [done|]. rewrite !count_app.
  cbn [counted owed T tally_of] in *. lia.
Qed.

Lemma sweep_at_most_messages replies env :
  at_most (message_tally replies) 0 (sweep env).
Proof.
  intros h Hh.
  destruct (sweep_run env h) as (-> & He1 & Hc2 & _). cbn [state trace].
  set (T := message_tally replies).
  destruct (message_loop_settles replies env (pendingMessageRequests h) _
              ltac:(by destruct Hh as (? & _ & _)) Hh) as [Hu1 Hle].
  { intros k Hk. by apply keys_get_is_Some. }
  destruct (calm_models_loop T env (pendingEnabledModelsRequests h)
              ltac:(by destruct replies) ltac:(done) _ Hu1)
    as (Hu2 & Ho2 & Hn2).
  destruct (calm_chat_loop T env (pendingCreateChatRequests h)
              ltac:(by destruct replies) ltac:(done) _ Hu2)
    as (Hu3 & Ho3 & Hn3).
  split; [done|]. rewrite !count_app.
  cbn [counted owed T message_tally] in *. lia.
Qed.

(** *** One turn of the event loop *)

(** One turn of the event loop sends at most one result for [rid] beyond
    the one that its pending record allows, and only for a request. *)
Lemma hub_handle_at_most_chat rid env e :
  at_most (tally_of create_chat rid)
    (if is_request create_chat rid e then 1 else 0) (hub_handle env e).
Proof.
  pose proof (counts_results_only_tally_of create_chat rid) as HT.
  assert (∀ f h, owed (tally_of create_chat rid) (with_registry f h)
                 = owed (tally_of create_chat rid) h) as HO by done.
  destruct e as [ws valid|ws [message|]|ws|ws|ws [message|]|ws|];
    cbn [hub_handle is_request].
  - apply calm_at_most. unfold handleClientConnection. calm.
  - unfold client_on_message.
    destruct message as [| | | | | |requestId iid
                         |rid' target prompt unifiedMode modelName maxMode];
      try (apply calm_at_most;
           unfold handleClientMessage, update_client, ws_send_quietly;
           calm; fail).
    destruct (String.eqb_spec rid' rid) as [->|Hne].
    + change 1 with (1 + 0). apply at_most_try_catch.
      * apply create_chat_at_most.
      * intros err. apply calm_at_most. calm.
    + apply calm_at_most.
      assert (String.eqb rid' rid = false) as Hneb
        by by apply String.eqb_neq.
      unfold handleClientMessage, ws_send_quietly. calm;
        try (apply calm_ws_send; simpl; done);
        apply calm_modify; intros h Hh; (split; [tracked|]);
        simpl; unfold pending; simpl.
      * by rewrite get_set_ne.
      * by rewrite get_delete_ne.
  - apply calm_at_most. unfold client_on_message. calm.
  - apply calm_at_most. unfold client_on_close. calm.
  - apply calm_at_most. unfold handleExtensionConnection. calm.
  - unfold extension_on_message.
    destruct message as [data| |session|sid session|sid|event
                         |sid requestId success composerId err
                         |requestId iid success models err
                         |rid' success composerId err];
      try (apply calm_at_most;
           unfold handleExtensionMessage, update_extension, ws_send_quietly;
           calm; try (by apply calm_in_registry); fail).
    destruct (String.eqb_spec rid' rid) as [->|Hne].
    + change 0 with (0 + 0). apply at_most_try_catch.
      * apply create_chat_result_at_most.
      * intros e. apply calm_at_most. calm.
    + apply calm_at_most.
      assert (String.eqb rid' rid = false) as Hneb by by apply String.eqb_neq.
      unfold handleExtensionMessage, ws_send_quietly. calm;
        try (apply calm_ws_send; simpl; done).
      apply calm_modify. intros h Hh. split; [tracked|].
      simpl. unfold pending. simpl. by rewrite get_delete_ne.
  - apply calm_at_most. unfold extension_on_message. calm.
  - apply calm_at_most. unfold extension_on_close. calm;
      by apply calm_in_registry.
  - apply sweep_at_most_chat.
Qed.

Lemma hub_handle_at_most_models rid env e :
  at_most (tally_of enabled_models rid)
    (if is_request enabled_models rid e then 1 else 0) (hub_handle env e).
Proof.
  pose proof (counts_results_only_tally_of enabled_models rid) as HT.
  assert (∀ f h, owed (tally_of enabled_models rid) (with_registry f h)
                 = owed (tally_of enabled_models rid) h) as HO by done.
  destruct e as [ws valid|ws [message|]|ws|ws|ws [message|]|ws|];
    cbn [hub_handle is_request].
  - apply calm_at_most. unfold handleClientConnection. calm.
  - unfold client_on_message.
    destruct message as [| | | | | |rid' target
                         |requestId target prompt unifiedMode modelName
                            maxMode];
      try (apply calm_at_most;
           unfold handleClientMessage, update_client, ws_send_quietly;
           calm; fail).
    destruct (String.eqb_spec rid' rid) as [->|Hne].
    + change 1 with (1 + 0). apply at_most_try_catch.
      * apply get_enabled_models_at_most.
      * intros err. apply calm_at_most. calm.
    + apply calm_at_most.
      assert (String.eqb rid' rid = false) as Hneb
        by by apply String.eqb_neq.
      unfold handleClientMessage, ws_send_quietly. calm;
        try (apply calm_ws_send; simpl; done);
        apply calm_modify; intros h Hh; (split; [tracked|]);
        simpl; unfold pending; simpl.
      * by rewrite get_set_ne.
      * by rewrite get_delete_ne.
  - apply calm_at_most. unfold client_on_message. calm.
  - apply calm_at_most. unfold client_on_close. calm.
  - apply calm_at_most. unfold handleExtensionConnection. calm.
  - unfold extension_on_message.
    destruct message as [data| |session|sid session|sid|event
                         |sid requestId success composerId err
                         |rid' iid success models err
                         |requestId success composerId err];
      try (apply calm_at_most;
           unfold handleExtensionMessage, update_extension, ws_send_quietly;
           calm; try (by apply calm_in_registry); fail).
    destruct (String.eqb_spec rid' rid) as [->|Hne].
    + change 0 with (0 + 0). apply at_most_try_catch.
      * apply enabled_models_result_at_most.
      * intros e. apply calm_at_most. calm.
    + apply calm_at_most.
      assert (String.eqb rid' rid = false) as Hneb by by apply String.eqb_neq.
      unfold handleExtensionMessage, ws_send_quietly. calm;
        try (apply calm_ws_send; simpl; done).
      apply calm_modify. intros h Hh. split; [tracked|].
      simpl. unfold pending. simpl. by rewrite get_delete_ne.
  - apply calm_at_most. unfold extension_on_message. calm.
  - apply calm_at_most. unfold extension_on_close. calm;
      by apply calm_in_registry.
  - apply sweep_at_most_models.
Qed.

Lemma hub_handle_at_most kind rid env e :
  at_most (tally_of kind rid)
    (if asked (tally_of kind rid) e then 1 else 0) (hub_handle env e).
Proof.
  destruct kind;
    [apply hub_handle_at_most_models|apply hub_handle_at_most_chat].
Qed.

(** The same for the results of follow-up messages, which are sent for a
    request or use up a record. *)
Lemma hub_handle_at_most_messages replies env e :
  at_most (message_tally replies)
    (if asked (message_tally replies) e then 1 else 0) (hub_handle env e).
Proof.
  pose proof (counts_results_only_message_tally replies) as HT.
  assert (∀ f h, owed (message_tally replies) (with_registry f h)
                 = owed (message_tally replies) h) as HO by done.
  destruct e as [ws valid|ws [message|]|ws|ws|ws [message|]|ws|];
    cbn [hub_handle asked message_tally is_message_request];
    rewrite ?andb_false_r, ?andb_true_r.
  - apply calm_at_most. unfold handleClientConnection.
    destruct replies; calm.
  - unfold client_on_message.
    destruct message as [| | | | |sid message|requestId iid
                         |requestId target prompt unifiedMode modelName
                            maxMode];
      cbn [is_message_request]; rewrite ?andb_false_r, ?andb_true_r;
      try (apply calm_at_most;
           unfold handleClientMessage, update_client, ws_send_quietly;
           destruct replies; calm; fail).
    replace (if replies then 1 else 0)
      with ((if replies then 1 else 0) + 0) by lia.
    apply at_most_try_catch.
    + apply send_message_at_most.
    + intros err. apply calm_at_most. destruct replies; calm.
  - apply calm_at_most. unfold client_on_message. destruct replies; calm.
  - apply calm_at_most. unfold client_on_close. calm.
  - apply calm_at_most. unfold handleExtensionConnection. calm.
  - unfold extension_on_message.
    destruct message as [data| |session|sid session|sid|event
                         |sid requestId success composerId err
                         |requestId iid success models err
                         |requestId success composerId err];
      try (apply calm_at_most;
           unfold handleExtensionMessage, update_extension, ws_send_quietly;
           destruct replies; calm; try (by apply calm_in_registry); fail).
    change 0 with (0 + 0).
    apply at_most_try_catch.
    + apply send_message_result_at_most.
    + intros e. apply calm_at_most. destruct replies; calm.
  - apply calm_at_most. unfold extension_on_message. destruct replies; calm.
  - apply calm_at_most. unfold extension_on_close. calm;
      by apply calm_in_registry.
  - apply sweep_at_most_messages.
Qed.

Lemma occurrences_cons asked env e es :
  occurrences asked ((env, e) :: es)
  = (if asked e then 1 else 0) + occurrences asked es.
Proof.
  unfold occurrences. rewrite filter_cons. simpl.
  destruct (asked e); by case_decide.
Qed.

Lemma hub_run_at_most T es h :
  (∀ env e, at_most T (if asked T e then 1 else 0) (hub_handle env e)) →
  tracked_unique h →
  tracked_unique (hub_run es h).1
  ∧ (count (counted T) (hub_run es h).2 + owed T (hub_run es h).1
     ≤ owed T h + occurrences (asked T) es)%nat.
Proof.
  intros Hstep. revert h. induction es as [|[env e] es IH]; intros h Hh.
  - cbn [hub_run fst snd]. split; [done|].
    rewrite count_nil. unfold occurrences. simpl. lia.
  - cbn [hub_run fst snd]. rewrite occurrences_cons, count_app.
    destruct (Hstep env e h Hh) as [Hu Hle].
    destruct (IH _ Hu) as [Hu' Hle']. split; [done|lia].
Qed.

Lemma tracked_unique_initially r : tracked_unique (createWebSocketManager r).
Proof. repeat split; apply NoDup_nil_2. Qed.

(** C6. For every request id and every kind of tracked request: over any
    run of the hub, the number of results sent for the id, plus one if a
    record is still pending, is at most the number of requests issued with
    it, so that each tracked request gets at most one result. This holds
    for the enabled-models and the create-chat requests, whose frames carry
    the request id. A producer reply for a pending id deletes the record
    and sends its one result to the consumer that issued the request; a
    sweep that finds the record older than 30 seconds deletes it and sends
    the synthetic failure, and otherwise keeps it; a producer reply for an
    id without a pending record does nothing. No follow-up message is ever
    tracked: its pending map stays empty, every result of that kind answers
    a request at once, and a producer reply of that kind is dropped. *)
Theorem at_most_one_result (rid : string) :
  (∀ kind r es,
     let end_ := hub_run es (createWebSocketManager r) in
     (results kind rid end_.2 + pending kind rid end_.1
      ≤ requests kind rid es)%nat)
  ∧ (∀ kind h es,
       tracked_unique h →
       let end_ := hub_run es h in
       (results kind rid end_.2 + pending kind rid end_.1
        ≤ pending kind rid h + requests kind rid es)%nat)
  ∧ (∀ env ws target prompt unifiedMode modelName maxMode h ext,
       find_extension target (extensions h) = Some ext →
       net env (x_ws ext) = None →
       JsMap.get rid
         (pendingCreateChatRequests
            (state
               (handleClientMessage env ws
                  (c_create_chat rid target prompt unifiedMode modelName
                     maxMode) h)))
       = Some (mkPendingCreateChat ws target rid (now_ms env)))
  ∧ (∀ env ws success composerId err h p,
       pending_unique h →
       JsMap.get rid (pendingCreateChatRequests h) = Some p →
       let o :=
         handleExtensionMessage env ws
           (x_create_chat_result rid success composerId err) h in
       trace o
       = [send (pcc_clientWs p)
            (to_client (s_create_chat_result rid success composerId err))]
       ∧ JsMap.get rid (pendingCreateChatRequests (state o)) = None
       ∧ value o = Normal tt)
  ∧ (∀ env ws success composerId err h,
       JsMap.get rid (pendingCreateChatRequests h) = None →
       handleExtensionMessage env ws
         (x_create_chat_result rid success composerId err) h
       = mkRun h [] (Normal tt))
  ∧ (∀ env h p,
       tracked_unique h →
       JsMap.get rid (pendingCreateChatRequests h) = Some p →
       let o := sweep env h in
       if expired (now_ms env) (pcc_timestamp p)
       then timeout_result rid p ∈ trace o
            ∧ results create_chat rid (trace o) = 1
            ∧ JsMap.get rid (pendingCreateChatRequests (state o)) = None
       else results create_chat rid (trace o) = 0
            ∧ JsMap.get rid (pendingCreateChatRequests (state o)) = Some p)
  ∧ (∀ env ws target h ext,
       find_extension target (extensions h) = Some ext →
       net env (x_ws ext) = None →
       JsMap.get rid
         (pendingEnabledModelsRequests
            (state
               (handleClientMessage env ws
                  (c_get_enabled_models rid target) h)))
       = Some (mkPendingEnabledModels ws target rid (now_ms env)))
  ∧ (∀ env ws iid success models err h p,
       tracked_unique h →
       JsMap.get rid (pendingEnabledModelsRequests h) = Some p →
       let o :=
         handleExtensionMessage env ws
           (x_enabled_models_result rid iid success models err) h in
       trace o
       = [send (pem_clientWs p)
            (to_client
               (s_enabled_models_result rid iid success models err))]
       ∧ JsMap.get rid (pendingEnabledModelsRequests (state o)) = None
       ∧ value o = Normal tt)
  ∧ (∀ env ws iid success models err h,
       JsMap.get rid (pendingEnabledModelsRequests h) = None →
       handleExtensionMessage env ws
         (x_enabled_models_result rid iid success models err) h
       = mkRun h [] (Normal tt))
  ∧ (∀ env h p,
       tracked_unique h →
       JsMap.get rid (pendingEnabledModelsRequests h) = Some p →
       let o := sweep env h in
       if expired (now_ms env) (pem_timestamp p)
       then models_timeout_result rid p ∈ trace o
            ∧ results enabled_models rid (trace o) = 1
            ∧ JsMap.get rid (pendingEnabledModelsRequests (state o)) = None
       else results enabled_models rid (trace o) = 0
            ∧ JsMap.get rid (pendingEnabledModelsRequests (state o))
              = Some p)
  ∧ (∀ r es,
       let end_ := hub_run es (createWebSocketManager r) in
       pendingMessageRequests end_.1 = []
       ∧ (message_results end_.2 ≤ message_requests es)%nat)
  ∧ (∀ h es,
       tracked_unique h →
       let end_ := hub_run es h in
       (message_results end_.2 + length (pendingMessageRequests end_.1)
        ≤ length (pendingMessageRequests h) + message_requests es)%nat)
  ∧ (∀ env ws sid success composerId err h,
       JsMap.get rid (pendingMessageRequests h) = None →
       handleExtensionMessage env ws
         (x_send_message_result sid rid success composerId err) h
       = mkRun h [] (Normal tt)).
Proof.
  assert (∀ h es,
            tracked_unique h →
            (message_results (hub_run es h).2
             + length (pendingMessageRequests (hub_run es h).1)
             ≤ length (pendingMessageRequests h) + message_requests es)%nat)
    as Hmessages.
  { intros h es Hh.
    by destruct (hub_run_at_most (message_tally true) es h
                   (hub_handle_at_most_messages true) Hh) as [_ Hle]. }
  split; [|split; [|split; [|split; [|split; [|split; [|split; [|split;
    [|split; [|split; [|split; [|split]]]]]]]]]]].
  - intros kind r es end_.
    destruct (hub_run_at_most (tally_of kind rid) es (createWebSocketManager r)
                (hub_handle_at_most kind rid) (tracked_unique_initially r))
      as [_ Hle].
    cbn [counted owed asked tally_of] in Hle.
    assert (pending kind rid (createWebSocketManager r) = 0) as Hzero
      by by destruct kind.
    subst end_. unfold results, requests. lia.
  - intros kind h es Hh end_.
    by destruct (hub_run_at_most (tally_of kind rid) es h
                   (hub_handle_at_most kind rid) Hh) as [_ Hle].
  - intros env ws target prompt unifiedMode modelName maxMode h ext Hext Hnet.
    unfold handleClientMessage. rewrite bind_gets, Hext, bind_modify.
    unfold try_catch, ws_send. cbn [state trace value]. rewrite Hnet.
    cbn [state pendingCreateChatRequests with_pendingCreateChatRequests].
    apply get_set_eq.
  - intros env ws success composerId err h p Hh Hp o. subst o.
    unfold handleExtensionMessage. rewrite bind_gets, Hp.
    rewrite delete_and_send. cbn [state trace value].
    split; [done|]. split; [|done]. simpl. by apply get_delete_eq.
  - intros env ws success composerId err h Hnone.
    unfold handleExtensionMessage. by rewrite bind_gets, Hnone.
  - intros env h p Hh Hp o.
    destruct (sweep_at_most_chat rid env h Hh) as [_ Hle]. fold o in Hle.
    cbn [counted owed tally_of] in Hle.
    assert (pending create_chat rid h = 1) as Hone
      by (unfold pending; by rewrite Hp).
    destruct (sweep_run env h) as (Heq & He1 & Hc2 & He3 & Hm3).
    cbv zeta in Heq, He1, Hc2, He3, Hm3.
    set (o1 := for_of (pendingMessageRequests h) _ h) in *.
    set (o2 := for_of (pendingEnabledModelsRequests h) _ (state o1)) in *.
    set (o3 := for_of (pendingCreateChatRequests h) _ (state o2)) in *.
    subst o. rewrite Heq in *. cbn [state trace] in *.
    destruct (expired (now_ms env) (pcc_timestamp p)) eqn:Hexp.
    + destruct (loop_expired pendingCreateChatRequests
                  with_pendingCreateChatRequests _ _ _ (λ _ _, eq_refl)
                  expire_create_chat_request_run rid p env
                  (pendingCreateChatRequests h) (state o2))
        as [Hin Hnone];
        [by apply get_Some_elem|done
        |rewrite Hc2; by destruct Hh as (_ & _ & ?)|].
      fold o3 in Hin, Hnone.
      split; [apply elem_of_app; right; apply elem_of_app; by right|].
      split; [|done].
      assert (0 < count (is_result create_chat rid)
                    (trace o1 ++ trace o2 ++ trace o3))%nat; [|unfold results; lia].
      apply (count_elem _ (timeout_result rid p));
        [|apply is_result_own_chat].
      apply elem_of_app; right; apply elem_of_app; by right.
    + pose proof (loop_unexpired pendingCreateChatRequests
                    with_pendingCreateChatRequests _ timeout_result _
                    (λ _ _, eq_refl)
                    expire_create_chat_request_run rid env
                    (pendingCreateChatRequests h) (state o2)) as Hkeep.
      fold o3 in Hkeep. rewrite Hc2, Hp in Hkeep.
      rewrite Hkeep.
      2:{ intros p' Hp'. apply elem_get in Hp'; [|by destruct Hh as (_ & _ & ?)].
          congruence. }
      split; [|done]. unfold pending in Hle. rewrite Hkeep in Hle.
      2:{ intros p' Hp'. apply elem_get in Hp'; [|by destruct Hh as (_ & _ & ?)].
          congruence. }
      unfold results. rewrite Hp in Hle. lia.
  - intros env ws target h ext Hext Hnet.
    unfold handleClientMessage. rewrite bind_gets, Hext, bind_modify.
    unfold try_catch, ws_send. cbn [state trace value]. rewrite Hnet.
    cbn [state pendingEnabledModelsRequests
         with_pendingEnabledModelsRequests].
    apply get_set_eq.
  - intros env ws iid success models err h p Hh Hp o. subst o.
    unfold handleExtensionMessage. rewrite bind_gets, Hp.
    rewrite delete_and_send. cbn [state trace value].
    split; [done|]. split; [|done]. simpl.
    apply get_delete_eq. by destruct Hh as (_ & ? & _).
  - intros env ws iid success models err h Hnone.
    unfold handleExtensionMessage. by rewrite bind_gets, Hnone.
  - intros env h p Hh Hp o.
    destruct (sweep_at_most_models rid env h Hh) as [_ Hle]. fold o in Hle.
    cbn [counted owed tally_of] in Hle.
    assert (pending enabled_models rid h = 1) as Hone
      by (unfold pending; by rewrite Hp).
    destruct (sweep_run env h) as (Heq & He1 & Hc2 & He3 & Hm3).
    cbv zeta in Heq, He1, Hc2, He3, Hm3.
    set (o1 := for_of (pendingMessageRequests h) _ h) in *.
    set (o2 := for_of (pendingEnabledModelsRequests h) _ (state o1)) in *.
    set (o3 := for_of (pendingCreateChatRequests h) _ (state o2)) in *.
    subst o. rewrite Heq in *. cbn [state trace] in *.
    rewrite He3.
    destruct (expired (now_ms env) (pem_timestamp p)) eqn:Hexp.
    + destruct (loop_expired pendingEnabledModelsRequests
                  with_pendingEnabledModelsRequests _ _ _ (λ _ _, eq_refl)
                  expire_enabled_models_request_run rid p env
                  (pendingEnabledModelsRequests h) (state o1))
        as [Hin Hnone];
        [by apply get_Some_elem|done
        |rewrite He1; by destruct Hh as (_ & ? & _)|].
      fold o2 in Hin, Hnone.
      split; [apply elem_of_app; right; apply elem_of_app; by left|].
      split; [|done].
      assert (0 < count (is_result enabled_models rid)
                    (trace o1 ++ trace o2 ++ trace o3))%nat;
        [|unfold results; lia].
      apply (count_elem _ (models_timeout_result rid p));
        [|apply is_result_own_models].
      apply elem_of_app; right; apply elem_of_app; by left.
    + pose proof (loop_unexpired pendingEnabledModelsRequests
                    with_pendingEnabledModelsRequests _ models_timeout_result
                    _ (λ _ _, eq_refl)
                    expire_enabled_models_request_run rid env
                    (pendingEnabledModelsRequests h) (state o1)) as Hkeep.
      fold o2 in Hkeep. rewrite He1, Hp in Hkeep.
      rewrite Hkeep.
      2:{ intros p' Hp'. apply elem_get in Hp'; [|by destruct Hh as (_ & ? & _)].
          congruence. }
      split; [|done]. unfold pending in Hle. rewrite He3, Hkeep in Hle.
      2:{ intros p' Hp'. apply elem_get in Hp'; [|by destruct Hh as (_ & ? & _)].
          congruence. }
      unfold results. rewrite Hp in Hle. lia.
  - intros r es end_. subst end_.
    destruct (hub_run_at_most (message_tally false) es
                (createWebSocketManager r)
                (hub_handle_at_most_messages false)
                (tracked_unique_initially r)) as [_ Hle].
    cbn [counted owed asked message_tally] in Hle.
    pose proof (Hmessages (createWebSocketManager r) es
                  (tracked_unique_initially r)) as Hle'.
    assert (occurrences (λ e, false && is_message_request e) es = 0) as Hzero.
    { unfold occurrences. clear.
      induction es as [|[env e] es IH]; [done|].
      by rewrite filter_cons_False. }
    rewrite Hzero in Hle.
    change (length (pendingMessageRequests (createWebSocketManager r)))
      with 0 in Hle, Hle'.
    split; [|lia].
    destruct (pendingMessageRequests _); [done|simpl in Hle; lia].
  - intros h es Hh end_. by apply Hmessages.
  - intros env ws sid success composerId err h Hnone.
    unfold handleExtensionMessage. by rewrite bind_gets, Hnone.
Qed.

Lemma at_most_one_result_witness :
  tracked_unique hub_with_pending_request
  ∧ JsMap.get "r1" (pendingCreateChatRequests hub_with_pending_request)
    = Some pending_r1
  ∧ expired (now_ms late_env) (pcc_timestamp pending_r1) = true
  ∧ (let o := sweep late_env hub_with_pending_request in
     (timeout_result "r1" pending_r1 ∈ trace o
      ∧ results create_chat "r1" (trace o) = 1
      ∧ JsMap.get "r1" (pendingCreateChatRequests (state o)) = None)
     ∧ handleExtensionMessage late_env 10
         (x_create_chat_result "r1" true (Some "c1") None) (state o)
       = mkRun (state o) [] (Normal tt)).
Proof.
  assert (tracked_unique hub_with_pending_request) as Hu.
  { unfold tracked_unique, pending_unique.
    assert (JsMap.keys (pendingMessageRequests hub_with_pending_request)
            = []) as -> by (vm_compute; reflexivity).
    assert (JsMap.keys (pendingEnabledModelsRequests hub_with_pending_request)
            = []) as -> by (vm_compute; reflexivity).
    assert (JsMap.keys (pendingCreateChatRequests hub_with_pending_request)
            = ["r1"]) as -> by (vm_compute; reflexivity).
    split; [apply NoDup_nil_2|]. split; [apply NoDup_nil_2|].
    apply NoDup_singleton. }
  assert (JsMap.get "r1" (pendingCreateChatRequests hub_with_pending_request)
          = Some pending_r1) as Hp by (vm_compute; reflexivity).
  assert (expired (now_ms late_env) (pcc_timestamp pending_r1) = true) as Hexp
    by (vm_compute; reflexivity).
  destruct (at_most_one_result "r1") as (_ & _ & _ & _ & Hmiss & Hsweep & _).
  specialize (Hsweep late_env hub_with_pending_request pending_r1 Hu Hp).
  cbv zeta in Hsweep. rewrite Hexp in Hsweep.
  exact (conj Hu (conj Hp (conj Hexp
           (conj Hsweep
              (Hmiss late_env 10 true (Some "c1") None _
                 (proj2 (proj2 Hsweep))))))).
Defined.

(** ** Transcript file names *)

Lemma safe_id_cons c s :
  safe_id (String c s) ↔ safe_char c = true ∧ safe_id s.
Proof.
  unfold safe_id. simpl. split.
  - intros [= Hc Hs]. split; [|done].
    destruct (safe_char c) eqn:Hsafe; [done|]. by rewrite <- Hc in Hsafe.
  - intros [-> ->]. done.
Qed.

Lemma getTranscriptFile_safe sid :
  safe_id sid → getTranscriptFile sid = sid +:+ ".jsonl".
Proof. unfold getTranscriptFile, safe_id. by intros ->. Qed.

Lemma endsWith_jsonl s : endsWith ".jsonl" (s +:+ ".jsonl") = true.
Proof.
  induction s as [|c s IH]; [done|].
  change (endsWith ".jsonl" (String c s +:+ ".jsonl"))
    with (if String.eqb (String c (s +:+ ".jsonl")) ".jsonl" then true
          else endsWith ".jsonl" (s +:+ ".jsonl")).
  rewrite IH. by destruct (String.eqb (String c (s +:+ ".jsonl")) ".jsonl").
Qed.

Lemma replace_first_jsonl sid :
  safe_id sid → replace_first ".jsonl" "" (sid +:+ ".jsonl") = sid.
Proof.
  induction sid as [|c s IH]; [done|].
  intros [Hc Hs]%safe_id_cons.
  change (String c s +:+ ".jsonl") with (String c (s +:+ ".jsonl")).
  cbn [replace_first].
  assert (String.prefix ".jsonl" (String c (s +:+ ".jsonl")) = false) as ->.
  { cbn [String.prefix]. destruct (ascii_dec "."%char c) as [<-|]; done. }
  by rewrite IH.
Qed.


Lemma getTranscriptFile_inj sid1 sid2 :
  safe_id sid1 → safe_id sid2 →
  getTranscriptFile sid1 = getTranscriptFile sid2 → sid1 = sid2.
Proof.
  intros H1 H2. rewrite !getTranscriptFile_safe by done. revert sid2 H1 H2.
  induction sid1 as [|c1 s1 IH]; intros [|c2 s2] H1 H2; simpl; try done.
  - intros [= <- _]. by apply safe_id_cons in H2 as [? _].
  - intros [= -> _]. by apply safe_id_cons in H1 as [? _].
  - apply safe_id_cons in H1 as [_ H1]. apply safe_id_cons in H2 as [_ H2].
    intros [= -> Heq]. f_equal. by apply IH.
Qed.

Lemma log_of_restart p sid : log_of (restart_of p) sid = log_of p sid.
Proof. done. Qed.

(** ** Replaying the transcript logs *)










(** ** The registry and its durable log *)






(** *** Lifecycle records *)

Lemma get_set_is_Some {V} k k0 (v : V) m :
  is_Some (JsMap.get k m) → is_Some (JsMap.get k (JsMap.set k0 v m)).
Proof.
  intros Hk. destruct (decide (k0 = k)) as [->|Hne].
  - rewrite get_set_eq. by eexists.
  - by rewrite get_set_ne.
Qed.

Lemma get_set_Some {V} k k0 (v s : V) m :
  JsMap.get k (JsMap.set k0 v m) = Some s →
  (k = k0 ∧ s = v) ∨ (k ≠ k0 ∧ JsMap.get k m = Some s).
Proof.
  destruct (decide (k0 = k)) as [->|Hne].
  - rewrite get_set_eq. intros [= <-]. by left.
  - rewrite get_set_ne by done. intros Hk. right. split; [congruence|done].
Qed.


Lemma NoDup_keys_replay_record acc rec :
  NoDup (JsMap.keys acc) → NoDup (JsMap.keys (replay_record acc rec)).
Proof.
  intros Hacc. destruct rec as [s t|sid u t|sid t]; simpl.
  - by apply NoDup_keys_set.
  - destruct (JsMap.get sid acc); [by apply NoDup_keys_set|done].
  - destruct (JsMap.get sid acc); [by apply NoDup_keys_set|done].
Qed.






Lemma get_disconnect iid k (m : JsMap.t Session) :
  JsMap.get k (disconnect_session iid <$> m)
  = disconnected iid <$> JsMap.get k m.
Proof.
  induction m as [|[k0 s] m IH]; [done|].
  rewrite fmap_cons. unfold disconnect_session at 1. cbn [fst snd].
  destruct (owned_active iid s) eqn:Hown; cbn [JsMap.get];
    (destruct (String.eqb_spec k k0); [|apply IH]);
    unfold disconnected; cbn [fmap option_fmap option_map]; by rewrite Hown.
Qed.



Lemma elem_get_unique {V} k (v : V) m :
  NoDup (JsMap.keys m) → (k, v) ∈ m → JsMap.get k m = Some v.
Proof. apply elem_get. Qed.


(** *** Transcript events *)






(** *** Session changes, logged or not *)






(** *** The agreement is an invariant *)











(** *** Restart is not the identity *)




(** ** The access token *)

Lemma int32_small z : (0 ≤ z < 2 ^ 31)%Z → int32 z = z.
Proof.
  intros Hz. unfold int32. rewrite Z.mod_small; lia.
Qed.

Lemma log2_small a : (0 ≤ a < 2 ^ 16)%Z → (Z.log2 a < 16)%Z.
Proof.
  intros Ha. destruct (decide (a = 0%Z)) as [->|Hne]; [done|].
  apply Z.log2_lt_pow2; lia.
Qed.

Lemma small_log2 a : (0 ≤ a)%Z → (Z.log2 a < 16)%Z → (0 ≤ a < 2 ^ 16)%Z.
Proof.
  intros Ha Hlog. destruct (decide (a = 0%Z)) as [->|Hne]; [done|].
  split; [done|]. apply Z.log2_lt_pow2; lia.
Qed.

Lemma lor_small a b :
  (0 ≤ a < 2 ^ 16)%Z → (0 ≤ b < 2 ^ 16)%Z → (0 ≤ Z.lor a b < 2 ^ 16)%Z.
Proof.
  intros Ha Hb. apply small_log2; [apply Z.lor_nonneg; lia|].
  rewrite Z.log2_lor by lia.
  apply Z.max_lub_lt; by apply log2_small.
Qed.

Lemma lxor_small a b :
  (0 ≤ a < 2 ^ 16)%Z → (0 ≤ b < 2 ^ 16)%Z → (0 ≤ Z.lxor a b < 2 ^ 16)%Z.
Proof.
  intros Ha Hb. apply small_log2; [apply Z.lxor_nonneg; lia|].
  eapply Z.le_lt_trans; [apply Z.log2_lxor; lia|].
  apply Z.max_lub_lt; by apply log2_small.
Qed.

Lemma charCode_small c : (0 ≤ charCode c < 2 ^ 16)%Z.
Proof.
  unfold charCode. pose proof (nat_ascii_bounded c). lia.
Qed.

Lemma charCode_inj a b : charCode a = charCode b → a = b.
Proof.
  unfold charCode. intros H%Nat2Z.inj.
  by rewrite <- (ascii_nat_embedding a), <- (ascii_nat_embedding b), H.
Qed.

Lemma js_xor_small a b :
  (0 ≤ a < 2 ^ 16)%Z → (0 ≤ b < 2 ^ 16)%Z → js_xor a b = Z.lxor a b.
Proof.
  intros Ha Hb. unfold js_xor. rewrite (int32_small a), (int32_small b) by lia.
  apply int32_small. pose proof (lxor_small a b Ha Hb). lia.
Qed.

Lemma js_or_small a b :
  (0 ≤ a < 2 ^ 16)%Z → (0 ≤ b < 2 ^ 16)%Z → js_or a b = Z.lor a b.
Proof.
  intros Ha Hb. unfold js_or. rewrite (int32_small a), (int32_small b) by lia.
  apply int32_small. pose proof (lor_small a b Ha Hb). lia.
Qed.

Lemma compare_loop_zero token currentToken result :
  (0 ≤ result < 2 ^ 16)%Z →
  String.length token = String.length currentToken →
  compare_loop result token currentToken = 0%Z
  ↔ result = 0%Z ∧ token = currentToken.
Proof.
  revert currentToken result.
  induction token as [|a token IH]; intros [|b current] result Hres Hlen;
    try done; simpl.
  - naive_solver.
  - injection Hlen as Hlen.
    pose proof (charCode_small a) as Ha. pose proof (charCode_small b) as Hb.
    pose proof (lxor_small _ _ Ha Hb) as Hx.
    rewrite js_xor_small, js_or_small by done.
    rewrite IH by (by apply lor_small || done).
    rewrite Z.lor_eq_0_iff. split.
    + intros [[-> Hab] ->]. apply Z.lxor_eq, charCode_inj in Hab as ->. done.
    + intros [-> [= -> ->]]. by rewrite Z.lxor_nilpotent.
Qed.

Lemma validateToken_true currentToken token :
  validateToken currentToken token = true
  ↔ token = Some currentToken ∧ currentToken ≠ "".
Proof.
  unfold validateToken. destruct token as [token|]; [|naive_solver].
  destruct (truthy token) eqn:Ht; simpl.
  - apply truthy_true in Ht.
    destruct (Nat.eqb_spec (String.length token) (String.length currentToken))
      as [Hlen|Hlen]; simpl.
    + rewrite Z.eqb_eq, compare_loop_zero by (done || lia). naive_solver.
    + split; [done|]. intros [[= ->] _]. done.
  - split; [done|]. intros [[= ->] Hne]. apply truthy_true in Hne. congruence.
Qed.

(** X1. The auth manager accepts a token exactly when it is the current
    token and is not empty: an undefined or empty token, a token of another
    length and a token that differs in some character are all refused, and
    an auth manager whose current token is empty accepts nothing. *)
Theorem validateToken_accepts_only_the_current_token
    (currentToken : string) (token : option string) :
  (validateToken currentToken token = true
   ↔ token = Some currentToken ∧ currentToken ≠ "")
  ∧ validateToken currentToken None = false
  ∧ validateToken currentToken (Some "") = false
  ∧ validateToken "" token = false.
Proof.
  split; [apply validateToken_true|]. split; [done|]. split; [done|].
  destruct (validateToken "" token) eqn:Hvalid; [|done].
  by apply validateToken_true in Hvalid as [_ ?].
Qed.

(** ** Consumer connections *)

Lemma token_param_validate currentToken query :
  validateToken currentToken (token_param query)
  = bool_decide (query = Some currentToken ∧ currentToken ≠ "").
Proof.
  apply eq_true_iff_eq.
  rewrite validateToken_true, bool_decide_eq_true.
  unfold token_param. destruct query as [t|]; [|naive_solver].
  destruct (truthy t) eqn:Ht; [naive_solver|].
  split; [naive_solver|]. intros [[= ->] Hne]. apply truthy_true in Hne.
  congruence.
Qed.

(** X2. The [/ws] route admits a consumer exactly when the [token]
    parameter of its URL is the current access token and is not empty: the
    connection is then tracked as authenticated, with no subscription, and
    nothing is sent. Any other connection is sent one error message and
    closed with code 4001 (the close is skipped when that send throws), and
    the hub keeps no trace of it. *)
Theorem ws_route_admits_only_the_token_holder (env : Env)
    (currentToken : string) (ws : WebSocket) (query : option string) (h : Hub) :
  let o := ws_route env currentToken ws query h in
  if bool_decide (query = Some currentToken ∧ currentToken ≠ "") then
    o = mkRun (with_clients (λ cs, cs ++ [mkClient ws true false ∅]) h) []
          (Normal tt)
  else
    state o = h
    ∧ trace o
      = send ws INVALID_TOKEN
        :: match net env ws with
           | None => [close ws 4001 "Unauthorized"]
           | Some _ => []
           end.
Proof.
  unfold ws_route. rewrite token_param_validate.
  case_bool_decide as Hq; unfold handleClientConnection; simpl; [done|].
  unfold bind, ws_send, ws_close. simpl. by destruct (net env ws).
Qed.

Section HubKeeps.
Context (P : Hub → Prop).
Hypothesis P_registry : ∀ f h, P h → P (with_registry f h).

Lemma keeps_ret {A} (a : A) : hub_keeps P (ret a).
Proof. by intros h Hh. Qed.

Lemma keeps_gets {A} (f : Hub → A) : hub_keeps P (gets f).
Proof. by intros h Hh. Qed.

Lemma keeps_throw {A} err : hub_keeps P (throw (A:=A) err).
Proof. by intros h Hh. Qed.

Lemma keeps_bind {A B} (m : HubM A) (k : A → HubM B) :
  hub_keeps P m → (∀ a, hub_keeps P (k a)) → hub_keeps P (bind m k).
Proof.
  intros Hm Hk h Hh. specialize (Hm h Hh). unfold bind.
  destruct (value (m h)) as [a|err]; simpl; [|done]. by apply Hk.
Qed.

Lemma keeps_try_catch {A} (m : HubM A) (handler : string → HubM A) :
  hub_keeps P m → (∀ err, hub_keeps P (handler err)) →
  hub_keeps P (try_catch m handler).
Proof.
  intros Hm Hk h Hh. specialize (Hm h Hh). unfold try_catch.
  destruct (value (m h)) as [a|err]; simpl; [done|]. by apply Hk.
Qed.

Lemma keeps_for_of {A} (xs : list A) (body : A → HubM unit) :
  (∀ x, hub_keeps P (body x)) → hub_keeps P (for_of xs body).
Proof.
  intros Hbody. induction xs as [|x xs IH]; simpl.
  - apply keeps_ret.
  - apply keeps_bind; [apply Hbody | by intros _].
Qed.

Lemma keeps_modify (f : Hub → Hub) :
  (∀ h, P h → P (f h)) → hub_keeps P (modify f).
Proof. intros Hf h Hh. by apply Hf. Qed.

Lemma keeps_ws_send net ws f : hub_keeps P (ws_send net ws f).
Proof. by intros h Hh. Qed.

Lemma keeps_ws_close ws code reason : hub_keeps P (ws_close ws code reason).
Proof. by intros h Hh. Qed.

Lemma keeps_in_registry {A} env (m : RegM A) : hub_keeps P (in_registry env m).
Proof. intros h Hh. by apply P_registry. Qed.
End HubKeeps.

Ltac keep_step :=
  first
    [ apply keeps_ret
    | apply keeps_gets
    | apply keeps_throw
    | apply keeps_ws_close
    | apply keeps_ws_send
    | apply keeps_in_registry; done
    | apply keeps_bind; [|intros ?]
    | apply keeps_try_catch; [|intros ?]
    | apply keeps_for_of; intros ?
    | match goal with
      | |- hub_keeps _ (match ?x with _ => _ end) => destruct x eqn:?
      | |- hub_keeps _ (if ?x then _ else _) => destruct x eqn:?
      | |- hub_keeps _ (let _ := _ in _) => cbv zeta
      end ].

Ltac keep := repeat keep_step.

Lemma all_authenticated_update ws f h :
  (∀ c, authenticated (f c) = authenticated c) →
  all_authenticated h →
  all_authenticated
    (with_clients (fmap (λ c, if Nat.eqb (c_ws c) ws then f c else c)) h).
Proof.
  intros Hf Hh. unfold all_authenticated in *. simpl.
  apply Forall_fmap. eapply Forall_impl; [done|]. intros c Hc. simpl.
  destruct (Nat.eqb (c_ws c) ws); [by rewrite Hf|done].
Qed.

Lemma hub_handle_all_authenticated env e :
  hub_keeps all_authenticated (hub_handle env e).
Proof.
  assert (∀ f h, all_authenticated h → all_authenticated (with_registry f h))
    as Hreg by done.
  assert (∀ (f : Hub → Hub), (∀ h, clients (f h) = clients h) →
            hub_keeps all_authenticated (modify f)) as Hframe.
  { intros f Hf. apply keeps_modify. intros h Hh.
    unfold all_authenticated. by rewrite Hf. }
  destruct e as [ws valid|ws [message|]|ws|ws|ws [message|]|ws|];
    cbn [hub_handle].
  - unfold handleClientConnection. destruct valid; simpl; [|keep].
    apply keeps_modify. intros h Hh. unfold all_authenticated. simpl.
    apply Forall_app. split; [done|]. by apply Forall_singleton.
  - unfold client_on_message, handleClientMessage, update_client,
      ws_send_quietly.
    destruct message; keep;
      try (apply Hframe; done);
      apply keeps_modify; intros h Hh; by apply all_authenticated_update.
  - unfold client_on_message. keep.
  - unfold client_on_close. apply keeps_modify. intros h Hh.
    unfold all_authenticated in *. simpl. apply Forall_forall.
    intros c [_ Hc]%list_elem_of_filter. revert c Hc. by apply Forall_forall.
  - unfold handleExtensionConnection. by apply Hframe.
  - unfold extension_on_message, handleExtensionMessage, update_extension,
      ws_send_quietly.
    destruct message; keep; by apply Hframe.
  - unfold extension_on_message. keep.
  - unfold extension_on_close. keep. by apply Hframe.
  - unfold sweep, expire_message_request, expire_enabled_models_request,
      expire_create_chat_request, ws_send_quietly.
    keep; by apply Hframe.
Qed.

(** X3. Every consumer connection that the hub tracks is authenticated,
    whatever connections, messages, closes and sweeps the hub has handled
    since it was created: a connection of which the token was refused is
    never tracked, and no message changes the flag of a tracked one. *)
Theorem tracked_consumers_are_authenticated
    (r : Registry) (es : list (Env * HubEvent)) :
  all_authenticated (hub_run es (createWebSocketManager r)).1.
Proof.
  assert (all_authenticated (createWebSocketManager r)) as Hinit
    by apply Forall_nil_2.
  revert Hinit. generalize (createWebSocketManager r).
  induction es as [|[env e] es IH]; intros h Hh; cbn [hub_run fst]; [done|].
  apply IH. by apply hub_handle_all_authenticated.
Qed.
(** ** Fan-out to subscribers *)

Lemma bind_ws_send {B} (n : Net) ws frame (k : unit → HubM B) h :
  bind (ws_send n ws frame) k h
  = match n ws with
    | Some err => mkRun h [send ws frame] (Throw err)
    | None =>
        mkRun (state (k tt h)) (send ws frame :: trace (k tt h))
          (value (k tt h))
    end.
Proof. unfold bind, ws_send. simpl. by destruct (n ws). Qed.

Lemma for_of_sends (n : Net) frame (sel : ClientConnection → bool) cs h :
  let o := for_of cs (λ c, if sel c then ws_send n (c_ws c) frame else ret tt) h in
  state o = h
  ∧ trace o `prefix_of`
      ((λ c, send (c_ws c) frame) <$> filter (λ c, sel c = true) cs)
  ∧ (reliable n →
     trace o = (λ c, send (c_ws c) frame) <$> filter (λ c, sel c = true) cs
     ∧ value o = Normal tt).
Proof.
  induction cs as [|c cs IH]; cbn [for_of].
  - split; [done|]. split; [done|]. by intros _.
  - destruct IH as (Hst & Hpre & Hgood). rewrite filter_cons.
    destruct (sel c) eqn:Hc.
    + rewrite decide_True by done. rewrite bind_ws_send, fmap_cons.
      destruct (n (c_ws c)) as [err|] eqn:Hn; cbn [state trace value].
      * split; [done|]. split; [by apply prefix_cons, prefix_nil|].
        intros Hrel. by rewrite Hrel in Hn.
      * split; [done|]. split; [by apply prefix_cons|].
        intros Hrel. destruct (Hgood Hrel) as [-> ->]. done.
    + rewrite decide_False by done. by rewrite bind_ret.
Qed.

Lemma broadcastToSessionSubscribers_sends env sid message h :
  let o := broadcastToSessionSubscribers env sid message h in
  state o = h
  ∧ trace o `prefix_of` sends_to (session_subscribers sid h) message
  ∧ (reliable (net env) →
     trace o = sends_to (session_subscribers sid h) message
     ∧ value o = Normal tt).
Proof.
  unfold broadcastToSessionSubscribers, sends_to, session_subscribers.
  rewrite bind_gets, <- list_fmap_compose.
  apply (for_of_sends (net env) (to_client message)
           (λ c, authenticated c && bool_decide (sid ∈ subscribedSessions c))).
Qed.

Lemma broadcastToInstanceSubscribers_sends env message h :
  let o := broadcastToInstanceSubscribers env message h in
  state o = h
  ∧ trace o `prefix_of` sends_to (instance_subscribers h) message
  ∧ (reliable (net env) →
     trace o = sends_to (instance_subscribers h) message
     ∧ value o = Normal tt).
Proof.
  unfold broadcastToInstanceSubscribers, sends_to, instance_subscribers.
  rewrite bind_gets, <- list_fmap_compose.
  apply (for_of_sends (net env) (to_client message)
           (λ c, authenticated c && subscribedInstances c)).
Qed.

Lemma notify_calls {N} (mk : nat → N → Call) (ls : list (Listener N)) n :
  (notify mk ls n).1 `prefix_of` calls_to mk ls n.
Proof.
  induction ls as [|l ls IH]; simpl; [done|].
  destruct (throws l n); simpl; [by apply prefix_cons, prefix_nil|].
  by apply prefix_cons.
Qed.

Lemma trace_try_catch_quiet {S E} (m : M S E unit) s :
  trace (try_catch m (λ _, ret tt) s) = trace (m s).
Proof.
  unfold try_catch. destruct (value (m s)); simpl; [done|].
  by rewrite app_nil_r.
Qed.

Lemma trace_bind_ret {S E A} (m : M S E A) s :
  trace (bind m (λ _, ret tt) s) = trace (m s).
Proof.
  unfold bind. destruct (value (m s)); simpl; [|done]. by rewrite app_nil_r.
Qed.

(** X4. A transcript event that a producer submits is sent to nobody but
    the authenticated consumers subscribed to the session of the event, and
    what they are sent is that event: no other consumer and no producer is
    sent anything, and no socket is closed. *)
Theorem transcript_event_reaches_only_subscribers (env : Env)
    (ws : WebSocket) (data : TranscriptEventData) (h : Hub) :
  let event := new_event data (fresh_id env) (now_iso env) in
  Forall (λ e,
            match e with
            | send ws' frame =>
                ws' ∈ session_subscribers (d_sessionId data) h
                ∧ frame = to_client (s_transcript_event event)
            | close _ _ _ => False
            | listener_call _ => True
            end)
    (trace (hub_handle env
              (ev_extension_message ws (Some (x_transcript_event data))) h)).
Proof.
  intros event. cbn [hub_handle]. unfold extension_on_message.
  rewrite trace_try_catch_quiet. cbn [handleExtensionMessage].
  rewrite trace_bind_ret. unfold in_registry. cbn [trace].
  set (r := bind_closures env h (registry h)).
  destruct (is_duplicate data r) eqn:Hdup.
  { by rewrite addTranscriptEvent_reject. }
  rewrite addTranscriptEvent_accept by done. cbn [trace].
  apply Forall_forall. intros e He.
  apply list_elem_of_In, in_flat_map in He as (c & Hc & He).
  apply list_elem_of_In in Hc, He.
  pose proof (notify_calls call_transcript (transcriptListeners r) event) as Hp.
  apply (λ H, elem_of_prefix _ _ _ H Hp) in Hc. unfold calls_to in Hc.
  apply list_elem_of_fmap in Hc as (l & -> & _). simpl in He.
  destruct (Nat.eqb (lid l) HUB_LISTENER).
  - unfold on_transcript_event in He.
    destruct (broadcastToSessionSubscribers_sends env (e_sessionId event)
                (s_transcript_event event) h) as (_ & Hpre & _).
    apply (λ H, elem_of_prefix _ _ _ H Hpre) in He. unfold sends_to in He.
    by apply list_elem_of_fmap in He as (ws' & -> & Hws').
  - by apply list_elem_of_singleton in He as ->.
Qed.

Lemma bind_closure_lids {N} (body : N → HubM unit) h ls :
  lid <$> bind_closure body h ls = lid <$> ls.
Proof.
  unfold bind_closure. rewrite <- list_fmap_compose. apply list_fmap_ext.
  intros _ l _. simpl. destruct (Nat.eqb_spec (lid l) HUB_LISTENER); [|done].
  done.
Qed.

Lemma only_hub_listener {N} (body : N → HubM unit) h ls :
  lid <$> ls = [HUB_LISTENER] →
  bind_closure body h ls = [mkListener HUB_LISTENER (closure_throws body h)].
Proof.
  destruct ls as [|l [|??]]; try done. intros [= Hl]. simpl.
  by rewrite Hl.
Qed.

(** X5. When no send throws and the hub's callback is the only transcript
    listener of the registry, an accepted transcript event of a producer is
    sent once to every authenticated consumer subscribed to its session, in
    the order of their connections, and this is all that the hub does. *)
Theorem transcript_event_reaches_every_subscriber (env : Env)
    (ws : WebSocket) (data : TranscriptEventData) (h : Hub) :
  reliable (net env) →
  lid <$> transcriptListeners (registry h) = [HUB_LISTENER] →
  is_duplicate data (registry h) = false →
  let event := new_event data (fresh_id env) (now_iso env) in
  let o := hub_handle env
             (ev_extension_message ws (Some (x_transcript_event data))) h in
  trace o
  = sends_to (session_subscribers (d_sessionId data) h)
      (s_transcript_event event)
  ∧ value o = Normal tt
  ∧ getTranscriptEvents (d_sessionId data) None (registry (state o))
    = evict (getTranscriptEvents (d_sessionId data) None (registry h)
             ++ [event]).
Proof.
  intros Hrel Hls Hdup event o. subst o. cbn [hub_handle].
  unfold extension_on_message. cbn [handleExtensionMessage].
  unfold in_registry.
  set (r := bind_closures env h (registry h)).
  assert (is_duplicate data r = false) as Hdup' by done.
  pose proof (addTranscriptEvent_accept r data (fresh_id env) (now_iso env)
                Hdup') as Hacc.
  cbv zeta in Hacc. fold event in Hacc.
  assert (transcriptListeners r
          = [mkListener HUB_LISTENER
               (closure_throws (on_transcript_event env) h)]) as Hr
    by by apply only_hub_listener.
  destruct (broadcastToSessionSubscribers_sends env (e_sessionId event)
              (s_transcript_event event) h) as (_ & _ & Hgood).
  destruct (Hgood Hrel) as [Htrace Hvalue].
  assert (notify call_transcript (transcriptListeners r) event
          = ([call_transcript HUB_LISTENER event], None)) as Hnotify.
  { rewrite Hr. cbn [notify throws lid].
    unfold closure_throws, on_transcript_event. by rewrite Hvalue. }
  rewrite Hnotify in Hacc. cbn [fst snd completes] in Hacc.
  subst r. unfold try_catch, bind. rewrite Hacc. simpl.
  rewrite !app_nil_r. split; [exact Htrace|]. split; [done|].
  unfold getTranscriptEvents. simpl. by rewrite lookup_insert_eq.
Qed.

Lemma transcript_event_reaches_every_subscriber_witness :
  reliable good_net
  ∧ session_subscribers "s" sample_hub = [1; 2]
  ∧ trace (hub_handle (sample_env good_net)
             (ev_extension_message 10
                (Some (x_transcript_event (sample_event_data "s" (Some "m1")))))
             sample_hub)
    = sends_to (session_subscribers "s" sample_hub)
        (s_transcript_event
           (new_event (sample_event_data "s" (Some "m1")) "e9" "t9")).
Proof.
  assert (reliable good_net) as Hrel by done.
  assert (session_subscribers "s" sample_hub = [1; 2]) as Hsubs
    by (vm_compute; reflexivity).
  assert (lid <$> transcriptListeners (registry sample_hub) = [HUB_LISTENER])
    as Hls by (vm_compute; reflexivity).
  assert (is_duplicate (sample_event_data "s" (Some "m1")) (registry sample_hub)
          = false) as Hdup by (vm_compute; reflexivity).
  exact (conj Hrel (conj Hsubs
           (proj1 (transcript_event_reaches_every_subscriber
                     (sample_env good_net) 10
                     (sample_event_data "s" (Some "m1")) sample_hub
                     Hrel Hls Hdup)))).
Defined.

Lemma on_session_change_reliable env n h :
  reliable (net env) →
  on_session_change env n h
  = mkRun h
      (sends_to (session_subscribers (sessionId n.2) h) (s_session_update n.2)
       ++ sends_to (instance_subscribers h) (s_session_update n.2))
      (Normal tt).
Proof.
  intros Hrel. unfold on_session_change. cbv zeta.
  destruct (broadcastToSessionSubscribers_sends env (sessionId n.2)
              (s_session_update n.2) h) as (Hs1 & _ & Hg1).
  destruct (broadcastToInstanceSubscribers_sends env (s_session_update n.2) h)
    as (Hs2 & _ & Hg2).
  destruct (Hg1 Hrel) as [Ht1 Hv1]. destruct (Hg2 Hrel) as [Ht2 Hv2].
  unfold bind. rewrite Hv1. cbn [state trace value].
  by rewrite Hs1, Hs2, Ht1, Ht2, Hv2.
Qed.

Lemma assign_with_session_id sid session u :
  sessionId (assign session (with_session_id sid u)) = sid.
Proof. done. Qed.

(** X6. When no send throws and the hub's callback is the only session
    listener of the registry, a [session_update] of a producer for a known
    session is sent first to the authenticated consumers subscribed to that
    session and then to those subscribed to the global stream: a consumer
    with both subscriptions is sent the update twice. *)
Theorem session_update_fan_out (env : Env) (ws : WebSocket) (sid : string)
    (u : SessionUpdates) (h : Hub) (session : Session) :
  reliable (net env) →
  lid <$> sessionListeners (registry h) = [HUB_LISTENER] →
  getSession sid (registry h) = Some session →
  let message := s_session_update (assign session (with_session_id sid u)) in
  trace (hub_handle env
           (ev_extension_message ws (Some (x_session_update sid u))) h)
  = sends_to (session_subscribers sid h) message
    ++ sends_to (instance_subscribers h) message.
Proof.
  intros Hrel Hls Hget message. cbn [hub_handle].
  unfold extension_on_message. rewrite trace_try_catch_quiet.
  cbn [handleExtensionMessage]. rewrite trace_bind_ret.
  unfold in_registry. cbn [trace].
  set (r := bind_closures env h (registry h)).
  set (session' := assign session (with_session_id sid u)).
  assert (sessionListeners r
          = [mkListener HUB_LISTENER
               (closure_throws (on_session_change env) h)]) as Hr
    by by apply only_hub_listener.
  assert (trace (updateSession sid (with_session_id sid u) (now_iso env) r)
          = [call_session HUB_LISTENER sc_update session']) as Htrace.
  { unfold updateSession. rewrite bind_gets.
    change (JsMap.get sid (sessions r)) with (getSession sid (registry h)).
    rewrite Hget. fold session'. rewrite bind_modify.
    unfold notifySession, forEach, bind at 1.
    cbn [state trace value sessionListeners with_sessions].
    rewrite Hr. cbn [notify throws lid fst snd].
    unfold closure_throws. rewrite on_session_change_reliable by done.
    cbn [value fst snd trace]. unfold bind, persist, modify, ret. simpl.
    done. }
  rewrite Htrace. cbn [flat_map effects_of_call].
  rewrite Nat.eqb_refl, app_nil_r, on_session_change_reliable by done.
  done.
Qed.

Lemma session_update_fan_out_witness :
  reliable good_net
  ∧ getSession "s" (registry sample_hub_with_session) = Some sample_session_s
  ∧ session_subscribers "s" sample_hub_with_session = [1; 2]
  ∧ instance_subscribers sample_hub_with_session = [1; 2]
  ∧ trace (hub_handle (sample_env good_net)
             (ev_extension_message 10
                (Some (x_session_update "s" no_updates)))
             sample_hub_with_session)
    = sends_to (session_subscribers "s" sample_hub_with_session)
        (s_session_update
           (assign sample_session_s (with_session_id "s" no_updates)))
      ++ sends_to (instance_subscribers sample_hub_with_session)
           (s_session_update
              (assign sample_session_s (with_session_id "s" no_updates))).
Proof.
  assert (reliable good_net) as Hrel by done.
  assert (getSession "s" (registry sample_hub_with_session)
          = Some sample_session_s) as Hget by (vm_compute; reflexivity).
  assert (session_subscribers "s" sample_hub_with_session = [1; 2]) as Hs
    by (vm_compute; reflexivity).
  assert (instance_subscribers sample_hub_with_session = [1; 2]) as Hi
    by (vm_compute; reflexivity).
  assert (lid <$> sessionListeners (registry sample_hub_with_session)
          = [HUB_LISTENER]) as Hls by (vm_compute; reflexivity).
  exact (conj Hrel (conj Hget (conj Hs (conj Hi
           (session_update_fan_out (sample_env good_net) 10 "s" no_updates
              sample_hub_with_session sample_session_s Hrel Hls Hget))))).
Defined.
(** ** Invariants of the registry *)

Ltac unfold_ops :=
  unfold registerInstance, updateHeartbeat, removeInstance, startSession,
    updateSession, endSession, addTranscriptEvent, notifyInstance,
    notifySession, notifyTranscript, persist.

Lemma run_ops_snoc ops op r :
  run_ops (ops ++ [op]) r = state (reg_step op (run_ops ops r)).
Proof. unfold run_ops. by rewrite foldl_app. Qed.

Lemma run_ops_preserves (P : Registry → Prop) ops r :
  (∀ op, preserves P (reg_step op)) → P r → P (run_ops ops r).
Proof.
  intros Hstep. revert r. induction ops as [|op ops IH]; intros r Hr; [done|].
  simpl. apply IH. by apply Hstep.
Qed.

Lemma within_bound_step op : preserves within_bound (reg_step op).
Proof.
  assert (∀ sid evs r,
            (length evs ≤ MAX_EVENTS_PER_SESSION)%nat → within_bound r →
            within_bound (with_transcripts <[sid := evs]> r)) as Hset.
  { intros sid evs r Hevs Hr sid'. unfold transcript_of. simpl.
    destruct (decide (sid = sid')) as [->|Hne].
    - by rewrite lookup_insert_eq.
    - rewrite lookup_insert_ne by done. apply Hr. }
  destruct op; simpl; unfold_ops; preserve;
    try (apply preserves_modify; intros r Hr; exact Hr).
  - apply preserves_removeInstance_loop; intros; assumption.
  - apply preserves_modify. intros r Hr. apply Hset; [simpl; lia|done].
  - apply preserves_modify. intros r Hr. apply Hset; [|done].
    apply evict_length.
Qed.

(** X7. The bound on the events of a session in memory is an invariant: if
    no session holds more than 10,000 events, then none does after any
    sequence of operations of the registry, whatever the listeners do. A
    registry created without persistence or on an empty data directory
    starts within the bound. *)
Theorem retained_events_stay_bounded (r : Registry) (ops : list RegOp) :
  within_bound r → within_bound (run_ops ops r).
Proof. apply run_ops_preserves, within_bound_step. Qed.

Lemma retained_events_stay_bounded_witness :
  within_bound memory_registry
  ∧ within_bound
      (run_ops
         [op_startSession "i1" (sample_session_data "s") "t0";
          op_addTranscriptEvent (sample_event_data "s" (Some "m1")) "e1" "t1"]
         memory_registry).
Proof.
  assert (within_bound memory_registry) as Hinit.
  { intros sid. unfold transcript_of. simpl. rewrite lookup_empty. simpl. lia. }
  exact (conj Hinit (retained_events_stay_bounded memory_registry _ Hinit)).
Defined.

Lemma seen_add_source_id sid s sid' s' r :
  seen sid s r = true →
  seen sid s (with_seenSourceIds (add_source_id sid' s') r) = true.
Proof.
  rewrite !seen_spec. intros (set & Hset & Hin). simpl. unfold add_source_id.
  destruct (decide (sid' = sid)) as [->|Hne].
  - rewrite lookup_insert_eq, Hset. eexists. split; [done|]. set_solver.
  - rewrite lookup_insert_ne by done. by exists set.
Qed.

Lemma seen_step sid s op : preserves (λ r, seen sid s r = true) (reg_step op).
Proof.
  destruct op; simpl; unfold_ops; preserve;
    try (apply preserves_modify; intros r Hr; exact Hr).
  - apply preserves_removeInstance_loop; intros; assumption.
  - apply preserves_modify. intros r Hr. by apply seen_add_source_id.
Qed.

(** X8. The registry never forgets a source id: once a non-empty source id
    is recorded for a session it stays recorded through every later
    operation, also after the event that carried it has been evicted from
    memory, so that every later submission with that source id to that
    session is rejected and changes nothing. *)
Theorem recorded_source_id_is_never_forgotten (r : Registry)
    (sid s : string) (ops : list RegOp) :
  seen sid s r = true → s ≠ "" →
  let r' := run_ops ops r in
  seen sid s r' = true
  ∧ ∀ data newId now,
      d_sessionId data = sid → d_sourceId data = Some s →
      addTranscriptEvent data newId now r' = mkRun r' [] (Normal None).
Proof.
  intros Hseen Hs r'.
  assert (seen sid s r' = true) as Hseen'.
  { apply (run_ops_preserves (λ r, seen sid s r = true)); [|done].
    intros op. apply seen_step. }
  split; [done|]. intros data newId now Hsid Hsrc.
  apply addTranscriptEvent_reject. unfold is_duplicate.
  rewrite Hsrc, Hsid, Hseen', andb_true_r. by apply truthy_true.
Qed.

Lemma recorded_source_id_is_never_forgotten_witness :
  seen "s" "m1" registry_with_m1 = true
  ∧ "m1" ≠ ""
  ∧ (let r' :=
       run_ops
         [op_addTranscriptEvent (sample_event_data "s" (Some "m2")) "e2" "t2";
          op_endSession "s" "t3"]
         registry_with_m1 in
     addTranscriptEvent (sample_event_data "s" (Some "m1")) "e4" "t4" r'
     = mkRun r' [] (Normal None)).
Proof.
  assert (seen "s" "m1" registry_with_m1 = true) as Hseen
    by (vm_compute; reflexivity).
  assert ("m1" ≠ "") as Hne by discriminate.
  exact (conj Hseen (conj Hne
           (proj2 (recorded_source_id_is_never_forgotten registry_with_m1
                     "s" "m1" _ Hseen Hne)
              (sample_event_data "s" (Some "m1")) "e4" "t4"
              eq_refl eq_refl))).
Defined.

(** X9. Operations on an identifier that the registry does not know do
    nothing: a heartbeat or a removal for an unknown instance, and an update
    or an end for an unknown session, leave the registry as it is, notify
    no listener and write nothing to the log; the update returns
    [undefined]. *)
Theorem unknown_identifiers_are_ignored (r : Registry) (iid sid now : string)
    (updates : SessionUpdates) :
  (getInstance iid r = None →
   updateHeartbeat iid now r = mkRun r [] (Normal tt)
   ∧ removeInstance iid now r = mkRun r [] (Normal tt))
  ∧ (getSession sid r = None →
     updateSession sid updates now r = mkRun r [] (Normal None)
     ∧ endSession sid now r = mkRun r [] (Normal tt)).
Proof.
  unfold getInstance, getSession. split; intros Hnone.
  - unfold updateHeartbeat, removeInstance. rewrite !bind_gets, Hnone. done.
  - unfold updateSession, endSession. rewrite !bind_gets, Hnone. done.
Qed.

Lemma unknown_identifiers_are_ignored_witness :
  getInstance "i2" registry_with_three_sessions = None
  ∧ getSession "s9" registry_with_three_sessions = None
  ∧ removeInstance "i2" "t5" registry_with_three_sessions
    = mkRun registry_with_three_sessions [] (Normal tt)
  ∧ endSession "s9" "t5" registry_with_three_sessions
    = mkRun registry_with_three_sessions [] (Normal tt).
Proof.
  assert (getInstance "i2" registry_with_three_sessions = None) as Hi
    by (vm_compute; reflexivity).
  assert (getSession "s9" registry_with_three_sessions = None) as Hs
    by (vm_compute; reflexivity).
  destruct (unknown_identifiers_are_ignored registry_with_three_sessions
              "i2" "s9" "t5" no_updates) as [Hinst Hsess].
  exact (conj Hi (conj Hs (conj (proj2 (Hinst Hi)) (proj2 (Hsess Hs))))).
Defined.

(** ** Instances *)

Lemma instances_unique_step op : preserves instances_unique (reg_step op).
Proof.
  destruct op; simpl; unfold_ops; preserve;
    try (apply preserves_modify; intros r Hr; exact Hr);
    try (apply preserves_modify; intros r Hr; by apply NoDup_keys_set);
    try (apply preserves_modify; intros r Hr; by apply NoDup_keys_delete).
  apply preserves_removeInstance_loop; intros; assumption.
Qed.

Lemma reachable_instances_unique r : reachable r → instances_unique r.
Proof.
  induction 1 as [options|r op _ IH].
  - destruct options; apply NoDup_nil_2.
  - by apply instances_unique_step.
Qed.

Lemma removeInstance_frame (P : Registry → Prop) iid now :
  (∀ j r, P r → P (with_sessions (alter (prod_map id (set_status idle)) j) r)) →
  (∀ f r, P r → P (with_persistence f r)) →
  ∀ r, P (with_instances (JsMap.delete iid) r) →
       is_Some (getInstance iid r) → P (state (removeInstance iid now r)).
Proof.
  intros Hs Hp r Hr [instance Hi]. unfold removeInstance, getInstance in *.
  rewrite bind_gets, Hi, bind_modify, bind_gets.
  apply (preserves_bind P); [|by intros; apply preserves_forEach|done].
  by apply preserves_removeInstance_loop.
Qed.

Lemma known_session_step sid op :
  preserves (λ r, is_Some (getSession sid r)) (reg_step op).
Proof.
  unfold getSession.
  destruct op; simpl; unfold_ops; preserve;
    try (apply preserves_modify; intros r Hr; exact Hr);
    try (apply preserves_modify; intros r Hr; by apply get_set_is_Some).
  apply preserves_removeInstance_loop; [|intros; assumption].
  intros j r [s Hs]. simpl. apply keys_get_is_Some. rewrite keys_alter.
  by eapply get_Some_keys.
Qed.

(** X10. After an instance is removed it is gone, and its sessions are
    kept: in a registry reached through its operations, once
    [removeInstance] has run - whether or not a listener throws in it - the
    instance cannot be looked up, the routes of the instance answer 404, the
    other instances are as they were, and every session that was known is
    still known and answered by the session route. *)
Theorem removed_instance_is_gone (r : Registry) (iid now : string) :
  reachable r →
  let r' := state (removeInstance iid now r) in
  getInstance iid r' = None
  ∧ route_instance iid r' = reply_error 404 "Instance not found"
  ∧ route_instance_sessions iid r' = reply_error 404 "Instance not found"
  ∧ (∀ iid', iid' ≠ iid → getInstance iid' r' = getInstance iid' r)
  ∧ (∀ sid after, is_Some (getSession sid r) →
       ∃ session, route_session sid after r'
                  = reply_ok (session, getTranscriptEvents sid after r')).
Proof.
  intros Hreach r'.
  pose proof (reachable_instances_unique r Hreach) as Hunique.
  assert (getInstance iid r' = None) as Hgone.
  { subst r'. destruct (getInstance iid r) as [instance|] eqn:Hi.
    - apply (removeInstance_frame (λ r, getInstance iid r = None));
        [done|done| |by rewrite Hi].
      unfold getInstance. simpl. by apply get_delete_eq.
    - unfold removeInstance, getInstance in *. by rewrite bind_gets, Hi. }
  split; [done|]. unfold route_instance, route_instance_sessions.
  rewrite Hgone. split; [done|]. split; [done|]. split.
  - intros iid' Hne. subst r'. destruct (getInstance iid r) as [instance|] eqn:Hi.
    + apply (removeInstance_frame
               (λ r0, getInstance iid' r0 = getInstance iid' r));
        [done|done| |by rewrite Hi].
      unfold getInstance. simpl. by apply get_delete_ne.
    + unfold removeInstance, getInstance in *. by rewrite bind_gets, Hi.
  - intros sid after Hknown.
    destruct (known_session_step sid (op_removeInstance iid now) r Hknown)
      as [session' Hget].
    exists session'. unfold route_session.
    change (getSession sid r' = Some session') in Hget. by rewrite Hget.
Qed.

Lemma removed_instance_is_gone_witness :
  reachable registry_with_three_sessions
  ∧ getInstance "i1" registry_with_three_sessions = Some instance_i1
  ∧ (let r' := state (removeInstance "i1" "t5" registry_with_three_sessions) in
     getInstance "i1" r' = None
     ∧ route_instance_sessions "i1" r'
       = reply_error 404 "Instance not found").
Proof.
  assert (reachable registry_with_three_sessions) as Hreach
    by (repeat apply reachable_step; apply (reachable_init None)).
  assert (getInstance "i1" registry_with_three_sessions = Some instance_i1)
    as Hi by (vm_compute; reflexivity).
  destruct (removed_instance_is_gone registry_with_three_sessions "i1" "t5"
              Hreach) as (Hgone & _ & Hroute & _).
  exact (conj Hreach (conj Hi (conj Hgone Hroute))).
Defined.

(** ** Listeners *)

Lemma polite_ret {A} (a : A) : polite (ret a).
Proof. by intros r. Qed.

Lemma polite_gets {A} (f : Registry → A) : polite (gets f).
Proof. by intros r. Qed.

Lemma registered_ids r r' c :
  listener_ids r' = listener_ids r → registered r' c → registered r c.
Proof. intros [= Hi Hs Ht]. destruct c; simpl; congruence. Qed.

Lemma polite_bind {A B} (m : RegM A) (f : A → RegM B) :
  polite m → (∀ a, polite (f a)) → polite (bind m f).
Proof.
  intros Hm Hf r. destruct (Hm r) as [Hids Hcalls]. unfold bind.
  destruct (value (m r)) as [a|err]; simpl; [|done].
  destruct (Hf a (state (m r))) as [Hids' Hcalls'].
  split; [congruence|]. apply Forall_app. split; [done|].
  eapply Forall_impl; [done|]. intros c. by apply registered_ids.
Qed.

Lemma polite_modify (f : Registry → Registry) :
  (∀ r, listener_ids (f r) = listener_ids r) → polite (modify f).
Proof. intros Hf r. by split; [apply Hf|]. Qed.

Lemma polite_forEach {N} (mk : nat → N → Call)
    (ls : Registry → list (Listener N)) n :
  (∀ r l, l ∈ ls r → registered r (mk (lid l) n)) → polite (forEach mk ls n).
Proof.
  intros Hmk r. split; [done|]. unfold forEach. simpl.
  apply Forall_forall. intros c Hc.
  apply (λ H, elem_of_prefix _ _ _ H (notify_calls mk (ls r) n)) in Hc.
  apply list_elem_of_fmap in Hc as (l & -> & Hl). by apply Hmk.
Qed.

Lemma polite_removeInstance_loop iid now entries j :
  polite (removeInstance_loop iid now j entries).
Proof.
  revert j. induction entries as [|[k s] rest IH]; intros j; simpl.
  - apply polite_ret.
  - apply polite_bind; [|intros _; apply IH].
    destruct (owned_active iid s); [|apply polite_ret].
    apply polite_bind; [by apply polite_modify|intros _].
    apply polite_bind; [|intros _; by apply polite_modify].
    apply polite_forEach. intros r l Hl. simpl. by apply list_elem_of_fmap_2.
Qed.

Lemma reg_step_calls_registered op r :
  Forall (registered r) (trace (reg_step op r)).
Proof.
  assert (∀ A (m : RegM A), polite m → Forall (registered r) (trace (m r)))
    as Hpolite by (intros A m Hm; apply Hm).
  destruct op; simpl; try done; apply Hpolite; unfold_ops;
    repeat first
      [ apply polite_ret
      | apply polite_gets
      | apply polite_removeInstance_loop
      | apply polite_forEach; intros ? ? ?; simpl; by apply list_elem_of_fmap_2
      | apply polite_modify; done
      | apply polite_bind; [|intros ?]
      | match goal with
        | |- polite (match ?x with _ => _ end) => destruct x eqn:?
        | |- polite (if ?x then _ else _) => destruct x eqn:?
        | |- polite (let _ := _ in _) => cbv zeta
        end ].
Qed.

Lemma delete_listener_ids {N} id (ls : list (Listener N)) :
  id ∉ lid <$> delete_listener id ls.
Proof.
  intros (l & -> & Hl)%list_elem_of_fmap.
  by apply list_elem_of_filter in Hl as [Hne _].
Qed.

(** X11. A listener is called only while it is subscribed: every call that
    an operation of the registry makes goes to a listener registered for
    that kind of change, and after a listener has cancelled its subscriptions
    no operation calls it. *)
Theorem only_subscribed_listeners_are_called (r : Registry) (op : RegOp)
    (id : nat) :
  Forall (registered r) (trace (reg_step op r))
  ∧ Forall (λ c, calls_listener id c = false)
      (trace (reg_step op (unsubscribed id r))).
Proof.
  split; [apply reg_step_calls_registered|].
  eapply Forall_impl; [apply reg_step_calls_registered|].
  intros c Hc. destruct (calls_listener id c) eqn:Hid; [|done].
  destruct c as [l t i|l t s|l e]; simpl in Hid, Hc;
    apply Nat.eqb_eq in Hid as ->; by apply delete_listener_ids in Hc.
Qed.

(** ** The durable log *)

Lemma sanitize_safe s : safe_id (sanitize s).
Proof.
  induction s as [|c s IH]; [done|]. simpl. apply safe_id_cons.
  split; [|done]. by destruct (safe_char c) eqn:Hc.
Qed.

Lemma sanitize_length s : String.length (sanitize s) = String.length s.
Proof. induction s as [|c s IH]; simpl; [done|]. by rewrite IH. Qed.

Lemma getTranscriptFile_sanitize s :
  getTranscriptFile (sanitize s) = getTranscriptFile s.
Proof. unfold getTranscriptFile. by rewrite (sanitize_safe s). Qed.

Lemma same_file s s' :
  getTranscriptFile s = getTranscriptFile s' ↔ sanitize s = sanitize s'.
Proof.
  split.
  - rewrite <- (getTranscriptFile_sanitize s), <- (getTranscriptFile_sanitize s').
    apply getTranscriptFile_inj; apply sanitize_safe.
  - unfold getTranscriptFile. by intros ->.
Qed.

(** X12. The name of the transcript file of a session is made of file-safe
    characters only and is as long as the session id; two sessions share
    one file exactly when their ids are equal after sanitization; and the
    session id that start-up derives from the file name is the sanitized
    id, which is the original one only for a file-safe id. *)
Theorem transcript_file_of_a_session (sid : string) :
  safe_id (sanitize sid)
  ∧ String.length (sanitize sid) = String.length sid
  ∧ (∀ sid', getTranscriptFile sid = getTranscriptFile sid'
             ↔ sanitize sid = sanitize sid')
  ∧ endsWith ".jsonl" (getTranscriptFile sid) = true
  ∧ replace_first ".jsonl" "" (getTranscriptFile sid) = sanitize sid.
Proof.
  split; [apply sanitize_safe|]. split; [apply sanitize_length|].
  split; [intros sid'; apply same_file|]. split; [apply endsWith_jsonl|].
  apply replace_first_jsonl, sanitize_safe.
Qed.

Lemma string_app_assoc (a b c : string) : (a +:+ b) +:+ c = a +:+ b +:+ c.
Proof.
  induction a as [|x a IH]; [done|].
  change (String x ((a +:+ b) +:+ c) = String x (a +:+ b +:+ c)).
  by rewrite IH.
Qed.

Lemma append_cons c (s b : string) : String c s +:+ b = String c (s +:+ b).
Proof. done. Qed.

Lemma split_lines_nonempty s : split_lines s ≠ [].
Proof.
  destruct s as [|c s]; simpl; [done|].
  destruct (Ascii.eqb c newline); [done|]. by destruct (split_lines s).
Qed.

Lemma split_lines_line b : no_newline b = true → split_lines b = [b].
Proof.
  induction b as [|c b IH]; simpl; [done|].
  intros [Hc Hb]%andb_true_iff. apply negb_true_iff in Hc.
  by rewrite Hc, IH.
Qed.

(** Text without a line feed goes to the last line. *)
Lemma split_lines_app s b :
  no_newline b = true →
  split_lines (s +:+ b)
  = removelast (split_lines s) ++ [List.last (split_lines s) "" +:+ b].
Proof.
  intros Hb. induction s as [|c s IH]; [by apply split_lines_line|].
  pose proof (split_lines_nonempty s) as Hne.
  rewrite append_cons. cbn [split_lines]. rewrite IH.
  destruct (Ascii.eqb c newline).
  - by destruct (split_lines s).
  - destruct (split_lines s) as [|l0 [|l1 ls]]; done.
Qed.

(** A line feed starts a new, empty line. *)
Lemma split_lines_newline s : split_lines (s +:+ LF) = split_lines s ++ [""].
Proof.
  induction s as [|c s IH]; [done|].
  pose proof (split_lines_nonempty s) as Hne.
  rewrite append_cons. cbn [split_lines]. rewrite IH.
  destruct (Ascii.eqb c newline); [done|].
  by destruct (split_lines s).
Qed.

Lemma parsed_app {T} (parse : string → option T) l1 l2 :
  parsed parse (l1 ++ l2) = parsed parse l1 ++ parsed parse l2.
Proof. unfold parsed. by rewrite filter_app, omap_app. Qed.

Lemma split_lines_last s :
  split_lines s = removelast (split_lines s) ++ [List.last (split_lines s) ""].
Proof. apply app_removelast_last, split_lines_nonempty. Qed.

(** X13. What [readLines] returns after [appendLine]. The record is written
    as one line with its line feed. Reading the file returns the records of
    the lines that were complete before, followed by the record of what
    came after the last line feed joined with the new record. So, on a file
    that does not exist, is empty or ends in a line feed, a record that
    [JSON.parse] reads back from its own serialisation is returned after
    those that were returned before; on a file whose last write was torn,
    the record is joined to the torn line and is returned only if that
    line parses. *)
Theorem persisted_event_is_read_back {T} (stringify : T → string)
    (parse : string → option T) (content : option string) (e : T) :
  no_newline (stringify e) = true →
  let content' := Some (appendLine stringify content e) in
  readLines parse content
  = parsed parse (complete_lines content) ++ parsed parse [last_line content]
  ∧ readLines parse content'
    = parsed parse (complete_lines content)
      ++ parsed parse [last_line content +:+ stringify e]
  ∧ (last_line content = "" →
     blank (stringify e) = false → parse (stringify e) = Some e →
     readLines parse content' = readLines parse content ++ [e])
  ∧ complete_lines content'
    = complete_lines content ++ [last_line content +:+ stringify e]
  ∧ last_line content' = "".
Proof.
  intros Hline content'.
  assert (split_lines (appendLine stringify content e)
          = (complete_lines content ++ [last_line content +:+ stringify e])
            ++ [""]) as Hsplit.
  { unfold appendLine. rewrite <- string_app_assoc, split_lines_newline.
    by rewrite split_lines_app. }
  assert (readLines parse content
          = parsed parse (complete_lines content)
            ++ parsed parse [last_line content]) as Hbefore.
  { unfold complete_lines, last_line. rewrite <- parsed_app.
    destruct content as [content|]; simpl; [|done].
    by rewrite <- split_lines_last. }
  assert (readLines parse content'
          = parsed parse (complete_lines content)
            ++ parsed parse [last_line content +:+ stringify e]) as Hafter.
  { unfold content', readLines. rewrite Hsplit, !parsed_app.
    by rewrite app_nil_r. }
  split; [done|]. split; [done|]. split; [|split].
  - intros Hlast Hblank Hparse. rewrite Hafter, Hbefore, Hlast.
    change ("" +:+ stringify e) with (stringify e).
    unfold parsed. rewrite filter_cons_True by done.
    change (filter (λ line, blank line = false) [""]) with (@nil string).
    simpl. by rewrite Hparse, app_nil_r.
  - unfold complete_lines at 1. simpl. rewrite Hsplit.
    by rewrite removelast_last.
  - unfold last_line. simpl. rewrite Hsplit. by rewrite last_last.
Qed.

Lemma persisted_event_is_read_back_witness :
  no_newline (stringify_bool false) = true
  ∧ readLines parse_bool (Some ("true" +:+ LF)) = [true]
  ∧ readLines parse_bool
      (Some (appendLine stringify_bool (Some ("true" +:+ LF)) false))
    = [true; false].
Proof.
  assert (no_newline (stringify_bool false) = true) as Hline by reflexivity.
  destruct (persisted_event_is_read_back stringify_bool parse_bool
              (Some ("true" +:+ LF)) false Hline)
    as (_ & _ & Hback & _).
  exact (conj Hline (conj eq_refl (Hback eq_refl eq_refl eq_refl))).
Defined.

(** X27. The source id of a persisted event is indexed: after
    [persistTranscriptEvent], [hasSourceId] holds of the non-empty source
    id of the event for its session, and otherwise as before. *)
Theorem persisted_source_id_is_indexed (e : TranscriptEvent) (p : Persistence)
    (sid s : string) :
  hasSourceId sid s (persistTranscriptEvent e p)
  = hasSourceId sid s p
    || bool_decide (sid = e_sessionId e ∧ sourceId e = Some s ∧ s ≠ "").
Proof.
  unfold hasSourceId. simpl.
  destruct (sourceId e) as [s'|] eqn:Hsrc.
  - destruct (truthy s') eqn:Ht.
    + apply truthy_true in Ht. unfold add_source_id.
      destruct (decide (e_sessionId e = sid)) as [<-|Hne].
      * rewrite lookup_insert_eq.
        destruct (pm_seenSourceIds p !! e_sessionId e) as [set|]; simpl.
        -- apply eq_true_iff_eq.
           rewrite orb_true_iff, !bool_decide_eq_true. set_solver.
        -- apply eq_true_iff_eq. rewrite !bool_decide_eq_true. set_solver.
      * rewrite lookup_insert_ne by done.
        rewrite (bool_decide_eq_false_2 (_ ∧ _)) by naive_solver.
        by rewrite orb_false_r.
    + rewrite (bool_decide_eq_false_2 (_ ∧ _)), orb_false_r; [done|].
      intros (_ & [= ->] & Hs). apply truthy_true in Hs. congruence.
  - rewrite (bool_decide_eq_false_2 (_ ∧ _)), orb_false_r; [done|].
    naive_solver.
Qed.

Lemma elem_of_keys_set {V} k k0 (v : V) m :
  k ∈ JsMap.keys (JsMap.set k0 v m) ↔ k = k0 ∨ k ∈ JsMap.keys m.
Proof.
  destruct (JsMap.get k0 m) as [x|] eqn:Hk0.
  - rewrite keys_set by by eexists. split; [by right|].
    intros [->|?]; [by eapply get_Some_keys|done].
  - rewrite set_fresh by done. unfold JsMap.keys. rewrite map_app. simpl.
    rewrite elem_of_app, list_elem_of_singleton. naive_solver.
Qed.

Lemma keys_replay_record acc rec k :
  k ∈ JsMap.keys (replay_record acc rec)
  ↔ k ∈ JsMap.keys acc ∨ k ∈ started_ids [rec].
Proof.
  destruct rec as [s t|sid u t|sid t]; simpl.
  - rewrite elem_of_keys_set, list_elem_of_singleton. naive_solver.
  - destruct (JsMap.get sid acc) as [s|] eqn:Hs.
    + rewrite keys_set by by eexists. set_solver.
    + set_solver.
  - destruct (JsMap.get sid acc) as [s|] eqn:Hs.
    + rewrite keys_set by by eexists. set_solver.
    + set_solver.
Qed.

Lemma keys_foldl_replay records acc k :
  k ∈ JsMap.keys (foldl replay_record acc records)
  ↔ k ∈ JsMap.keys acc ∨ k ∈ started_ids records.
Proof.
  revert acc. induction records as [|rec records IH]; intros acc; simpl.
  - set_solver.
  - rewrite IH, keys_replay_record. unfold started_ids. simpl.
    destruct rec; simpl; set_solver.
Qed.

(** X14. Replaying the session log yields one session for each session id
    that has a start record, and no other: an update or an end record of a
    session that has not been started before it is skipped, and a session
    that is started again keeps its single entry. *)
Theorem replayed_sessions_are_the_started_ones (p : Persistence) :
  NoDup (JsMap.keys (loadSessions p))
  ∧ ∀ k, is_Some (JsMap.get k (loadSessions p))
         ↔ k ∈ started_ids (sessionsFile p).
Proof.
  unfold loadSessions. split.
  - assert (∀ records acc, NoDup (JsMap.keys acc) →
              NoDup (JsMap.keys (foldl replay_record acc records))) as H.
    { induction records as [|rec records IH]; intros acc Hacc; simpl; [done|].
      by apply IH, NoDup_keys_replay_record. }
    apply H, NoDup_nil_2.
  - intros k. split.
    + intros [s Hs]. apply get_Some_keys, keys_foldl_replay in Hs.
      destruct Hs as [Hs|Hs]; [by apply elem_of_nil in Hs|done].
    + intros Hk. apply keys_get_is_Some, keys_foldl_replay. by right.
Qed.

(** ** Producers that have not registered *)

(** X15. A producer that has not registered, or that registered with the
    empty instance id, is ignored where the hub needs its instance: its
    heartbeat and its [session_start] change nothing and notify nobody, and
    when its connection closes the hub only stops tracking it, without
    removing any instance. *)
Theorem unregistered_producer_is_ignored (env : Env) (ws : WebSocket)
    (h : Hub) (session : SessionData) :
  truthy_opt (conn_instanceId ws h) = false →
  hub_handle env (ev_extension_message ws (Some x_heartbeat)) h
  = mkRun h [] (Normal tt)
  ∧ hub_handle env (ev_extension_message ws (Some (x_session_start session))) h
    = mkRun h [] (Normal tt)
  ∧ hub_handle env (ev_extension_close ws) h
    = mkRun (with_extensions (filter (λ x, x_ws x ≠ ws)) h) [] (Normal tt).
Proof.
  intros Hid. cbn [hub_handle].
  unfold extension_on_message, extension_on_close, try_catch.
  cbn [handleExtensionMessage]. rewrite !bind_gets, Hid. done.
Qed.

Lemma unregistered_producer_is_ignored_witness :
  truthy_opt (conn_instanceId 11 hub_with_unregistered_producer) = false
  ∧ hub_handle (sample_env good_net)
      (ev_extension_message 11
         (Some (x_session_start (sample_session_data "s"))))
      hub_with_unregistered_producer
    = mkRun hub_with_unregistered_producer [] (Normal tt).
Proof.
  assert (truthy_opt (conn_instanceId 11 hub_with_unregistered_producer)
          = false) as Hid by (vm_compute; reflexivity).
  destruct (unregistered_producer_is_ignored (sample_env good_net) 11
              hub_with_unregistered_producer (sample_session_data "s") Hid)
    as (_ & Hstart & _).
  exact (conj Hid Hstart).
Defined.

(** ** Forwarding a request to a producer *)

Lemma find_extension_Some target exts ext :
  find_extension target exts = Some ext →
  ext ∈ exts ∧ x_instanceId ext = Some target.
Proof.
  intros [Hin Htarget]%find_some. split; [by apply list_elem_of_In|].
  by apply bool_decide_eq_true in Htarget.
Qed.

Lemma try_catch_ws_send (n : Net) ws frame (handler : string → HubM unit) h :
  try_catch (ws_send n ws frame) handler h
  = match n ws with
    | None => mkRun h [send ws frame] (Normal tt)
    | Some err =>
        mkRun (state (handler err h)) (send ws frame :: trace (handler err h))
          (value (handler err h))
    end.
Proof. unfold try_catch, ws_send. simpl. by destruct (n ws). Qed.

Lemma ws_send_quietly_run (n : Net) ws frame h :
  ws_send_quietly n ws frame h = mkRun h [send ws frame] (Normal tt).
Proof.
  unfold ws_send_quietly. rewrite try_catch_ws_send. by destruct (n ws).
Qed.

(** X16. A [create_chat] of a consumer is forwarded to nobody but a
    producer that is registered as the target instance. Without such a
    producer the consumer is answered at once that the extension is not
    connected, and nothing is tracked. When the forward is sent, the request
    is tracked under its request id. When sending the forward throws, the
    consumer is answered with the failure, the handler completes normally
    even if that answer cannot be sent, and no request stays tracked under
    that request id. *)
Theorem create_chat_is_forwarded_to_its_target (env : Env) (ws : WebSocket)
    (requestId target prompt : string) (unifiedMode : SessionMode)
    (modelName : option string) (maxMode : option bool) (h : Hub) :
  pending_unique h →
  let o := handleClientMessage env ws
             (c_create_chat requestId target prompt unifiedMode modelName
                maxMode) h in
  match find_extension target (extensions h) with
  | None =>
      state o = h ∧ trace o = [create_chat_failure ws requestId NOT_CONNECTED]
  | Some ext =>
      ext ∈ extensions h ∧ x_instanceId ext = Some target
      ∧ match net env (x_ws ext) with
        | None =>
            o = mkRun
                  (with_pendingCreateChatRequests
                     (JsMap.set requestId
                        (mkPendingCreateChat ws target requestId (now_ms env)))
                     h)
                  [create_chat_request ext requestId target prompt unifiedMode
                     modelName maxMode]
                  (Normal tt)
        | Some err =>
            trace o
            = [create_chat_request ext requestId target prompt unifiedMode
                 modelName maxMode;
               create_chat_failure ws requestId (forward_failed err)]
            ∧ value o = Normal tt
            ∧ JsMap.get requestId (pendingCreateChatRequests (state o)) = None
        end
  end.
Proof.
  intros Hunique o. subst o. cbn [handleClientMessage]. rewrite bind_gets.
  destruct (find_extension target (extensions h)) as [ext|] eqn:Hfind.
  - destruct (find_extension_Some _ _ _ Hfind) as [Hin Htarget].
    split; [done|]. split; [done|].
    rewrite bind_modify, try_catch_ws_send.
    destruct (net env (x_ws ext)) as [err|]; [|done].
    rewrite bind_modify, ws_send_quietly_run. cbn [value state trace].
    split; [done|]. split; [done|].
    cbn [pendingCreateChatRequests with_pendingCreateChatRequests].
    by apply get_delete_eq, NoDup_keys_set.
  - unfold ws_send. by cbn [state trace].
Qed.

Lemma create_chat_is_forwarded_to_its_target_witness :
  pending_unique sample_hub
  ∧ find_extension "i1" (extensions sample_hub) = Some (mkExtension 10 (Some "i1"))
  ∧ (let o := handleClientMessage (sample_env net_without_10) 1
                (c_create_chat "r1" "i1" "hello" mode_agent None None)
                sample_hub in
     value o = Normal tt
     ∧ JsMap.get "r1" (pendingCreateChatRequests (state o)) = None).
Proof.
  assert (pending_unique sample_hub) as Hunique by apply NoDup_nil_2.
  assert (find_extension "i1" (extensions sample_hub)
          = Some (mkExtension 10 (Some "i1"))) as Hfind
    by (vm_compute; reflexivity).
  pose proof (create_chat_is_forwarded_to_its_target
                (sample_env net_without_10) 1 "r1" "i1" "hello" mode_agent
                None None sample_hub Hunique) as H.
  cbv zeta in H. rewrite Hfind in H.
  destruct H as (_ & _ & _ & Hvalue & Hgone).
  exact (conj Hunique (conj Hfind (conj Hvalue Hgone))).
Defined.

(** ** The sweep *)

Lemma bind_skip {S E A B} (m : M S E A) (k : A → M S E B) s a :
  m s = mkRun s [] (Normal a) → bind m k s = k a s.
Proof. intros Hm. unfold bind. rewrite Hm. simpl. by destruct (k a s). Qed.

Lemma for_of_skip {A} (xs : list A) (body : A → HubM unit) h :
  Forall (λ x, body x h = mkRun h [] (Normal tt)) xs →
  for_of xs body h = mkRun h [] (Normal tt).
Proof.
  induction 1 as [|x xs Hx _ IH]; simpl; [done|].
  by rewrite (bind_skip _ _ _ _ Hx).
Qed.

(** X17. The sweep spares every request that is not older than 30 seconds:
    when no pending request has waited for more than 30,000 ms - exactly
    30,000 ms is not enough - the sweep changes nothing and sends
    nothing. *)
Theorem sweep_spares_recent_requests (env : Env) (h : Hub) :
  all_recent (now_ms env) h → sweep env h = mkRun h [] (Normal tt).
Proof.
  intros (Hm & Hem & Hcc). unfold sweep.
  rewrite bind_gets, (bind_skip _ _ h tt); cycle 1.
  { apply for_of_skip. eapply Forall_impl; [exact Hm|]. intros [k q] Hq.
    unfold expire_message_request. simpl in *. by rewrite Hq. }
  rewrite bind_gets, (bind_skip _ _ h tt); cycle 1.
  { apply for_of_skip. eapply Forall_impl; [exact Hem|]. intros [k q] Hq.
    unfold expire_enabled_models_request. simpl in *. by rewrite Hq. }
  rewrite bind_gets. apply for_of_skip.
  eapply Forall_impl; [exact Hcc|]. intros [k q] Hq.
  unfold expire_create_chat_request. simpl in *. by rewrite Hq.
Qed.

Lemma sweep_spares_recent_requests_witness :
  all_recent (now_ms on_time_env) hub_with_pending_request
  ∧ JsMap.get "r1" (pendingCreateChatRequests hub_with_pending_request)
    = Some pending_r1
  ∧ sweep on_time_env hub_with_pending_request
    = mkRun hub_with_pending_request [] (Normal tt).
Proof.
  assert (all_recent (now_ms on_time_env) hub_with_pending_request) as Hrecent.
  { assert (pendingMessageRequests hub_with_pending_request = []) as Hm
      by (vm_compute; reflexivity).
    assert (pendingEnabledModelsRequests hub_with_pending_request = []) as Hem
      by (vm_compute; reflexivity).
    assert (pendingCreateChatRequests hub_with_pending_request
            = [("r1", pending_r1)]) as Hcc by (vm_compute; reflexivity).
    unfold all_recent. rewrite Hm, Hem, Hcc.
    split; [apply Forall_nil_2|]. split; [apply Forall_nil_2|].
    apply Forall_singleton. reflexivity. }
  assert (JsMap.get "r1" (pendingCreateChatRequests hub_with_pending_request)
          = Some pending_r1) as Hget by (vm_compute; reflexivity).
  exact (conj Hrecent (conj Hget
           (sweep_spares_recent_requests on_time_env
              hub_with_pending_request Hrecent))).
Defined.

(** ** Subscriptions *)

Lemma for_of_send_all {A} (n : Net) ws (frame : A → Frame) xs h :
  n ws = None →
  for_of xs (λ x, ws_send n ws (frame x)) h
  = mkRun h ((λ x, send ws (frame x)) <$> xs) (Normal tt).
Proof.
  intros Hn. induction xs as [|x xs IH]; simpl; [done|].
  by rewrite bind_ws_send, Hn, IH.
Qed.

(** X18. A consumer that subscribes to a session is first sent the history:
    when sending to its socket does not throw, [subscribe_session] sends it
    every event that the registry holds in memory for the session, oldest
    first, each once, and records the subscription on its connection and on
    no other. *)
Theorem subscribe_session_replays_the_history (env : Env) (ws : WebSocket)
    (sid : string) (h : Hub) :
  net env ws = None →
  hub_handle env (ev_client_message ws (Some (c_subscribe_session sid))) h
  = mkRun
      (with_clients
         (fmap (λ c, if Nat.eqb (c_ws c) ws then subscribe sid c else c)) h)
      ((λ e, send ws (to_client (s_transcript_event e)))
         <$> getTranscriptEvents sid None (registry h))
      (Normal tt).
Proof.
  intros Hn. cbn [hub_handle]. unfold client_on_message, try_catch.
  cbn [handleClientMessage]. unfold update_client.
  rewrite bind_modify, bind_gets.
  rewrite (for_of_send_all (net env) ws
             (λ e, to_client (s_transcript_event e))) by done.
  done.
Qed.

Lemma subscribe_session_replays_the_history_witness :
  net (sample_env good_net) 1 = None
  ∧ recipients
      (trace (hub_handle (sample_env good_net)
                (ev_client_message 1 (Some (c_subscribe_session "s")))
                sample_hub_with_events))
    = [1; 1; 1].
Proof.
  assert (net (sample_env good_net) 1 = None) as Hn by reflexivity.
  pose proof (subscribe_session_replays_the_history (sample_env good_net) 1
                "s" sample_hub_with_events Hn) as H.
  split; [done|]. rewrite H. vm_compute. reflexivity.
Defined.

Lemma session_subscribers_spec sid h ws :
  ws ∈ session_subscribers sid h
  ↔ ∃ c, c ∈ clients h ∧ c_ws c = ws ∧ authenticated c = true
         ∧ sid ∈ subscribedSessions c.
Proof.
  unfold session_subscribers. rewrite list_elem_of_fmap. split.
  - intros (c & -> & Hc). apply list_elem_of_filter in Hc as [Hsel Hc].
    apply andb_true_iff in Hsel as [Ha Hs%bool_decide_eq_true].
    by exists c.
  - intros (c & Hc & <- & Ha & Hs). exists c. split; [done|].
    apply list_elem_of_filter. split; [|done].
    apply andb_true_iff. split; [done|]. by apply bool_decide_eq_true.
Qed.

Lemma instance_subscribers_spec h ws :
  ws ∈ instance_subscribers h
  ↔ ∃ c, c ∈ clients h ∧ c_ws c = ws ∧ authenticated c = true
         ∧ subscribedInstances c = true.
Proof.
  unfold instance_subscribers. rewrite list_elem_of_fmap. split.
  - intros (c & -> & Hc). apply list_elem_of_filter in Hc as [Hsel Hc].
    apply andb_true_iff in Hsel as [Ha Hs]. by exists c.
  - intros (c & Hc & <- & Ha & Hs). exists c. split; [done|].
    apply list_elem_of_filter. split; [|done]. by apply andb_true_iff.
Qed.

Lemma subscribers_after_update (sel : ClientConnection → bool)
    (f : ClientConnection → ClientConnection) ws
    (cs : list ClientConnection) :
  (∀ c, sel (f c) = sel c) → (∀ c, c_ws (f c) = c_ws c) →
  c_ws <$> filter (λ c, sel c = true)
             ((λ c, if Nat.eqb (c_ws c) ws then f c else c) <$> cs)
  = c_ws <$> filter (λ c, sel c = true) cs.
Proof.
  intros Hsel Hws. induction cs as [|c cs IH]; [done|].
  rewrite fmap_cons, !filter_cons.
  destruct (Nat.eqb (c_ws c) ws).
  - rewrite Hsel. case_decide; [|done]. by rewrite !fmap_cons, Hws, IH.
  - case_decide; [|done]. by rewrite !fmap_cons, IH.
Qed.

(** X19. A consumer that leaves is sent nothing more: after its
    [unsubscribe_session] its socket is no longer among the subscribers of
    that session, while the subscribers of every other session and of the
    global stream are as before; after [unsubscribe_instances] it is no
    longer among the subscribers of the global stream; and after its
    connection has closed it is among the subscribers of nothing. *)
Theorem consumer_that_leaves_is_not_a_subscriber (env : Env) (ws : WebSocket)
    (sid : string) (h : Hub) :
  (let h' := state (hub_handle env
                      (ev_client_message ws (Some (c_unsubscribe_session sid)))
                      h) in
   (ws ∉ session_subscribers sid h')
   ∧ (∀ sid', sid' ≠ sid →
        session_subscribers sid' h' = session_subscribers sid' h)
   ∧ instance_subscribers h' = instance_subscribers h)
  ∧ (let h' := state (hub_handle env
                        (ev_client_message ws (Some c_unsubscribe_instances))
                        h) in
     ws ∉ instance_subscribers h')
  ∧ (let h' := state (hub_handle env (ev_client_close ws) h) in
     (ws ∉ instance_subscribers h')
     ∧ ∀ sid', ws ∉ session_subscribers sid' h').
Proof.
  cbn [hub_handle]. unfold client_on_message, client_on_close, try_catch.
  cbn [handleClientMessage]. unfold update_client, modify.
  cbn [state value with_clients clients].
  split; [split; [|split]|split; [|split]].
  - intros (c & Hc & Hws & _ & Hsid)%session_subscribers_spec.
    simpl in Hc. apply list_elem_of_fmap in Hc as (c0 & -> & _).
    destruct (Nat.eqb_spec (c_ws c0) ws) as [Heq|Hne]; simpl in *;
      [set_solver|done].
  - intros sid' Hne. unfold session_subscribers. simpl.
    apply (subscribers_after_update
             (λ c, authenticated c
                   && bool_decide (sid' ∈ subscribedSessions c)));
      [|done].
    intros c. simpl. f_equal. apply bool_decide_ext. set_solver.
  - unfold instance_subscribers. simpl.
    by apply (subscribers_after_update
                (λ c, authenticated c && subscribedInstances c)).
  - intros (c & Hc & Hws & _ & Hsub)%instance_subscribers_spec.
    simpl in Hc. apply list_elem_of_fmap in Hc as (c0 & -> & _).
    destruct (Nat.eqb_spec (c_ws c0) ws) as [Heq|Hne]; simpl in *; done.
  - intros (c & Hc & Hws & _)%instance_subscribers_spec.
    simpl in Hc. by apply list_elem_of_filter in Hc as [Hne _].
  - intros sid' (c & Hc & Hws & _)%session_subscribers_spec.
    simpl in Hc. by apply list_elem_of_filter in Hc as [Hne _].
Qed.

(** ** Producers that leave, and late results *)

Lemma find_ws_Some ws exts ext :
  List.find (λ ext, Nat.eqb (x_ws ext) ws) exts = Some ext → x_ws ext = ws.
Proof. intros [_ Hws]%find_some. by apply Nat.eqb_eq. Qed.

(** X20. When the connection of a registered producer closes, its instance
    is removed with it: if the registry of the hub holds one record per
    instance id, then after the close the instance of the producer cannot
    be looked up, whether or not a listener throws, and when none throws
    the hub tracks no producer on that socket any more. *)
Theorem closed_producer_loses_its_instance (env : Env) (ws : WebSocket)
    (iid : string) (h : Hub) :
  instances_unique (registry h) →
  conn_instanceId ws h = Some iid → iid ≠ "" →
  let o := hub_handle env (ev_extension_close ws) h in
  getInstance iid (registry (state o)) = None
  ∧ (value o = Normal tt → ws ∉ x_ws <$> extensions (state o)).
Proof.
  intros Hunique Hconn Hne o. subst o. cbn [hub_handle].
  unfold extension_on_close. rewrite bind_gets, Hconn. simpl.
  apply truthy_true in Hne as ->.
  set (m := in_registry env (removeInstance iid (now_iso env))).
  assert (getInstance iid (registry (state (m h))) = None) as Hgone.
  { subst m. unfold in_registry. cbn [state registry with_registry].
    set (r := bind_closures env h (registry h)).
    destruct (getInstance iid r) as [instance|] eqn:Hi.
    - apply (removeInstance_frame (λ r, getInstance iid r = None));
        [done|done| |by rewrite Hi].
      unfold getInstance. simpl. by apply get_delete_eq.
    - unfold removeInstance. unfold getInstance in Hi.
      by rewrite bind_gets, Hi. }
  unfold bind. destruct (value (m h)) as [[]|err] eqn:Hv; simpl.
  - split; [done|]. intros _ (x & Hws & Hx)%list_elem_of_fmap.
    by apply list_elem_of_filter in Hx as [Hx _].
  - split; [done|]. done.
Qed.

Lemma closed_producer_loses_its_instance_witness :
  instances_unique (registry sample_hub)
  ∧ conn_instanceId 10 sample_hub = Some "i1"
  ∧ is_Some (getInstance "i1" (registry sample_hub))
  ∧ getInstance "i1"
      (registry (state (hub_handle (sample_env good_net)
                          (ev_extension_close 10) sample_hub)))
    = None.
Proof.
  assert (instances_unique (registry sample_hub)) as Hunique.
  { assert (JsMap.keys (instances (registry sample_hub)) = ["i1"]) as Hkeys
      by (vm_compute; reflexivity).
    unfold instances_unique. rewrite Hkeys. apply NoDup_singleton. }
  assert (conn_instanceId 10 sample_hub = Some "i1") as Hconn
    by (vm_compute; reflexivity).
  assert (is_Some (getInstance "i1" (registry sample_hub))) as Hknown
    by (eexists; vm_compute; reflexivity).
  assert ("i1" ≠ "") as Hne by discriminate.
  exact (conj Hunique (conj Hconn (conj Hknown
           (proj1 (closed_producer_loses_its_instance (sample_env good_net)
                     10 "i1" sample_hub Hunique Hconn Hne))))).
Defined.

(** X21. A result that a producer sends for a request that the hub does not
    track - one that was never forwarded, was already answered, or has
    timed out - is dropped: nothing is sent to any consumer and the hub is
    left as it is, for each of the three kinds of result. *)
Theorem untracked_result_is_dropped (env : Env) (ws : WebSocket) (h : Hub)
    (requestId sid iid : string) (success : bool)
    (composerId err : option string) (models : option (list EnabledModel)) :
  (JsMap.get requestId (pendingMessageRequests h) = None →
   hub_handle env
     (ev_extension_message ws
        (Some (x_send_message_result sid requestId success composerId err))) h
   = mkRun h [] (Normal tt))
  ∧ (JsMap.get requestId (pendingEnabledModelsRequests h) = None →
     hub_handle env
       (ev_extension_message ws
          (Some (x_enabled_models_result requestId iid success models err))) h
     = mkRun h [] (Normal tt))
  ∧ (JsMap.get requestId (pendingCreateChatRequests h) = None →
     hub_handle env
       (ev_extension_message ws
          (Some (x_create_chat_result requestId success composerId err))) h
     = mkRun h [] (Normal tt)).
Proof.
  cbn [hub_handle]. unfold extension_on_message, try_catch.
  cbn [handleExtensionMessage].
  repeat split; intros Hnone; by rewrite bind_gets, Hnone.
Qed.

Lemma untracked_result_is_dropped_witness :
  JsMap.get "r1" (pendingCreateChatRequests sample_hub) = None
  ∧ hub_handle (sample_env good_net)
      (ev_extension_message 10
         (Some (x_create_chat_result "r1" true (Some "c1") None))) sample_hub
    = mkRun sample_hub [] (Normal tt).
Proof.
  assert (JsMap.get "r1" (pendingCreateChatRequests sample_hub) = None)
    as Hnone by reflexivity.
  destruct (untracked_result_is_dropped (sample_env good_net) 10 sample_hub
              "r1" "" "" true (Some "c1") None None) as (_ & _ & Hdrop).
  exact (conj Hnone (Hdrop Hnone)).
Defined.

(** ** The authorization hook *)

Lemma replace_first_prefix pat s :
  replace_first pat "" (pat +:+ s) = s.
Proof.
  assert (String.prefix pat (pat +:+ s) = true) as Hprefix.
  { induction pat as [|c pat IH]; simpl; [by destruct s|].
    destruct (ascii_dec c c); [done|congruence]. }
  assert (string_drop (String.length pat) (pat +:+ s) = s) as Hdrop.
  { clear Hprefix. induction pat as [|c pat IH]; [by destruct s|]. exact IH. }
  destruct pat as [|c pat]; [destruct s; reflexivity|].
  change (String c pat +:+ s) with (String c (pat +:+ s)) in *.
  cbn [replace_first]. rewrite Hprefix. exact Hdrop.
Qed.

(** X22. The authorization hook answers 401 to a request for a path under
    [/api/], other than those that begin with [/api/v1/info], unless the
    [authorization] header, once its first [Bearer ] is removed, is the
    current access token and is not empty; it answers nothing to any other
    request. In particular the header [Bearer ] followed by a non-empty
    current token is accepted, and a request without the header is not. *)
Theorem preHandler_asks_for_the_token (currentToken url : string)
    (authorization : option string) :
  (preHandler currentToken url authorization = None
   ↔ requires_token url = false
     ∨ (bearer_token authorization = Some currentToken ∧ currentToken ≠ ""))
  ∧ preHandler currentToken url (Some ("Bearer " +:+ currentToken))
    = (if requires_token url && negb (truthy currentToken)
       then Some (reply_error 401 "Unauthorized") else None)
  ∧ preHandler currentToken url None
    = (if requires_token url then Some (reply_error 401 "Unauthorized")
       else None).
Proof.
  unfold preHandler. split; [|split].
  - destruct (requires_token url); [|naive_solver].
    destruct (validateToken _ _) eqn:Hvalid; simpl.
    + apply validateToken_true in Hvalid. naive_solver.
    + split; [done|]. intros [?|Hok]; [done|].
      apply validateToken_true in Hok. congruence.
  - destruct (requires_token url); [|done].
    assert (bearer_token (Some ("Bearer " +:+ currentToken))
            = Some currentToken) as ->
      by (unfold bearer_token; cbn [fmap option_fmap option_map];
          by rewrite (replace_first_prefix "Bearer ")).
    cbn [andb].
    destruct (validateToken currentToken (Some currentToken)) eqn:Hvalid.
    + apply validateToken_true in Hvalid as [_ Hne%truthy_true].
      by rewrite Hne.
    + destruct (truthy currentToken) eqn:Ht; [|done].
      apply truthy_true in Ht.
      rewrite (proj2 (validateToken_true currentToken (Some currentToken)))
        in Hvalid; done.
  - by destruct (requires_token url).
Qed.

(** ** Exceptions that escape a handler *)

Lemma never_throws_ret {A} (a : A) : never_throws (ret a).
Proof. intros h. by exists a. Qed.

Lemma never_throws_gets {A} (f : Hub → A) : never_throws (gets f).
Proof. intros h. by eexists. Qed.

Lemma never_throws_modify (f : Hub → Hub) : never_throws (modify f).
Proof. intros h. by exists tt. Qed.

Lemma never_throws_bind {A B} (m : HubM A) (k : A → HubM B) :
  never_throws m → (∀ a, never_throws (k a)) → never_throws (bind m k).
Proof.
  intros Hm Hk h. destruct (Hm h) as [a Ha]. unfold bind. rewrite Ha. simpl.
  apply Hk.
Qed.

Lemma never_throws_try_catch {A} (m : HubM A) (handler : string → HubM A) :
  (∀ err, never_throws (handler err)) → never_throws (try_catch m handler).
Proof.
  intros Hk h. unfold try_catch.
  destruct (value (m h)) as [a|err] eqn:Hv; [by exists a|]. simpl. apply Hk.
Qed.

Lemma never_throws_for_of {A} (xs : list A) (body : A → HubM unit) :
  (∀ x, never_throws (body x)) → never_throws (for_of xs body).
Proof.
  intros Hbody. induction xs as [|x xs IH]; simpl.
  - apply never_throws_ret.
  - apply never_throws_bind; [apply Hbody | by intros _].
Qed.

Lemma never_throws_ws_send (n : Net) ws frame :
  n ws = None → never_throws (ws_send n ws frame).
Proof. intros Hn h. exists tt. unfold ws_send. simpl. by rewrite Hn. Qed.

Lemma never_throws_ws_send_quietly (n : Net) ws frame :
  never_throws (ws_send_quietly n ws frame).
Proof. intros h. exists tt. by rewrite ws_send_quietly_run. Qed.

Lemma never_throws_ws_close ws code reason :
  never_throws (ws_close ws code reason).
Proof. intros h. by exists tt. Qed.

Ltac safe_step :=
  first
    [ apply never_throws_ret
    | apply never_throws_gets
    | apply never_throws_modify
    | apply never_throws_ws_close
    | apply never_throws_ws_send_quietly
    | apply never_throws_ws_send; done
    | apply never_throws_bind; [|intros ?]
    | apply never_throws_try_catch; intros ?
    | apply never_throws_for_of; intros ?
    | match goal with
      | |- never_throws (match ?x with _ => _ end) => destruct x eqn:?
      | |- never_throws (if ?x then _ else _) => destruct x eqn:?
      | |- never_throws (let _ := _ in _) => cbv zeta
      end ].

Ltac safe := repeat safe_step.

Lemma never_throws_unit (m : HubM unit) h :
  never_throws m → value (m h) = Normal tt.
Proof. intros Hm. by destruct (Hm h) as [[] ->]. Qed.

(** X23. No exception escapes the handler of a producer message, the sweep,
    the close of a consumer connection or the arrival of a producer
    connection, whatever the message is, whichever listeners throw and
    whichever sockets are broken: what is thrown while a producer message is
    handled is caught, and every send of the sweep is guarded. *)
Theorem producer_messages_and_sweeps_never_throw (env : Env) (ws : WebSocket)
    (data : option ExtensionMessage) (h : Hub) :
  value (hub_handle env (ev_extension_message ws data) h) = Normal tt
  ∧ value (hub_handle env ev_sweep h) = Normal tt
  ∧ value (hub_handle env (ev_client_close ws) h) = Normal tt
  ∧ value (hub_handle env (ev_extension_connect ws) h) = Normal tt.
Proof.
  split; [|split; [|split]]; apply never_throws_unit; cbn [hub_handle].
  - unfold extension_on_message. safe.
  - unfold sweep, expire_message_request, expire_enabled_models_request,
      expire_create_chat_request. safe.
  - unfold client_on_close. safe.
  - unfold handleExtensionConnection. safe.
Qed.

(** X24. A consumer whose socket accepts what is sent to it cannot make the
    hub throw: whatever it sends - malformed data included - and whichever
    producer sockets are broken, the handler of its message completes
    normally. When its socket does not accept sends, malformed data makes
    the handler throw, because the error reply is not guarded. *)
Theorem consumer_message_throws_only_on_its_own_socket (env : Env)
    (ws : WebSocket) (data : option WSClientMessage) (h : Hub) :
  (net env ws = None →
   value (hub_handle env (ev_client_message ws data) h) = Normal tt)
  ∧ (∀ err, net env ws = Some err →
       hub_handle env (ev_client_message ws None) h
       = mkRun h [send ws (to_client (s_error "Invalid message format"))]
           (Throw err)).
Proof.
  cbn [hub_handle]. split.
  - intros Hn. apply never_throws_unit. unfold client_on_message.
    destruct data as [message|]; [|safe].
    unfold handleClientMessage, update_client. destruct message; safe.
  - intros err Hn. unfold client_on_message, try_catch, throw, ws_send.
    simpl. by rewrite Hn.
Qed.

Lemma consumer_message_throws_only_on_its_own_socket_witness :
  net (sample_env net_without_10) 1 = None
  ∧ value (hub_handle (sample_env net_without_10)
             (ev_client_message 1
                (Some (c_create_chat "r1" "i1" "hello" mode_agent None None)))
             sample_hub)
    = Normal tt.
Proof.
  assert (net (sample_env net_without_10) 1 = None) as Hn by reflexivity.
  exact (conj Hn
           (proj1 (consumer_message_throws_only_on_its_own_socket
                     (sample_env net_without_10) 1 _ sample_hub) Hn)).
Defined.

(** X25. [subscribe_instances] sends a snapshot: when sending to the
    consumer's socket does not throw, the consumer is sent one
    [instance_update] for every registered instance and then one
    [session_update] for every session that the registry knows - those of
    instances that are not connected included - each in the order of the
    registry, and its connection, and no other, is marked as subscribed to
    the global stream. *)
Theorem subscribe_instances_sends_a_snapshot (env : Env) (ws : WebSocket)
    (h : Hub) :
  net env ws = None →
  hub_handle env (ev_client_message ws (Some c_subscribe_instances)) h
  = mkRun
      (with_clients
         (fmap (λ c, if Nat.eqb (c_ws c) ws
                     then mkClient (c_ws c) (authenticated c) true
                            (subscribedSessions c)
                     else c)) h)
      (snapshot ws (registry h))
      (Normal tt).
Proof.
  intros Hn. cbn [hub_handle]. unfold client_on_message, try_catch.
  cbn [handleClientMessage]. unfold update_client.
  rewrite bind_modify, bind_gets.
  rewrite (bind_run _ _ _ _ _ _
             (for_of_send_all (net env) ws
                (λ i, to_client (s_instance_update i)) _ _ Hn)).
  rewrite bind_gets.
  rewrite (for_of_send_all (net env) ws
             (λ s, to_client (s_session_update s))) by done.
  done.
Qed.

Lemma subscribe_instances_sends_a_snapshot_witness :
  net (sample_env good_net) 2 = None
  ∧ trace (hub_handle (sample_env good_net)
             (ev_client_message 2 (Some c_subscribe_instances))
             sample_hub_with_session)
    = [send 2 (to_client (s_instance_update
                            (mkInstance "i1" "cursor" "1.0" "deadhand"
                               "/work/deadhand" 4242%Z "t9" "t9")));
       send 2 (to_client (s_session_update sample_session_s))].
Proof.
  assert (net (sample_env good_net) 2 = None) as Hn by reflexivity.
  pose proof (subscribe_instances_sends_a_snapshot (sample_env good_net) 2
                sample_hub_with_session Hn) as H.
  split; [done|]. rewrite H. vm_compute. reflexivity.
Defined.

(** ** Instance identifiers *)

Lemma instances_keyed_step op : preserves instances_keyed (reg_step op).
Proof.
  destruct op as [data now|iid now|iid now|iid data now|sid updates now
                  |sid now|data newId now|l|l|l|id|id|id];
    try (simpl; unfold_ops; preserve;
         try (apply preserves_modify; intros r Hr; exact Hr);
         try (apply preserves_modify; intros r Hr; by apply Forall_delete);
         fail).
  - simpl. unfold_ops. preserve. apply preserves_modify. intros r Hr.
    by apply Forall_set.
  - intros r Hr. cbn [reg_step]. unfold updateHeartbeat. rewrite bind_gets.
    destruct (JsMap.get iid (instances r)) as [instance|] eqn:Hget; [|done].
    rewrite bind_modify. unfold notifyInstance, forEach. cbn [state].
    apply Forall_set; [|done]. simpl. apply get_Some_elem_of in Hget.
    by apply (proj1 (Forall_forall _ _) Hr _) in Hget.
  - simpl. unfold_ops. preserve;
      try (apply preserves_modify; intros r Hr; by apply Forall_delete).
    apply preserves_removeInstance_loop; intros; assumption.
Qed.

Lemma keyed_ids (m : JsMap.t Instance) :
  Forall (λ kv : string * Instance, i_instanceId kv.2 = kv.1) m →
  i_instanceId <$> JsMap.values m = JsMap.keys m.
Proof.
  induction 1 as [|[k i] m Hk _ IH]; simpl; [done|].
  simpl in Hk. rewrite Hk. f_equal. exact IH.
Qed.

(** X26. The registry lists an instance id at most once: in a registry
    reached through its operations every instance record is stored under
    its own instance id, so that [getAllInstances] never returns two
    instances with the same id - registering an id again replaces the
    record in place - and [getInstance] of an id returns a record with
    that id. *)
Theorem instance_ids_are_unique (r : Registry) :
  reachable r →
  NoDup (i_instanceId <$> getAllInstances r)
  ∧ ∀ iid instance, getInstance iid r = Some instance →
                    i_instanceId instance = iid.
Proof.
  intros Hreach.
  assert (instances_keyed r) as Hkeyed.
  { induction Hreach as [options|r op _ IH].
    - destruct options; apply Forall_nil_2.
    - by apply instances_keyed_step. }
  split.
  - unfold getAllInstances. rewrite keyed_ids by done.
    by apply reachable_instances_unique.
  - intros iid instance Hget. apply get_Some_elem_of in Hget.
    by apply (proj1 (Forall_forall _ _) Hkeyed _) in Hget.
Qed.

Lemma instance_ids_are_unique_witness :
  reachable registry_with_three_sessions
  ∧ NoDup (i_instanceId <$> getAllInstances registry_with_three_sessions).
Proof.
  assert (reachable registry_with_three_sessions) as Hreach
    by (repeat apply reachable_step; apply (reachable_init None)).
  exact (conj Hreach
           (proj1 (instance_ids_are_unique registry_with_three_sessions
                     Hreach))).
Defined.
